(** * Form-input validation and cost aggregation

    A shallow embedding of [src/utils/validationUtils.js]: the currency and
    positive-integer field validators, their year / odometer specialisations,
    and the two composite validators that report through a toast sink.

    The ECMAScript built-ins the module calls ([parseFloat], [parseInt],
    [isNaN], the relational operators on Numbers, [+], template-literal
    string conversion) are modelled concretely: a Number is an IEEE-754
    binary64 value ([spec_float] of the Standard Library with precision 53),
    strings are sequences of code units below 256, and string-to-number
    conversion rounds the exact decimal value to the nearest double, ties to
    even.  [Number.prototype.toLocaleString] depends on the host locale and
    is kept as a parameter of the validators that call it. *)

From Stdlib Require Import ZArith QArith Qround Qpower Bool List.
From Stdlib Require Import String Ascii Lia Lqa SpecFloat.
Import ListNotations.

Local Open Scope Z_scope.

(* ===================================================================== *)
(** * Part I: definitions *)
(* ===================================================================== *)

(** ** Numbers: binary64 *)

Module JsNumber.

Definition prec : Z := 53.
Definition emax : Z := 1024.

(** A JavaScript Number.  The values that occur at run time are the
    [valid] ones (canonical mantissa and exponent). *)
Definition Number : Type := spec_float.

Definition valid (x : Number) : bool := valid_binary prec emax x.

Definition NaN : Number := S754_nan.
Definition Infinity : Number := S754_infinity false.

Definition isNaN (x : Number) : bool :=
  match x with S754_nan => true | _ => false end.

(** [x < y] and [x > y]; both are false as soon as one side is NaN. *)
Definition lt (x y : Number) : bool := SFltb x y.
Definition gt (x y : Number) : bool := SFltb y x.

(** Number addition, the [+] of two Numbers. *)
Definition add (x y : Number) : Number := SFadd prec emax x y.

(** Structural identity of two Numbers ([Object.is]): distinguishes the
    two zeros and identifies NaN with itself. *)
Definition same (x y : Number) : bool :=
  match x, y with
  | S754_zero a, S754_zero b => Bool.eqb a b
  | S754_infinity a, S754_infinity b => Bool.eqb a b
  | S754_nan, S754_nan => true
  | S754_finite a m e, S754_finite b m' e' =>
      Bool.eqb a b && Pos.eqb m m' && Z.eqb e e'
  | _, _ => false
  end.

Definition pow2 (z : Z) : Q := ((2 # 1) ^ z)%Q.
Definition pow10 (z : Z) : Q := ((10 # 1) ^ z)%Q.

(** The rational value of a finite Number (0 for the non-finite ones). *)
Definition magnitude (x : Number) : Q :=
  match x with
  | S754_finite _ m e => (inject_Z (Zpos m) * pow2 e)%Q
  | _ => 0%Q
  end.

(** [ilog2 X] is the binary exponent of a positive rational:
    [2^(ilog2 X) <= X < 2^(ilog2 X + 1)]. *)
Definition ilog2 (X : Q) : Z :=
  let d := Z.log2 (Qnum X) - Z.log2 (Zpos (Qden X)) in
  if Qle_bool (pow2 d) X then d else d - 1.

(** Round a non-negative rational to the nearest binary64 value, ties to
    even; [sgn] is the sign given to the result (also to a zero). *)
Definition roundQ (sgn : bool) (X : Q) : Number :=
  if Qle_bool X 0 then S754_zero sgn
  else
    let ex := Z.max (ilog2 X - 52) (-1074) in
    let y := (X / pow2 ex)%Q in
    let m := Qfloor y in
    let m' := match (y - inject_Z m ?= 1 # 2)%Q with
              | Lt => m
              | Eq => if Z.even m then m else m + 1
              | Gt => m + 1
              end in
    match m' with
    | Zpos p =>
        if Z.eqb m' (2 ^ 53) then
          if Z.leb (ex + 1) 971 then S754_finite sgn (2 ^ 52)%positive (ex + 1)
          else S754_infinity sgn
        else if Z.leb ex 971 then S754_finite sgn p ex
        else S754_infinity sgn
    | _ => S754_zero sgn
    end.

(** The Number denoted by an integer literal of the source. *)
Definition of_Z (z : Z) : Number :=
  roundQ (Z.ltb z 0) (inject_Z (Z.abs z)).

End JsNumber.
Import JsNumber.

(** ** Decimal digits and strings *)

Module JsString.

Local Open Scope char_scope.

(** The value of a decimal digit character, code units 48 to 57. *)
Definition digit_of_ascii (c : ascii) : option Z :=
  let n := Z.of_nat (nat_of_ascii c) in
  if (48 <=? n)%Z && (n <=? 57)%Z then Some (n - 48)%Z else None.

Definition ascii_of_digit (d : Z) : ascii :=
  ascii_of_nat (Z.to_nat (48 + d)).

Definition is_digit (c : ascii) : bool :=
  match digit_of_ascii c with Some _ => true | None => false end.

(** WhiteSpace and LineTerminator code units below 256. *)
Definition is_space (c : ascii) : bool :=
  let n := nat_of_ascii c in
  (Nat.leb 9 n && Nat.leb n 13) || Nat.eqb n 32 || Nat.eqb n 160.

Local Open Scope string_scope.

(** TrimString(_, start). *)
Fixpoint trim_start (s : string) : string :=
  match s with
  | String c rest => if is_space c then trim_start rest else s
  | EmptyString => s
  end.

(** The longest run of decimal digits at the start of [s], as digit
    values (most significant first), and what follows it. *)
Fixpoint span_digits (s : string) : list Z * string :=
  match s with
  | String c rest =>
      match digit_of_ascii c with
      | Some d => let (ds, tl) := span_digits rest in (d :: ds, tl)
      | None => ([], s)
      end
  | EmptyString => ([], s)
  end.

(** The integer written by a list of digits. *)
Definition digits_value (ds : list Z) : Z :=
  fold_left (fun acc d => 10 * acc + d) ds 0.

Fixpoint string_of_digits (ds : list Z) : string :=
  match ds with
  | d :: tl => String (ascii_of_digit d) (string_of_digits tl)
  | [] => EmptyString
  end.

(** The decimal digits of a non-negative integer, most significant
    first, without leading zeros ([0] itself is the single digit 0). *)
Fixpoint digits_acc (fuel : nat) (n : Z) (acc : list Z) : list Z :=
  match fuel with
  | O => acc
  | S f =>
      if (n <? 10)%Z then n :: acc
      else digits_acc f (n / 10)%Z ((n mod 10)%Z :: acc)
  end.

Definition digits_of (n : Z) : list Z :=
  digits_acc (S (Z.to_nat (Z.log2 n))) n [].

Fixpoint zeros (n : nat) : string :=
  match n with O => EmptyString | S k => String "0"%char (zeros k) end.

(** Does [s] start with [p]?  When it does, the rest is returned. *)
Fixpoint strip_prefix (p s : string) : option string :=
  match p, s with
  | EmptyString, _ => Some s
  | String a p', String b s' =>
      if Ascii.eqb a b then strip_prefix p' s' else None
  | String _ _, EmptyString => None
  end.

(** An optional sign: [true] for a leading minus. *)
Definition split_sign (s : string) : bool * string :=
  match s with
  | String "-"%char rest => (true, rest)
  | String "+"%char rest => (false, rest)
  | _ => (false, s)
  end.

End JsString.
Import JsString.

(** ** String to Number: [parseFloat] and [parseInt] on strings *)

Module JsParse.

(** The Number denoted by the digits [ds] scaled by [10^e10], with sign
    [sgn]: the exact decimal value, rounded to the nearest double. *)
Definition decimal_value (sgn : bool) (ds : list Z) (e10 : Z) : Number :=
  roundQ sgn (inject_Z (digits_value ds) * pow10 e10)%Q.

(** ExponentPart: [e] or [E], an optional sign, at least one digit.  An
    incomplete exponent part is not consumed. *)
Definition scan_exponent (s : string) : Z * string :=
  match s with
  | String c rest =>
      if Ascii.eqb c "e" || Ascii.eqb c "E" then
        let (neg, rest') := split_sign rest in
        match span_digits rest' with
        | ([], _) => (0, s)
        | (ds, tl) => (if neg then - digits_value ds else digits_value ds, tl)
        end
      else (0, s)
  | EmptyString => (0, s)
  end.

(** The optional fraction: a dot and the digits after it. *)
Definition scan_fraction (s : string) : list Z * string :=
  match s with
  | String "."%char rest => span_digits rest
  | _ => ([], s)
  end.

(** The longest prefix of [s] that is a StrUnsignedDecimalLiteral
    ([Infinity], or digits with an optional fraction and exponent, or a
    fraction that starts with the dot), its value with sign [sgn], and
    the unread rest; NaN when no prefix is one. *)
Definition scan_unsigned (sgn : bool) (s : string) : Number * string :=
  match strip_prefix "Infinity" s with
  | Some rest => (S754_infinity sgn, rest)
  | None =>
      let (ip, r1) := span_digits s in
      let (fp, r2) := scan_fraction r1 in
      match ip ++ fp with
      | [] => (NaN, s)
      | ds =>
          let (e, r3) := scan_exponent r2 in
          (decimal_value sgn ds (e - Z.of_nat (List.length fp)), r3)
      end
  end.

(** [parseFloat] applied to a string. *)
Definition parseFloat_str (s : string) : Number :=
  let (sgn, r) := split_sign (trim_start s) in
  fst (scan_unsigned sgn r).

(** [parseInt(_, 10)] applied to a string: radix 10 is given, so no
    [0x] prefix is recognised. *)
Definition parseInt_str (s : string) : Number :=
  let (sgn, r) := split_sign (trim_start s) in
  match fst (span_digits r) with
  | [] => NaN
  | ds => roundQ sgn (inject_Z (digits_value ds))
  end.

End JsParse.
Import JsParse.

(** ** Number to string: [Number::toString] in radix 10 *)

Module JsPrint.

Definition len (ds : list Z) : Z := Z.of_nat (List.length ds).

(** [decimal_exponent X] is the [n] with [10^(n-1) <= X < 10^n], for a
    positive rational [X]. *)
Definition decimal_exponent (X : Q) : Z :=
  let d := len (digits_of (Qnum X)) - len (digits_of (Zpos (Qden X))) in
  if Qle_bool (pow10 d) X then d + 1 else d.

(** The conditions ECMAScript puts on the digits [s], their number [k]
    and the exponent [n] chosen for a positive Number [x]:
    [10^(k-1) <= s < 10^k] and [s * 10^(n-k)] converts to [x]. *)
Definition accepts (x : Number) (s k n : Z) : bool :=
  (10 ^ (k - 1) <=? s) && (s <? 10 ^ k) &&
  same (roundQ false (inject_Z s * pow10 (n - k))%Q) x.

(** The [k]-digit candidates for [x]: the two [k]-digit decimals that
    enclose [X], the one closer to [X] first (the even one on a tie). *)
Definition candidate (x : Number) (X : Q) (nx k : Z) : option (Z * Z) :=
  let y := (X * pow10 (k - nx))%Q in
  let lo := Qfloor y in
  let hi := lo + 1 in
  let (hs, hn) := if hi =? 10 ^ k then (10 ^ (k - 1), nx + 1) else (hi, nx) in
  let below := if accepts x lo k nx then Some (lo, nx) else None in
  let above := if accepts x hs k hn then Some (hs, hn) else None in
  let first_of a b := match a with Some _ => a | None => b end in
  match (y - inject_Z lo ?= inject_Z hi - y)%Q with
  | Lt => first_of below above
  | Gt => first_of above below
  | Eq => if Z.even lo then first_of below above else first_of above below
  end.

(** Smallest [k], counting up from [k], that has an accepted candidate. *)
Fixpoint search (fuel : nat) (x : Number) (X : Q) (nx k : Z)
  : option (Z * Z) :=
  match fuel with
  | O => None
  | S f =>
      match candidate x X nx k with
      | Some sn => Some sn
      | None => search f x X nx (k + 1)
      end
  end.

(** The exact decimal expansion of [m * 2^e]: an integer [s] and an
    exponent [e10 <= 0] with [m * 2^e = s * 10^e10]. *)
Definition exact_decimal (m : positive) (e : Z) : Z * Z :=
  if 0 <=? e then (Zpos m * 2 ^ e, 0) else (Zpos m * 5 ^ (- e), e).

(** The digits and the exponent [n] that print the positive finite
    Number [m * 2^e]: as few digits as convert back to it.  The search
    needs no more digits than the exact expansion has, which is also
    what is printed should no shorter candidate be accepted. *)
Definition shortest_digits (m : positive) (e : Z) : list Z * Z :=
  let x := S754_finite false m e in
  let X := magnitude x in
  let (s0, e0) := exact_decimal m e in
  let k0 := len (digits_of s0) in
  match search (Z.to_nat k0) x X (decimal_exponent X) 1 with
  | Some (s, n) => (digits_of s, n)
  | None => (digits_of s0, k0 + e0)
  end.

Local Open Scope string_scope.

(** The exponent suffix [e+21] / [e-7]. *)
Definition exponent_suffix (e : Z) : string :=
  "e" ++ (if (e <? 0)%Z then "-" else "+") ++ string_of_digits (digits_of (Z.abs e)).

(** Steps 6 to 11 of Number::toString: lay out [k] digits with the
    decimal point after the [n]-th. *)
Definition layout (ds : list Z) (n : Z) : string :=
  let k := len ds in
  if ((-6 <? n) && (n <=? 21))%Z then
    if (k <=? n)%Z then
      string_of_digits ds ++ zeros (Z.to_nat (n - k))
    else if (0 <? n)%Z then
      string_of_digits (firstn (Z.to_nat n) ds) ++ "." ++
      string_of_digits (skipn (Z.to_nat n) ds)
    else
      "0." ++ zeros (Z.to_nat (- n)) ++ string_of_digits ds
  else
    match ds with
    | [d] => string_of_digits [d] ++ exponent_suffix (n - 1)
    | d :: tl =>
        string_of_digits [d] ++ "." ++ string_of_digits tl ++
        exponent_suffix (n - 1)
    | [] => exponent_suffix (n - 1)
    end.

Definition NumberToString (x : Number) : string :=
  match x with
  | S754_nan => "NaN"
  | S754_zero _ => "0"
  | S754_infinity false => "Infinity"
  | S754_infinity true => "-Infinity"
  | S754_finite sgn m e =>
      let (ds, n) := shortest_digits m e in
      (if sgn then "-" else EmptyString) ++ layout ds n
  end.

End JsPrint.
Import JsPrint.

(** ** Values, completions and the built-in functions on values *)

Module Js.

Local Open Scope string_scope.

Inductive JsError : Type :=
| TypeError (msg : string).

(** The outcome of evaluating an expression: a value, or a thrown
    exception. *)
Inductive Completion (A : Type) : Type :=
| Normal (a : A)
| Throw (e : JsError).
Arguments Normal {A} a.
Arguments Throw {A} e.

(** The primitive values a caller can pass for a form field. *)
Inductive JsValue : Type :=
| VUndefined
| VNull
| VBool (b : bool)
| VNumber (x : Number)
| VString (s : string)
| VSymbol (description : string).

(** The abstract operation ToString. *)
Definition ToString (v : JsValue) : Completion string :=
  match v with
  | VUndefined => Normal "undefined"
  | VNull => Normal "null"
  | VBool true => Normal "true"
  | VBool false => Normal "false"
  | VNumber x => Normal (NumberToString x)
  | VString s => Normal s
  | VSymbol _ => Throw (TypeError "Cannot convert a Symbol value to a string")
  end.

(** [parseFloat(v)] and [parseInt(v, 10)]: the argument is converted to
    a string first. *)
Definition parseFloat (v : JsValue) : Completion Number :=
  match ToString v with
  | Normal s => Normal (parseFloat_str s)
  | Throw e => Throw e
  end.

Definition parseInt (v : JsValue) : Completion Number :=
  match ToString v with
  | Normal s => Normal (parseInt_str s)
  | Throw e => Throw e
  end.

(** [value === '' || value === null || value === undefined]. *)
Definition is_blank (v : JsValue) : bool :=
  match v with
  | VString EmptyString | VNull | VUndefined => true
  | _ => false
  end.

(** A parameter or destructured property with a default: the default is
    taken when the argument is absent ([None]). *)
Definition or_default {A : Type} (d : A) (o : option A) : A :=
  match o with Some a => a | None => d end.

(** The raw inputs of the validators: [string | number], or one of the
    two empty values. *)
Inductive NumericInput : Type :=
| InString (s : string)
| InNumber (x : Number)
| InNull
| InUndefined.

Definition to_js (i : NumericInput) : JsValue :=
  match i with
  | InString s => VString s
  | InNumber x => VNumber x
  | InNull => VNull
  | InUndefined => VUndefined
  end.

End Js.
Import Js.

(** ** The result records *)

Module CurrencyResult.
Record t : Type := mk { isValid : bool; value : Number; error : option string }.
End CurrencyResult.

Module IntegerResult.
Record t : Type :=
  mk { isValid : bool; value : option Number; error : option string }.
End IntegerResult.

Module ValidationOptions.
(** [{ min, max, allowEmpty }]; an absent property is [None]. *)
Record t : Type :=
  mk { min : option Number; max : option Number; allowEmpty : option bool }.
Definition empty : t := mk None None None.
End ValidationOptions.

Module Costs.
Record t : Type := mk { price : JsValue; shipping : JsValue; duties : JsValue }.
End Costs.

Module CostBundle.
Record t : Type :=
  mk { price : Number; shipping : Number; duties : Number; total : Number }.
End CostBundle.

Module PartCostsResult.
Record t : Type := mk { isValid : bool; values : option CostBundle.t }.
End PartCostsResult.

Module BudgetResult.
Record t : Type := mk { isValid : bool; value : Number }.
End BudgetResult.

(** ** The field validators *)

Module Validation.

Local Open Scope string_scope.

Definition zero : Number := Eval vm_compute in of_Z 0.
Definition billion : Number := Eval vm_compute in of_Z 1000000000.

(** [validateCurrency(value, fieldName = 'Value')]. *)
Definition validateCurrency (value : JsValue) (fieldName : option string)
  : Completion CurrencyResult.t :=
  let fieldName := or_default "Value" fieldName in
  if is_blank value then
    Normal (CurrencyResult.mk true zero None)
  else
    match parseFloat value with
    | Throw e => Throw e
    | Normal parsed =>
        if isNaN parsed then
          Normal (CurrencyResult.mk false zero
                    (Some (fieldName ++ " must be a valid number")))
        else if lt parsed zero then
          Normal (CurrencyResult.mk false zero
                    (Some (fieldName ++ " cannot be negative")))
        else if gt parsed billion then
          Normal (CurrencyResult.mk false zero
                    (Some (fieldName ++ " exceeds maximum allowed value")))
        else
          Normal (CurrencyResult.mk true parsed None)
    end.

Section Locale.

(** [Number.prototype.toLocaleString] in the host's default locale. *)
Variable toLocaleString : Number -> string.

(** [validatePositiveInteger(value, fieldName = 'Value', options = {})]. *)
Definition validatePositiveInteger (value : JsValue)
  (fieldName : option string) (options : option ValidationOptions.t)
  : Completion IntegerResult.t :=
  let fieldName := or_default "Value" fieldName in
  let options := or_default ValidationOptions.empty options in
  let min := or_default zero (ValidationOptions.min options) in
  let max := or_default Infinity (ValidationOptions.max options) in
  let allowEmpty := or_default true (ValidationOptions.allowEmpty options) in
  if is_blank value then
    if allowEmpty then Normal (IntegerResult.mk true None None)
    else Normal (IntegerResult.mk false None
                   (Some (fieldName ++ " is required")))
  else
    match parseInt value with
    | Throw e => Throw e
    | Normal parsed =>
        if isNaN parsed then
          Normal (IntegerResult.mk false None
                    (Some (fieldName ++ " must be a valid number")))
        else if lt parsed min then
          Normal (IntegerResult.mk false None
                    (Some (fieldName ++ " must be at least " ++
                           NumberToString min)))
        else if gt parsed max then
          Normal (IntegerResult.mk false None
                    (Some (fieldName ++ " must be at most " ++
                           toLocaleString max)))
        else
          Normal (IntegerResult.mk true (Some parsed) None)
    end.

(** [validateYear(value, fieldName = 'Year')]; [currentYear] is what
    [new Date().getFullYear()] returns at the time of the call. *)
Definition validateYear (currentYear : Number) (value : JsValue)
  (fieldName : option string) : Completion IntegerResult.t :=
  let fieldName := or_default "Year" fieldName in
  validatePositiveInteger value (Some fieldName)
    (Some (ValidationOptions.mk
             (Some (of_Z 1900))
             (Some (add currentYear (of_Z 2)))
             (Some true))).

(** [validateOdometer(value, fieldName = 'Odometer')]. *)
Definition validateOdometer (value : JsValue) (fieldName : option string)
  : Completion IntegerResult.t :=
  let fieldName := or_default "Odometer" fieldName in
  validatePositiveInteger value (Some fieldName)
    (Some (ValidationOptions.mk
             (Some (of_Z 0))
             (Some (of_Z 10000000))
             (Some true))).

End Locale.

End Validation.
Import Validation.

(** ** The composite validators and the toast sink *)

Module Composite.

Local Open Scope string_scope.

Section Sink.

(** The state of whatever renders the notifications. *)
Variable T : Type.

(** The toast object: its [warning] method receives the [error]
    property of a result ([string | null]). *)
Record Toast : Type := { warning : option string -> T -> T }.

(** Computations that may call the sink and may throw. *)
Definition Eff (A : Type) : Type := T -> Completion A * T.

Definition ret {A : Type} (a : A) : Eff A := fun st => (Normal a, st).

Definition bind {A B : Type} (c : Eff A) (k : A -> Eff B) : Eff B :=
  fun st =>
    match c st with
    | (Normal a, st') => k a st'
    | (Throw e, st') => (Throw e, st')
    end.

Definition lift {A : Type} (c : Completion A) : Eff A := fun st => (c, st).

(** [toast?.warning(msg)]: skipped when [toast] is null or undefined. *)
Definition warn (toast : option Toast) (msg : option string) : Eff unit :=
  fun st =>
    match toast with
    | Some t => (Normal tt, warning t msg st)
    | None => (Normal tt, st)
    end.

Notation "x <- c ;; k" := (bind c (fun x => k))
  (at level 61, c at next level, right associativity).
Notation "c ;;; k" := (bind c (fun _ => k))
  (at level 61, right associativity).

(** [validatePartCosts(costs, toast)]. *)
Definition validatePartCosts (costs : Costs.t) (toast : option Toast)
  : Eff PartCostsResult.t :=
  priceResult <- lift (validateCurrency (Costs.price costs) (Some "Price")) ;;
  if negb (CurrencyResult.isValid priceResult) then
    warn toast (CurrencyResult.error priceResult) ;;;
    ret (PartCostsResult.mk false None)
  else
  shippingResult <- lift (validateCurrency (Costs.shipping costs) (Some "Shipping")) ;;
  if negb (CurrencyResult.isValid shippingResult) then
    warn toast (CurrencyResult.error shippingResult) ;;;
    ret (PartCostsResult.mk false None)
  else
  dutiesResult <- lift (validateCurrency (Costs.duties costs) (Some "Duties")) ;;
  if negb (CurrencyResult.isValid dutiesResult) then
    warn toast (CurrencyResult.error dutiesResult) ;;;
    ret (PartCostsResult.mk false None)
  else
  let total := add (add (CurrencyResult.value priceResult)
                        (CurrencyResult.value shippingResult))
                   (CurrencyResult.value dutiesResult) in
  ret (PartCostsResult.mk true
         (Some (CostBundle.mk (CurrencyResult.value priceResult)
                              (CurrencyResult.value shippingResult)
                              (CurrencyResult.value dutiesResult)
                              total))).

(** [validateBudget(budget, toast)]. *)
Definition validateBudget (budget : JsValue) (toast : option Toast)
  : Eff BudgetResult.t :=
  result <- lift (validateCurrency budget (Some "Budget")) ;;
  if negb (CurrencyResult.isValid result) then
    warn toast (CurrencyResult.error result) ;;;
    ret (BudgetResult.mk false zero)
  else
    ret (BudgetResult.mk true (CurrencyResult.value result)).

End Sink.

Arguments warning {T} _ _ _.
Arguments validatePartCosts {T} costs toast _.
Arguments validateBudget {T} budget toast _.

(** A sink that records the messages it is sent, oldest first. *)
Definition recorder : Toast (list (option string)) :=
  {| warning := fun msg log => (log ++ [msg])%list |}.

End Composite.
Import Composite.

(** ** The validators as the specification words them *)

Module Reference.

Local Open Scope string_scope.

(** Empty, null or undefined input. *)
Definition is_empty (i : NumericInput) : bool :=
  match i with
  | InString s => String.eqb s EmptyString
  | InNumber _ => false
  | InNull | InUndefined => true
  end.

(** The text a raw input is parsed from. *)
Definition text (i : NumericInput) : string :=
  match i with
  | InString s => s
  | InNumber x => NumberToString x
  | InNull => "null"
  | InUndefined => "undefined"
  end.

(** The numeric parse and the integer parse of a raw input; [None] when
    the parse fails. *)
Definition numeric_parse (i : NumericInput) : option Number :=
  let p := parseFloat_str (text i) in
  if isNaN p then None else Some p.

Definition integer_parse (i : NumericInput) : option Number :=
  let p := parseInt_str (text i) in
  if isNaN p then None else Some p.

Definition ceiling : Number := of_Z 1000000000.

Definition valid_currency (x : Number) : CurrencyResult.t :=
  CurrencyResult.mk true x None.
Definition invalid_currency (msg : string) : CurrencyResult.t :=
  CurrencyResult.mk false (of_Z 0) (Some msg).

(** The range tests of the currency validator on a parsed Number. *)
Definition currency_outcome (field : string) (p : Number) : CurrencyResult.t :=
  if lt p (of_Z 0) then invalid_currency (field ++ " cannot be negative")
  else if gt p ceiling then
    invalid_currency (field ++ " exceeds maximum allowed value")
  else valid_currency p.

(** Section 4.1, the Currency Validator. *)
Definition CurrencyValidator (i : NumericInput) (field : string)
  : CurrencyResult.t :=
  if is_empty i then valid_currency (of_Z 0)
  else
    match numeric_parse i with
    | None => invalid_currency (field ++ " must be a valid number")
    | Some p => currency_outcome field p
    end.

Definition valid_integer (x : option Number) : IntegerResult.t :=
  IntegerResult.mk true x None.
Definition invalid_integer (msg : string) : IntegerResult.t :=
  IntegerResult.mk false None (Some msg).

(** The range tests of the integer validator on a parsed Number. *)
Definition integer_outcome (thousands_separated : Number -> string)
  (field : string) (min max : Number) (p : Number) : IntegerResult.t :=
  if lt p min then
    invalid_integer (field ++ " must be at least " ++ NumberToString min)
  else if gt p max then
    invalid_integer (field ++ " must be at most " ++ thousands_separated max)
  else valid_integer (Some p).

(** Section 4.2, the Positive-Integer Validator; [thousands_separated]
    renders the upper bound in the message. *)
Definition PositiveIntegerValidator (thousands_separated : Number -> string)
  (i : NumericInput) (field : string) (min max : Number) (allowEmpty : bool)
  : IntegerResult.t :=
  if is_empty i then
    if allowEmpty then valid_integer None
    else invalid_integer (field ++ " is required")
  else
    match integer_parse i with
    | None => invalid_integer (field ++ " must be a valid number")
    | Some p => integer_outcome thousands_separated field min max p
    end.

(** The three cost fields in the order the composite validator takes
    them, with their labels. *)
Inductive CostField : Type := Price | Shipping | Duties.

Definition field_value (costs : Costs.t) (f : CostField) : JsValue :=
  match f with
  | Price => Costs.price costs
  | Shipping => Costs.shipping costs
  | Duties => Costs.duties costs
  end.

Definition field_label (f : CostField) : string :=
  match f with
  | Price => "Price"
  | Shipping => "Shipping"
  | Duties => "Duties"
  end.

Definition earlier (f : CostField) : list CostField :=
  match f with
  | Price => []
  | Shipping => [Price]
  | Duties => [Price; Shipping]
  end.

(** The result of validating one cost field. *)
Definition validate_field (costs : Costs.t) (f : CostField)
  : Completion CurrencyResult.t :=
  validateCurrency (field_value costs f) (Some (field_label f)).

(** A bundle of raw cost inputs. *)
Definition raw_costs (p s d : NumericInput) : Costs.t :=
  Costs.mk (to_js p) (to_js s) (to_js d).

(** The invariant of section 3 on the two kinds of result. *)
Definition currency_invariant (r : CurrencyResult.t) : Prop :=
  (CurrencyResult.isValid r = true -> CurrencyResult.error r = None) /\
  (CurrencyResult.isValid r = false ->
     CurrencyResult.value r = of_Z 0 /\
     exists msg, CurrencyResult.error r = Some msg /\ msg <> EmptyString).

Definition integer_invariant (r : IntegerResult.t) : Prop :=
  (IntegerResult.isValid r = true -> IntegerResult.error r = None) /\
  (IntegerResult.isValid r = false ->
     IntegerResult.value r = None /\
     exists msg, IntegerResult.error r = Some msg /\ msg <> EmptyString).

(** The result of a failed composite validation. *)
Definition failure : PartCostsResult.t := PartCostsResult.mk false None.

(** The value a result hands back, as an input for a second call. *)
Definition feed_number (x : Number) : JsValue := VNumber x.
Definition feed_integer (x : option Number) : JsValue :=
  match x with Some p => VNumber p | None => VNull end.

(** [-0] read as [+0]: the two are the same Number for [===]. *)
Definition unsigned_zero (x : Number) : Number :=
  match x with S754_zero _ => S754_zero false | _ => x end.

End Reference.
Import Reference.

(** ** Decimal numerals, and the notions used to state the properties of
    printing and reading Numbers *)

Module Numerals.

Local Open Scope string_scope.

(** A decimal numeral: optional sign, integer digits, optional fraction,
    optional exponent. *)
Inductive Sign : Type := NoSign | Plus | Minus.

Definition sign_text (s : Sign) : string :=
  match s with NoSign => EmptyString | Plus => "+" | Minus => "-" end.

Definition is_minus (s : Sign) : bool :=
  match s with Minus => true | _ => false end.

Record Numeral : Type := {
  sign : Sign;
  int_part : list Z;
  frac_part : option (list Z);
  exp_part : option (bool * Sign * list Z)
}.

Definition frac_digits (nm : Numeral) : list Z :=
  match frac_part nm with Some fp => fp | None => [] end.

Definition frac_text (nm : Numeral) : string :=
  match frac_part nm with
  | Some fp => "." ++ string_of_digits fp
  | None => EmptyString
  end.

Definition exp_text (nm : Numeral) : string :=
  match exp_part nm with
  | Some (upper, s, ds) =>
      (if upper then "E" else "e") ++ sign_text s ++ string_of_digits ds
  | None => EmptyString
  end.

Definition exp_value (nm : Numeral) : Z :=
  match exp_part nm with
  | Some (_, s, ds) => if is_minus s then - digits_value ds else digits_value ds
  | None => 0
  end.

Definition unsigned_text (nm : Numeral) : string :=
  string_of_digits (int_part nm) ++ frac_text nm ++ exp_text nm.

Definition numeral_text (nm : Numeral) : string :=
  sign_text (sign nm) ++ unsigned_text nm.

Definition all_digits (ds : list Z) : bool :=
  forallb (fun d => (0 <=? d)%Z && (d <=? 9)%Z) ds.

Definition nonempty (ds : list Z) : bool :=
  match ds with [] => false | _ => true end.

(** Well-formed numerals: digits are digits, there is at least one digit
    in the integer or fraction part, and an exponent has digits. *)
Definition well_formed (nm : Numeral) : bool :=
  all_digits (int_part nm) && all_digits (frac_digits nm) &&
  nonempty (int_part nm ++ frac_digits nm) &&
  match exp_part nm with
  | Some (_, _, ds) => all_digits ds && nonempty ds
  | None => true
  end.

(** The Number a numeral denotes. *)
Definition numeral_value (nm : Numeral) : Number :=
  decimal_value (is_minus (sign nm)) (int_part nm ++ frac_digits nm)
    (exp_value nm - len (frac_digits nm)).

(** Text that cannot continue a numeral: it is empty or starts with a
    character that is not a digit, a dot or an exponent marker. *)
Definition non_numeric (t : string) : bool :=
  match t with
  | String c _ =>
      negb (is_digit c || Ascii.eqb c "." || Ascii.eqb c "e" || Ascii.eqb c "E")
  | EmptyString => true
  end.

(** Text that cannot continue a run of digits. *)
Definition non_digit (t : string) : bool :=
  match t with
  | String c _ => negb (is_digit c)
  | EmptyString => true
  end.

Local Close Scope string_scope.

(** [ds] are the decimal digits of [n], without leading zeros. *)
Definition writes (ds : list Z) (n : Z) : Prop :=
  all_digits ds = true /\
  digits_value ds = n /\
  1 <= len ds /\
  n < 10 ^ len ds /\
  (n = 0 /\ len ds = 1 \/ 10 ^ (len ds - 1) <= n).

(** A character that can start an unsigned numeral: a digit or the dot. *)
Definition starts_numeral (c : ascii) : bool := is_digit c || Ascii.eqb c ".".

(** The sign printed in front of a Number. *)
Definition sign_of (sgn : bool) : Sign := if sgn then Minus else NoSign.

(** The numeral that [layout] writes. *)
Definition layout_numeral (sgn : bool) (ds : list Z) (n : Z) : Numeral :=
  let k := len ds in
  let e := n - 1 in
  let suffix := Some (false, (if e <? 0 then Minus else Plus), digits_of (Z.abs e)) in
  if (-6 <? n) && (n <=? 21) then
    if k <=? n then
      Build_Numeral (sign_of sgn) (ds ++ repeat 0 (Z.to_nat (n - k))) None None
    else if 0 <? n then
      Build_Numeral (sign_of sgn) (firstn (Z.to_nat n) ds)
        (Some (skipn (Z.to_nat n) ds)) None
    else
      Build_Numeral (sign_of sgn) [0]
        (Some (repeat 0 (Z.to_nat (- n)) ++ ds)) None
  else
    match ds with
    | [d] => Build_Numeral (sign_of sgn) [d] None suffix
    | d :: tl => Build_Numeral (sign_of sgn) [d] (Some tl) suffix
    | [] => Build_Numeral (sign_of sgn) [] None suffix
    end.

(** The Number [1e21], from which on [toString] uses exponent notation. *)
Definition one_e21 : Number := Eval vm_compute in roundQ false (inject_Z (10 ^ 21)).

(** A finite Number with a whole value. *)
Definition whole (x : Number) : Prop :=
  match x with
  | S754_finite _ m e => exists N : Z, (inject_Z (Zpos m) * pow2 e == inject_Z N)%Q
  | _ => True
  end.

(** Is [x] finite with magnitude below the integer [b]? *)
Definition below (x : Number) (b : Z) : bool :=
  match x with
  | S754_zero _ => true
  | S754_finite _ m e => negb (Qle_bool (inject_Z b) (inject_Z (Zpos m) * pow2 e))
  | _ => false
  end.

End Numerals.
Import Numerals.

(** ** A host locale *)

Module Locale.

Local Open Scope string_scope.

(** Digits grouped in threes from the right, the rendering of a whole
    number in the en-US locale. *)
Fixpoint group3 (ds : list Z) (n : nat) : string :=
  match ds with
  | [] => EmptyString
  | d :: tl =>
      String (ascii_of_digit d)
        ((if Nat.eqb (n mod 3) 1 && negb (Nat.eqb n 1) then "," else EmptyString) ++
         group3 tl (pred n))
  end.

Definition thousands (n : Z) : string :=
  let ds := digits_of n in group3 ds (List.length ds).

(** A stand-in for [toLocaleString] in the en-US locale, for zeros and
    whole Numbers: the digits that [toString] chooses (as few as identify
    the Number), filled up with zeros and grouped in threes, after a minus
    sign when the sign bit is set ([-0] is rendered [-0]).  Numbers with a
    fraction, NaN and the infinities are not rendered as the host does:
    they are printed as [toString] prints them. *)
Definition toLocaleString_enUS (x : Number) : string :=
  match x with
  | S754_zero sgn => (if sgn then "-" else EmptyString) ++ "0"
  | S754_finite sgn m e =>
      let (ds, n) := shortest_digits m e in
      if (len ds <=? n)%Z then
        let whole_digits := (ds ++ repeat 0%Z (Z.to_nat (n - len ds)))%list in
        (if sgn then "-" else EmptyString) ++
        group3 whole_digits (List.length whole_digits)
      else NumberToString x
  | _ => NumberToString x
  end.

End Locale.
Import Locale.

(** ** Notions used to state which inputs are accepted *)

Module Ranges.

(** The rational value of a Number that is a zero or finite. *)
Definition to_Q (x : Number) : Q :=
  match x with
  | S754_finite true m e => (- (inject_Z (Zpos m) * pow2 e))%Q
  | S754_finite false m e => (inject_Z (Zpos m) * pow2 e)%Q
  | _ => 0%Q
  end.

(** A zero, or a finite Number with the sign bit clear. *)
Definition nonneg_finite (x : Number) : bool :=
  match x with
  | S754_zero _ => true
  | S754_finite false _ _ => true
  | _ => false
  end.

(** The Number that [roundQ] builds from the rounded mantissa and the
    exponent. *)
Definition assemble (sgn : bool) (m' ex : Z) : Number :=
  match m' with
  | Zpos p =>
      if Z.eqb m' (2 ^ 53) then
        if Z.leb (ex + 1) 971 then S754_finite sgn (2 ^ 52)%positive (ex + 1)
        else S754_infinity sgn
      else if Z.leb ex 971 then S754_finite sgn p ex
      else S754_infinity sgn
  | _ => S754_zero sgn
  end.

(** [x] with its sign bit set to [s]. *)
Definition with_sign (s : bool) (x : Number) : Number :=
  match x with
  | S754_zero _ => S754_zero s
  | S754_infinity _ => S754_infinity s
  | S754_nan => S754_nan
  | S754_finite _ m e => S754_finite s m e
  end.

(** The largest decimal value that still reads as at most the ceiling:
    half way between [10^9] and the next Number. *)
Definition ceiling_threshold : Q := (inject_Z 1000000000 + pow2 (-24))%Q.

(** The largest value that reads as a zero: half the least positive
    Number. *)
Definition zero_threshold : Q := pow2 (-1075).

(** The exact decimal value a numeral writes, before its sign. *)
Definition numeral_exact (nm : Numeral) : Q :=
  (inject_Z (digits_value (int_part nm ++ frac_digits nm)) *
   pow10 (exp_value nm - len (frac_digits nm)))%Q.

(** The integer written by a sign and a run of digits. *)
Definition signed_value (sg : Sign) (ds : list Z) : Z :=
  if is_minus sg then - digits_value ds else digits_value ds.

(** A Number the currency validator can return: a zero, or a finite
    positive Number that is at most [10^9]. *)
Definition in_currency_range (x : Number) : bool :=
  match x with
  | S754_zero _ => true
  | S754_finite false m e =>
      Qle_bool (inject_Z (Zpos m) * pow2 e) (inject_Z 1000000000)
  | _ => false
  end.

(** Strings made of white space only. *)
Fixpoint all_space (s : string) : bool :=
  match s with
  | String c rest => is_space c && all_space rest
  | EmptyString => true
  end.

(** A first character that no integer can start with: neither white
    space, a sign nor a digit. *)
Definition starts_no_integer (c : ascii) : bool :=
  negb (is_space c || is_digit c || Ascii.eqb c "+" || Ascii.eqb c "-").

(** A first character that no decimal can start with: in addition,
    neither the dot nor the [I] of [Infinity]. *)
Definition starts_no_decimal (c : ascii) : bool :=
  starts_no_integer c && negb (Ascii.eqb c "." || Ascii.eqb c "I").

End Ranges.
Import Ranges.

(** ** Notions used to describe what a string writes *)

Module Written.

(** Does [t] start with an exponent part: [e] or [E], an optional sign
    and a digit? *)
Definition starts_exponent (t : string) : bool :=
  match t with
  | String c rest =>
      (Ascii.eqb c "e" || Ascii.eqb c "E") &&
      negb (non_digit (snd (split_sign rest)))
  | EmptyString => false
  end.

(** Does [t] start with a dot? *)
Definition starts_dot (t : string) : bool :=
  match t with
  | String c _ => Ascii.eqb c "."
  | EmptyString => false
  end.

(** The numeral [nm] ends where [t] starts: [t] does not go on with a
    digit, nor with an exponent part when [nm] has none, nor with a dot
    when [nm] has neither a fraction nor an exponent. *)
Definition stops (nm : Numeral) (t : string) : bool :=
  non_digit t &&
  match exp_part nm, frac_part nm with
  | Some _, _ => true
  | None, Some _ => negb (starts_exponent t)
  | None, None => negb (starts_exponent t) && negb (starts_dot t)
  end.

(** [t] comes after the optional sign [sg]: when no sign is written, [t]
    starts with neither white space nor a sign. *)
Definition bare (sg : Sign) (t : string) : bool :=
  match sg, t with
  | NoSign, String c _ =>
      negb (is_space c || Ascii.eqb c "+" || Ascii.eqb c "-")
  | _, _ => true
  end.

(** Does [t] start with an unsigned decimal: a digit, a dot and a digit,
    or [Infinity]? *)
Definition starts_decimal (t : string) : bool :=
  match t with
  | String c rest => is_digit c || (Ascii.eqb c "." && negb (non_digit rest))
  | EmptyString => false
  end
  || match strip_prefix "Infinity" t with Some _ => true | None => false end.

(** A bound of the integer validator that is absent or a whole number
    from 0 to below [2^53]. *)
Definition whole_bound (b : option Z) : bool :=
  match b with
  | Some x => (0 <=? x) && (x <? 2 ^ 53)
  | None => true
  end.

End Written.
Import Written.

(* ===================================================================== *)
(** * Part II: properties *)
(* ===================================================================== *)

(** ** Rounding to binary64 *)

Section NumberFacts.

Local Open Scope Z_scope.

Lemma pow2_pos (z : Z) : (0 < pow2 z)%Q.
Proof. unfold pow2. apply Qpower_0_lt. reflexivity. Qed.

Lemma pow2_add (a b : Z) : (pow2 (a + b) == pow2 a * pow2 b)%Q.
Proof. unfold pow2. apply Qpower_plus. discriminate. Qed.

Lemma pow2_Z (z : Z) : 0 <= z -> (pow2 z == inject_Z (2 ^ z))%Q.
Proof. intro H. unfold pow2. rewrite Zpower_Qpower by assumption. reflexivity. Qed.

Lemma pow2_lt (a b : Z) : a < b -> (pow2 a < pow2 b)%Q.
Proof. intro H. unfold pow2. apply Qpower_lt_compat_l; [assumption | reflexivity]. Qed.

Lemma pow2_le (a b : Z) : a <= b -> (pow2 a <= pow2 b)%Q.
Proof. intro H. unfold pow2. apply Qpower_le_compat_l; [assumption | discriminate]. Qed.

Lemma pow2_lt_inv (a b : Z) : (pow2 a < pow2 b)%Q -> a < b.
Proof.
  intro H. destruct (Z_lt_le_dec a b) as [|Hle]; [assumption|].
  apply pow2_le in Hle. lra.
Qed.

Lemma pow2_succ (z : Z) : (pow2 (z + 1) == 2 * pow2 z)%Q.
Proof.
  rewrite pow2_add. assert (H : (pow2 1 == 2)%Q) by reflexivity.
  rewrite H. lra.
Qed.

Lemma Qmake_mul_den (n : Z) (d : positive) :
  ((n # d) * inject_Z (Zpos d) == inject_Z n)%Q.
Proof. unfold Qeq, Qmult, inject_Z. simpl. rewrite Pos.mul_1_r. lia. Qed.

Lemma ilog2_spec (X : Q) :
  (0 < X)%Q -> (pow2 (ilog2 X) <= X /\ X < pow2 (ilog2 X + 1))%Q.
Proof.
  intro HX. unfold ilog2.
  destruct X as [n d]. cbn [Qnum Qden].
  assert (Hn : 0 < n) by (unfold Qlt in HX; simpl in HX; lia).
  set (ln := Z.log2 n). set (ld := Z.log2 (Zpos d)).
  assert (Hln : 0 <= ln) by apply Z.log2_nonneg.
  assert (Hld : 0 <= ld) by apply Z.log2_nonneg.
  destruct (Z.log2_spec n Hn) as [Hn1 Hn2]. fold ln in Hn1, Hn2.
  destruct (Z.log2_spec (Zpos d) eq_refl) as [Hd1 Hd2]. fold ld in Hd1, Hd2.
  assert (Qn1 : (pow2 ln <= inject_Z n)%Q) by (rewrite pow2_Z by lia; now rewrite <- Zle_Qle).
  assert (Qn2 : (inject_Z n < 2 * pow2 ln)%Q).
  { rewrite <- pow2_succ, pow2_Z by lia. now rewrite <- Zlt_Qlt. }
  assert (Qd1 : (pow2 ld <= inject_Z (Zpos d))%Q) by (rewrite pow2_Z by lia; now rewrite <- Zle_Qle).
  assert (Qd2 : (inject_Z (Zpos d) < 2 * pow2 ld)%Q).
  { rewrite <- pow2_succ, pow2_Z by lia. now rewrite <- Zlt_Qlt. }
  assert (HP : (pow2 ln == pow2 (ln - ld) * pow2 ld)%Q).
  { rewrite <- pow2_add. now replace (ln - ld + ld) with ln by lia. }
  pose proof (Qmake_mul_den n d) as HXd.
  pose proof (pow2_pos (ln - ld)) as HP0.
  pose proof (pow2_pos ld) as HB0.
  assert (Hd0 : (0 < inject_Z (Zpos d))%Q) by (now rewrite Zlt_Qlt in *; reflexivity).
  destruct (Qle_bool (pow2 (ln - ld)) (n # d)) eqn:Hle.
  - apply Qle_bool_iff in Hle. split; [assumption|].
    rewrite pow2_succ.
    generalize dependent (n # d). generalize dependent (pow2 (ln - ld)).
    generalize dependent (pow2 ln). generalize dependent (pow2 ld).
    generalize dependent (inject_Z n). generalize dependent (inject_Z (Z.pos d)).
    intros. nra.
  - assert (Hlt : (n # d < pow2 (ln - ld))%Q).
    { apply Qnot_le_lt. intro H. apply Qle_bool_iff in H. congruence. }
    replace (ln - ld - 1 + 1) with (ln - ld) by lia.
    split; [|assumption].
    assert (H2 : (pow2 (ln - ld) == 2 * pow2 (ln - ld - 1))%Q).
    { rewrite <- pow2_succ. now replace (ln - ld - 1 + 1) with (ln - ld) by lia. }
    generalize dependent (n # d). generalize dependent (pow2 (ln - ld - 1)).
    generalize dependent (pow2 (ln - ld)).
    generalize dependent (pow2 ln). generalize dependent (pow2 ld).
    generalize dependent (inject_Z n). generalize dependent (inject_Z (Z.pos d)).
    intros. nra.
Qed.

Lemma ilog2_unique (X : Q) (E : Z) :
  (pow2 E <= X)%Q -> (X < pow2 (E + 1))%Q -> ilog2 X = E.
Proof.
  intros H1 H2.
  assert (HX : (0 < X)%Q) by (pose proof (pow2_pos E); lra).
  destruct (ilog2_spec X HX) as [H3 H4].
  assert (E < ilog2 X + 1) by (apply pow2_lt_inv; lra).
  assert (ilog2 X < E + 1) by (apply pow2_lt_inv; lra).
  lia.
Qed.

Lemma ilog2_proper (X Y : Q) : (0 < X)%Q -> (X == Y)%Q -> ilog2 X = ilog2 Y.
Proof.
  intros HX H. symmetry. destruct (ilog2_spec X HX) as [H1 H2].
  apply ilog2_unique; rewrite <- H; assumption.
Qed.

Lemma roundQ_proper (s : bool) (X Y : Q) : (X == Y)%Q -> roundQ s X = roundQ s Y.
Proof.
  intro H. unfold roundQ.
  assert (H0 : Qle_bool X 0 = Qle_bool Y 0) by now rewrite H.
  rewrite <- H0. destruct (Qle_bool X 0) eqn:Hle; [reflexivity|].
  assert (HX : (0 < X)%Q).
  { apply Qnot_le_lt. intro Hc. apply Qle_bool_iff in Hc. congruence. }
  rewrite <- (ilog2_proper X Y HX H).
  cbv zeta.
  set (ex := Z.max (ilog2 X - 52) (-1074)).
  assert (Hf : Qfloor (X / pow2 ex) = Qfloor (Y / pow2 ex)) by now rewrite H.
  rewrite <- Hf.
  set (m := Qfloor (X / pow2 ex)).
  assert (Hc : (X / pow2 ex - inject_Z m ?= 1 # 2)%Q =
               (Y / pow2 ex - inject_Z m ?= 1 # 2)%Q).
  { apply Qcompare_comp; [|reflexivity]. now rewrite H. }
  rewrite <- Hc. reflexivity.
Qed.

Lemma digits2_log2 (m : positive) :
  Zpos (digits2_pos m) = Z.log2 (Zpos m) + 1.
Proof.
  assert (H : forall p, digits2_pos p = Pos.size p).
  { induction p; simpl; congruence. }
  rewrite H. destruct m; simpl; lia.
Qed.

Lemma digits2_bounds (m : positive) :
  2 ^ (Zpos (digits2_pos m) - 1) <= Zpos m < 2 ^ Zpos (digits2_pos m).
Proof.
  rewrite digits2_log2.
  destruct (Z.log2_spec (Zpos m) eq_refl) as [H1 H2].
  replace (Z.log2 (Zpos m) + 1 - 1) with (Z.log2 (Zpos m)) by lia.
  replace (Z.log2 (Zpos m) + 1) with (Z.succ (Z.log2 (Zpos m))) by lia.
  split; assumption.
Qed.

Lemma Qle_bool_false (X Y : Q) : (Y < X)%Q -> Qle_bool X Y = false.
Proof.
  intro H. destruct (Qle_bool X Y) eqn:E; [|reflexivity].
  apply Qle_bool_iff in E. lra.
Qed.

Lemma Qle_bool_false_inv (X Y : Q) : Qle_bool X Y = false -> (Y < X)%Q.
Proof.
  intro H. apply Qnot_le_lt. intro Hc. apply Qle_bool_iff in Hc. congruence.
Qed.

(** The canonical form of the fields of a bounded Number. *)
Lemma bounded_canonical (m : positive) (e : Z) :
  bounded prec emax m e = true ->
  Z.max (Zpos (digits2_pos m) + e - 53) (-1074) = e /\ e <= 971.
Proof.
  unfold bounded, canonical_mantissa, fexp, emin, prec, emax.
  intro H. apply andb_prop in H. destruct H as [H1 H2].
  apply Z.eqb_eq in H1. apply Z.leb_le in H2. split; lia.
Qed.

Lemma mantissa_ilog2 (m : positive) (e : Z) :
  ilog2 (inject_Z (Zpos m) * pow2 e) = Zpos (digits2_pos m) - 1 + e.
Proof.
  destruct (digits2_bounds m) as [H1 H2].
  set (D := Zpos (digits2_pos m)) in *.
  assert (HD : 1 <= D) by (unfold D; lia).
  pose proof (pow2_pos e) as He.
  apply ilog2_unique.
  - rewrite pow2_add. rewrite (pow2_Z (D - 1)) by lia.
    apply Qmult_le_compat_r; [|lra]. now rewrite <- Zle_Qle.
  - replace (D - 1 + e + 1) with (D + e) by lia.
    rewrite pow2_add. rewrite (pow2_Z D) by lia.
    apply Qmult_lt_compat_r; [lra|]. now rewrite <- Zlt_Qlt.
Qed.

Lemma roundQ_exact (s : bool) (m : positive) (e : Z) :
  bounded prec emax m e = true ->
  roundQ s (inject_Z (Zpos m) * pow2 e) = S754_finite s m e.
Proof.
  intro Hb. destruct (bounded_canonical m e Hb) as [Hc He].
  destruct (digits2_bounds m) as [_ Hm].
  pose proof (pow2_pos e) as Hp.
  set (X := (inject_Z (Zpos m) * pow2 e)%Q).
  assert (HX : (0 < X)%Q).
  { unfold X. apply Qmult_lt_0_compat; [reflexivity | assumption]. }
  unfold roundQ. rewrite (Qle_bool_false X 0 HX). cbv zeta.
  unfold X. rewrite mantissa_ilog2. fold X.
  replace (Z.max (Zpos (digits2_pos m) - 1 + e - 52) (-1074)) with e by lia.
  assert (Hy : (X / pow2 e == inject_Z (Zpos m))%Q).
  { unfold X. field. lra. }
  assert (Hf : Qfloor (X / pow2 e) = Zpos m).
  { rewrite Hy. apply Qfloor_Z. }
  rewrite Hf.
  assert (Hcmp : (X / pow2 e - inject_Z (Zpos m) ?= 1 # 2)%Q = Lt).
  { rewrite <- Qlt_alt. rewrite Hy. lra. }
  rewrite Hcmp.
  assert (Hlt : Zpos m < 2 ^ 53).
  { eapply Z.lt_le_trans; [exact Hm|]. apply Z.pow_le_mono_r; lia. }
  replace (Z.eqb (Zpos m) (2 ^ 53)) with false by (symmetry; apply Z.eqb_neq; lia).
  replace (Z.leb e 971) with true by (symmetry; apply Z.leb_le; lia).
  reflexivity.
Qed.

Lemma bounded_intro (p : positive) (e : Z) :
  Zpos p < 2 ^ 53 -> -1074 <= e <= 971 ->
  (e = -1074 \/ 2 ^ 52 <= Zpos p) ->
  bounded prec emax p e = true.
Proof.
  intros Hp He Hn.
  unfold bounded, canonical_mantissa, fexp, emin, prec, emax.
  apply andb_true_intro. split; [|apply Z.leb_le; lia].
  apply Z.eqb_eq. rewrite digits2_log2.
  assert (Z.log2 (Zpos p) < 53) by (apply Z.log2_lt_pow2; lia).
  destruct Hn as [-> | Hn]; [lia|].
  assert (52 <= Z.log2 (Zpos p)) by (apply Z.log2_le_pow2; lia).
  lia.
Qed.

(** The scaled value that [roundQ] truncates lies below [2^53], and at or
    above [2^52] unless the exponent is the least one. *)
Lemma scaled_bounds (X : Q) :
  (0 < X)%Q ->
  let ex := Z.max (ilog2 X - 52) (-1074) in
  (X / pow2 ex < inject_Z (2 ^ 53))%Q /\
  (ex = -1074 \/ (inject_Z (2 ^ 52) <= X / pow2 ex)%Q).
Proof.
  intros HX ex. destruct (ilog2_spec X HX) as [H1 H2].
  pose proof (pow2_pos ex) as Hex.
  split.
  - apply Qlt_shift_div_r; [assumption|].
    rewrite <- (pow2_Z 53) by lia. rewrite <- pow2_add.
    eapply Qlt_le_trans; [exact H2|]. apply pow2_le. lia.
  - destruct (Z.eq_dec ex (-1074)) as [|Hne]; [now left | right].
    apply Qle_shift_div_l; [assumption|].
    rewrite <- (pow2_Z 52) by lia. rewrite <- pow2_add.
    replace (52 + ex) with (ilog2 X) by lia. assumption.
Qed.

Lemma roundQ_valid (s : bool) (X : Q) : valid (roundQ s X) = true.
Proof.
  unfold roundQ. destruct (Qle_bool X 0) eqn:Hle; [reflexivity|].
  apply Qle_bool_false_inv in Hle.
  destruct (scaled_bounds X Hle) as [Hhi Hlo]. cbv zeta.
  set (ex := Z.max (ilog2 X - 52) (-1074)) in *.
  set (y := (X / pow2 ex)%Q) in *.
  pose proof (Qfloor_le y) as Hf1. pose proof (Qlt_floor y) as Hf2.
  set (m := Qfloor y) in *.
  assert (Hm : m < 2 ^ 53).
  { rewrite Zlt_Qlt. lra. }
  assert (Hm' : ex = -1074 \/ 2 ^ 52 <= m).
  { destruct Hlo as [|Hlo]; [now left | right].
    rewrite <- (Qfloor_Z (2 ^ 52)). apply Qfloor_resp_le. assumption. }
  assert (Hex : -1074 <= ex) by (unfold ex; lia).
  set (m' := match (y - inject_Z m ?= 1 # 2)%Q with
             | Lt => m
             | Eq => if Z.even m then m else m + 1
             | Gt => m + 1
             end).
  assert (Hr : m <= m' <= m + 1).
  { unfold m'. destruct (y - inject_Z m ?= 1 # 2)%Q; [destruct (Z.even m)| |]; lia. }
  clearbody m'. destruct m' as [|p|p]; try reflexivity.
  destruct (Z.eqb_spec (Zpos p) (2 ^ 53)) as [He|Hne].
  - destruct (Z.leb_spec (ex + 1) 971); [|reflexivity].
    apply (bounded_intro (2 ^ 52) (ex + 1)); [reflexivity | lia | now right].
  - destruct (Z.leb_spec ex 971); [|reflexivity].
    apply (bounded_intro p ex); lia.
Qed.

End NumberFacts.

(** ** Decimal digits *)

Section DigitFacts.

Local Open Scope Z_scope.

Lemma digit_of_ascii_of_digit (d : Z) :
  0 <= d <= 9 -> digit_of_ascii (ascii_of_digit d) = Some d.
Proof.
  intro H.
  assert (Hd : d = 0 \/ d = 1 \/ d = 2 \/ d = 3 \/ d = 4 \/ d = 5 \/ d = 6 \/
               d = 7 \/ d = 8 \/ d = 9) by lia.
  repeat (destruct Hd as [-> | Hd]; [reflexivity|]). subst. reflexivity.
Qed.

Lemma all_digits_cons (d : Z) (ds : list Z) :
  all_digits (d :: ds) = true <-> 0 <= d <= 9 /\ all_digits ds = true.
Proof.
  unfold all_digits. simpl. rewrite !andb_true_iff, Z.leb_le, Z.leb_le. tauto.
Qed.

Lemma all_digits_app (a b : list Z) :
  all_digits (a ++ b) = all_digits a && all_digits b.
Proof. unfold all_digits. apply forallb_app. Qed.

Lemma string_app_assoc (a b c : string) : ((a ++ b) ++ c = a ++ (b ++ c))%string.
Proof. induction a; simpl; congruence. Qed.

Lemma string_app_empty (a : string) : (a ++ EmptyString = a)%string.
Proof. induction a; simpl; congruence. Qed.

Lemma string_of_digits_app (a b : list Z) :
  string_of_digits (a ++ b) = (string_of_digits a ++ string_of_digits b)%string.
Proof. induction a; simpl; congruence. Qed.

(** Reading back a run of printed digits. *)
Lemma span_digits_app (ds : list Z) (t : string) :
  all_digits ds = true -> non_digit t = true ->
  span_digits (string_of_digits ds ++ t) = (ds, t).
Proof.
  intros Hds Ht. induction ds as [|d ds IH].
  - simpl. destruct t as [|c t]; [reflexivity|].
    simpl in Ht. unfold is_digit in Ht. simpl.
    destruct (digit_of_ascii c); [discriminate | reflexivity].
  - apply all_digits_cons in Hds. destruct Hds as [Hd Hds].
    simpl. rewrite (digit_of_ascii_of_digit d Hd), (IH Hds). reflexivity.
Qed.

Lemma fold_digits_acc (ds : list Z) (acc : Z) :
  fold_left (fun a d => 10 * a + d) ds acc =
  acc * 10 ^ len ds + digits_value ds.
Proof.
  unfold digits_value, len. revert acc.
  induction ds as [|d ds IH]; intro acc.
  - simpl. lia.
  - cbn [fold_left List.length]. rewrite IH, (IH (10 * 0 + d)).
    rewrite Nat2Z.inj_succ, Z.pow_succ_r by lia. lia.
Qed.

Lemma digits_value_app (a b : list Z) :
  digits_value (a ++ b) = digits_value a * 10 ^ len b + digits_value b.
Proof.
  unfold digits_value at 1. rewrite fold_left_app.
  fold (digits_value a). apply fold_digits_acc.
Qed.

Lemma len_app (a b : list Z) : len (a ++ b) = len a + len b.
Proof. unfold len. rewrite length_app. lia. Qed.

Lemma len_nonneg (a : list Z) : 0 <= len a.
Proof. unfold len. lia. Qed.

Lemma writes_single (n : Z) : 0 <= n < 10 -> writes [n] n.
Proof.
  intro H. unfold writes.
  split; [apply all_digits_cons; split; [lia | reflexivity]|].
  unfold len, digits_value. simpl. repeat split; lia.
Qed.

Lemma writes_snoc (ds : list Z) (n : Z) :
  10 <= n -> writes ds (n / 10) -> writes (ds ++ [n mod 10]) n.
Proof.
  intros Hn [Hall [Hval [Hlen [Hup Hlo]]]].
  pose proof (Z.mod_pos_bound n 10 ltac:(lia)) as Hmod.
  pose proof (Z.div_mod n 10 ltac:(lia)) as Hdm.
  assert (Hl : len (ds ++ [n mod 10]) = len ds + 1).
  { rewrite len_app. reflexivity. }
  assert (Hp : 10 ^ (len ds + 1) = 10 * 10 ^ len ds).
  { rewrite Z.pow_add_r by lia. lia. }
  unfold writes. rewrite Hl, Hp.
  split; [|split; [|split; [|split]]].
  - rewrite all_digits_app, Hall. apply all_digits_cons.
    split; [lia | reflexivity].
  - rewrite digits_value_app, Hval. unfold digits_value, len. simpl. lia.
  - lia.
  - lia.
  - right. replace (len ds + 1 - 1) with (len ds) by lia.
    destruct Hlo as [[H0 _] | Hlo]; [lia|].
    replace (len ds) with (len ds - 1 + 1) by lia.
    rewrite Z.pow_add_r by lia. lia.
Qed.

(** What [digits_acc] puts in front of the accumulator. *)
Lemma digits_acc_spec (f : nat) (n : Z) (acc : list Z) :
  0 <= n < 2 ^ Z.of_nat (S f) ->
  exists ds, digits_acc (S f) n acc = ds ++ acc /\ writes ds n.
Proof.
  revert n acc. induction f as [|f IH]; intros n acc Hn.
  - assert (n < 10) by (change (2 ^ Z.of_nat 1) with 2 in Hn; lia).
    exists [n]. cbn [digits_acc].
    replace (n <? 10) with true by (symmetry; apply Z.ltb_lt; lia).
    split; [reflexivity | apply writes_single; lia].
  - change (digits_acc (S (S f)) n acc)
      with (if n <? 10 then n :: acc
            else digits_acc (S f) (n / 10) (n mod 10 :: acc)).
    destruct (Z.ltb_spec n 10) as [Hlt | Hge].
    + exists [n]. split; [reflexivity | apply writes_single; lia].
    + assert (Hq : 0 <= n / 10 < 2 ^ Z.of_nat (S f)).
      { split; [apply Z.div_pos; lia|].
        apply Z.div_lt_upper_bound; [lia|].
        rewrite (Nat2Z.inj_succ (S f)), Z.pow_succ_r in Hn by lia. lia. }
      destruct (IH (n / 10) (n mod 10 :: acc) Hq) as [ds [Heq Hw]].
      exists (ds ++ [n mod 10]). split.
      * rewrite Heq, <- app_assoc. reflexivity.
      * now apply writes_snoc.
Qed.

Lemma digits_of_spec (n : Z) : 0 <= n -> writes (digits_of n) n.
Proof.
  intro Hn. unfold digits_of.
  assert (Hb : 0 <= n < 2 ^ Z.of_nat (S (Z.to_nat (Z.log2 n)))).
  { split; [assumption|].
    rewrite Nat2Z.inj_succ, Z2Nat.id by apply Z.log2_nonneg.
    destruct (Z.eq_dec n 0) as [->|]; [reflexivity|].
    apply Z.log2_spec. lia. }
  destruct (digits_acc_spec _ n [] Hb) as [ds [Heq H]].
  rewrite Heq, app_nil_r. exact H.
Qed.

(** The number of digits of [s] is the [k] with [10^(k-1) <= s < 10^k]. *)
Lemma digits_of_len (s k : Z) :
  10 ^ (k - 1) <= s < 10 ^ k -> 1 <= k -> len (digits_of s) = k.
Proof.
  intros [H1 H2] Hk.
  assert (Hs : 0 < s).
  { eapply Z.lt_le_trans; [|exact H1]. apply Z.pow_pos_nonneg; lia. }
  destruct (digits_of_spec s ltac:(lia)) as [_ [_ [Hl [Hup Hlo]]]].
  destruct Hlo as [[H0 _] | Hlo]; [lia|].
  set (l := len (digits_of s)) in *.
  assert (k - 1 < l).
  { apply (Z.pow_lt_mono_r_iff 10); lia. }
  assert (l - 1 < k).
  { apply (Z.pow_lt_mono_r_iff 10); lia. }
  lia.
Qed.


End DigitFacts.

(** ** Reading numerals *)

Section NumeralFacts.

Local Open Scope Z_scope.
Local Open Scope string_scope.


Lemma is_digit_ascii_of_digit (d : Z) :
  0 <= d <= 9 -> is_digit (ascii_of_digit d) = true.
Proof.
  intro H. unfold is_digit. now rewrite digit_of_ascii_of_digit.
Qed.

(** A digit character is none of the other characters a numeral is made
    of, and is not white space. *)
Lemma digit_char_plain (c : ascii) :
  is_digit c = true ->
  is_space c = false /\
  Ascii.eqb c "+" = false /\ Ascii.eqb c "-" = false /\
  Ascii.eqb c "." = false /\ Ascii.eqb "I" c = false.
Proof.
  destruct c as [[] [] [] [] [] [] [] []]; intro H;
    try discriminate H; repeat split; reflexivity.
Qed.

Lemma non_numeric_non_digit (t : string) :
  non_numeric t = true -> non_digit t = true.
Proof.
  destruct t as [|c t]; [reflexivity|]. simpl.
  destruct (is_digit c); [discriminate | reflexivity].
Qed.

Lemma starts_numeral_plain (c : ascii) :
  starts_numeral c = true ->
  is_space c = false /\
  Ascii.eqb c "+" = false /\ Ascii.eqb c "-" = false /\
  Ascii.eqb "I" c = false.
Proof.
  destruct c as [[] [] [] [] [] [] [] []]; intro H;
    try discriminate H; repeat split; reflexivity.
Qed.

Lemma string_of_digits_head (ds : list Z) (t : string) :
  all_digits ds = true -> nonempty ds = true ->
  exists c s, string_of_digits ds ++ t = String c s /\ is_digit c = true.
Proof.
  intros Hall Hne. destruct ds as [|d ds]; [discriminate|].
  apply all_digits_cons in Hall. destruct Hall as [Hd _].
  exists (ascii_of_digit d), (string_of_digits ds ++ t).
  split; [reflexivity | now apply is_digit_ascii_of_digit].
Qed.

Lemma well_formed_parts (nm : Numeral) :
  well_formed nm = true ->
  all_digits (int_part nm) = true /\
  all_digits (frac_digits nm) = true /\
  nonempty (int_part nm ++ frac_digits nm) = true /\
  match exp_part nm with
  | Some (_, _, ds) => all_digits ds = true /\ nonempty ds = true
  | None => True
  end.
Proof.
  unfold well_formed. rewrite !andb_true_iff.
  intros [[[H1 H2] H3] H4]. repeat split; try assumption.
  destruct (exp_part nm) as [[[u sg] ds]|]; [|exact I].
  now apply andb_true_iff in H4.
Qed.

Lemma unsigned_text_head (nm : Numeral) (t : string) :
  well_formed nm = true ->
  exists c s, unsigned_text nm ++ t = String c s /\ starts_numeral c = true.
Proof.
  intro Hwf. destruct (well_formed_parts nm Hwf) as [Hi [Hf [Hne _]]].
  unfold unsigned_text, frac_text, frac_digits in *.
  destruct (int_part nm) as [|d ds] eqn:Ei.
  - destruct (frac_part nm) as [fp|]; [|discriminate].
    simpl. eexists _, _. split; reflexivity.
  - apply all_digits_cons in Hi. destruct Hi as [Hd _].
    simpl. eexists _, _. split; [reflexivity|].
    unfold starts_numeral. now rewrite is_digit_ascii_of_digit.
Qed.

Lemma scan_exponent_marker (c : ascii) (rest : string) :
  Ascii.eqb c "e" || Ascii.eqb c "E" = true ->
  scan_exponent (String c rest) =
  let (neg, rest') := split_sign rest in
  match span_digits rest' with
  | ([], _) => (0, String c rest)
  | (ds, tl) => (if neg then - digits_value ds else digits_value ds, tl)
  end.
Proof. intro H. unfold scan_exponent. rewrite H. reflexivity. Qed.

Lemma split_sign_text (sg : Sign) (s : string) :
  (forall c s', s = String c s' ->
                Ascii.eqb c "+" = false /\ Ascii.eqb c "-" = false) ->
  split_sign (sign_text sg ++ s) = (is_minus sg, s).
Proof.
  intro Hs. destruct sg; try reflexivity. simpl.
  destruct s as [|c s']; [reflexivity|].
  destruct (Hs c s' eq_refl) as [Hp Hm].
  unfold split_sign.
  destruct c as [[] [] [] [] [] [] [] []]; try reflexivity; discriminate.
Qed.

Lemma exp_text_scan (nm : Numeral) (t : string) :
  well_formed nm = true -> non_numeric t = true ->
  scan_exponent (exp_text nm ++ t) = (exp_value nm, t) /\
  non_digit (exp_text nm ++ t) = true /\
  (forall s, exp_text nm ++ t <> String "." s).
Proof.
  intros Hwf Ht. destruct (well_formed_parts nm Hwf) as [_ [_ [_ He]]].
  unfold exp_text, exp_value.
  destruct (exp_part nm) as [[[upper sg] ds]|].
  - destruct He as [Hall Hne].
    assert (Hsp : span_digits (string_of_digits ds ++ t) = (ds, t)).
    { apply span_digits_app; [assumption | now apply non_numeric_non_digit]. }
    assert (Hsign : split_sign (sign_text sg ++ string_of_digits ds ++ t) =
                    (is_minus sg, string_of_digits ds ++ t)).
    { apply split_sign_text. intros c s' Hc.
      destruct (string_of_digits_head ds t Hall Hne) as [c' [s0 [Heq Hd]]].
      rewrite Heq in Hc. injection Hc as -> ->.
      destruct (digit_char_plain c Hd) as [_ [Hp [Hm _]]]. now split. }
    assert (Hscan : forall c, Ascii.eqb c "e" || Ascii.eqb c "E" = true ->
              scan_exponent
                (String c (sign_text sg ++ string_of_digits ds ++ t)) =
              (if is_minus sg then - digits_value ds else digits_value ds, t)).
    { intros c Hc. rewrite (scan_exponent_marker c _ Hc), Hsign, Hsp.
      destruct ds; [discriminate | reflexivity]. }
    split; [|split].
    + rewrite !string_app_assoc. destruct upper; apply Hscan; reflexivity.
    + destruct upper; reflexivity.
    + destruct upper; intros s; discriminate.
  - simpl. split; [|split].
    + destruct t as [|c t]; [reflexivity|].
      simpl in Ht. unfold scan_exponent.
      destruct (Ascii.eqb c "e") eqn:E1.
      * rewrite !orb_true_r in Ht. discriminate.
      * destruct (Ascii.eqb c "E") eqn:E2; [|reflexivity].
        rewrite !orb_true_r in Ht. discriminate.
    + now apply non_numeric_non_digit.
    + intros s ->. discriminate.
Qed.

Lemma scan_fraction_none (s : string) :
  (forall r, s <> String "." r) -> scan_fraction s = ([], s).
Proof.
  intro H. destruct s as [|c r]; [reflexivity|].
  unfold scan_fraction.
  destruct c as [[] [] [] [] [] [] [] []]; try reflexivity.
  exfalso. apply (H r). reflexivity.
Qed.

Lemma frac_text_scan (nm : Numeral) (t : string) :
  well_formed nm = true -> non_numeric t = true ->
  scan_fraction (frac_text nm ++ exp_text nm ++ t) =
    (frac_digits nm, exp_text nm ++ t) /\
  non_digit (frac_text nm ++ exp_text nm ++ t) = true.
Proof.
  intros Hwf Ht.
  destruct (well_formed_parts nm Hwf) as [_ [Hf _]].
  destruct (exp_text_scan nm t Hwf Ht) as [_ [Hnd Hdot]].
  unfold frac_text, frac_digits in *.
  destruct (frac_part nm) as [fp|].
  - split; [|reflexivity].
    change (("." ++ string_of_digits fp) ++ exp_text nm ++ t)
      with (String "." (string_of_digits fp ++ exp_text nm ++ t)).
    unfold scan_fraction. now apply span_digits_app.
  - split; [|exact Hnd]. now apply scan_fraction_none.
Qed.

Lemma strip_Infinity_none (c : ascii) (s : string) :
  Ascii.eqb "I" c = false -> strip_prefix "Infinity" (String c s) = None.
Proof. intro H. cbn [strip_prefix]. now rewrite H. Qed.

(** Scanning a well-formed unsigned numeral reads all of it and stops at
    the text that follows. *)
Lemma scan_unsigned_numeral (sgn : bool) (nm : Numeral) (t : string) :
  well_formed nm = true -> non_numeric t = true ->
  scan_unsigned sgn (unsigned_text nm ++ t) =
  (decimal_value sgn (int_part nm ++ frac_digits nm)
     (exp_value nm - len (frac_digits nm)), t).
Proof.
  intros Hwf Ht.
  destruct (well_formed_parts nm Hwf) as [Hi [_ [Hne _]]].
  destruct (unsigned_text_head nm t Hwf) as [c [s [Hhead Hc]]].
  destruct (starts_numeral_plain c Hc) as [_ [_ [_ HI]]].
  destruct (frac_text_scan nm t Hwf Ht) as [Hfrac Hnd].
  destruct (exp_text_scan nm t Hwf Ht) as [Hexp _].
  unfold scan_unsigned.
  rewrite Hhead, (strip_Infinity_none c s HI), <- Hhead.
  unfold unsigned_text. rewrite !string_app_assoc.
  rewrite (span_digits_app _ _ Hi Hnd), Hfrac.
  destruct (int_part nm ++ frac_digits nm)%list eqn:E; [discriminate|].
  rewrite Hexp. reflexivity.
Qed.

Lemma trim_start_plain (c : ascii) (s : string) :
  is_space c = false -> trim_start (String c s) = String c s.
Proof. intro H. cbn [trim_start]. now rewrite H. Qed.

(** [parseFloat] reads a numeral and ignores non-numeric text after it. *)
Lemma parseFloat_str_numeral (nm : Numeral) (t : string) :
  well_formed nm = true -> non_numeric t = true ->
  parseFloat_str (numeral_text nm ++ t) = numeral_value nm.
Proof.
  intros Hwf Ht.
  destruct (unsigned_text_head nm t Hwf) as [c [s [Hhead Hc]]].
  destruct (starts_numeral_plain c Hc) as [Hsp [Hp [Hm _]]].
  unfold parseFloat_str, numeral_text, numeral_value.
  rewrite string_app_assoc.
  assert (Htrim : trim_start (sign_text (sign nm) ++ unsigned_text nm ++ t) =
                  sign_text (sign nm) ++ unsigned_text nm ++ t).
  { destruct (sign nm); simpl; try reflexivity.
    rewrite Hhead. now apply trim_start_plain. }
  rewrite Htrim, split_sign_text.
  - now rewrite scan_unsigned_numeral.
  - intros c' s' Heq. rewrite Hhead in Heq. injection Heq as <- <-. now split.
Qed.

(** [parseInt] reads the integer digits and ignores whatever follows
    them. *)
Lemma parseInt_str_digits (sg : Sign) (ds : list Z) (t : string) :
  all_digits ds = true -> nonempty ds = true -> non_digit t = true ->
  parseInt_str (sign_text sg ++ string_of_digits ds ++ t) =
  roundQ (is_minus sg) (inject_Z (digits_value ds)).
Proof.
  intros Hall Hne Ht.
  destruct (string_of_digits_head ds t Hall Hne) as [c [s [Hhead Hc]]].
  destruct (digit_char_plain c Hc) as [Hsp [Hp [Hm _]]].
  unfold parseInt_str.
  assert (Htrim : trim_start (sign_text sg ++ string_of_digits ds ++ t) =
                  sign_text sg ++ string_of_digits ds ++ t).
  { destruct sg; simpl; try reflexivity.
    rewrite Hhead. now apply trim_start_plain. }
  rewrite Htrim, split_sign_text.
  - rewrite (span_digits_app ds t Hall Ht). simpl.
    destruct ds; [discriminate | reflexivity].
  - intros c' s' Heq. rewrite Hhead in Heq. injection Heq as <- <-. now split.
Qed.

End NumeralFacts.

(** ** What [layout] writes *)

Section LayoutFacts.

Local Open Scope Z_scope.

Lemma pow10_pos (z : Z) : (0 < pow10 z)%Q.
Proof. unfold pow10. apply Qpower_0_lt. reflexivity. Qed.

Lemma pow10_add (a b : Z) : (pow10 (a + b) == pow10 a * pow10 b)%Q.
Proof. unfold pow10. apply Qpower_plus. discriminate. Qed.

Lemma pow10_Z (z : Z) : 0 <= z -> (pow10 z == inject_Z (10 ^ z))%Q.
Proof. intro H. unfold pow10. rewrite Zpower_Qpower by assumption. reflexivity. Qed.

Lemma pow10_lt (a b : Z) : a < b -> (pow10 a < pow10 b)%Q.
Proof. intro H. unfold pow10. apply Qpower_lt_compat_l; [assumption | reflexivity]. Qed.

Lemma pow10_le (a b : Z) : a <= b -> (pow10 a <= pow10 b)%Q.
Proof. intro H. unfold pow10. apply Qpower_le_compat_l; [assumption | discriminate]. Qed.

Lemma pow10_lt_inv (a b : Z) : (pow10 a < pow10 b)%Q -> a < b.
Proof.
  intro H. destruct (Z_lt_le_dec a b) as [|Hle]; [assumption|].
  apply pow10_le in Hle. lra.
Qed.

Lemma pow10_0 : (pow10 0 == 1)%Q.
Proof. reflexivity. Qed.

Lemma parseFloat_str_plain (nm : Numeral) :
  well_formed nm = true -> parseFloat_str (numeral_text nm) = numeral_value nm.
Proof.
  intro Hwf. rewrite <- (string_app_empty (numeral_text nm)).
  now apply parseFloat_str_numeral.
Qed.

Lemma zeros_repeat (j : nat) : zeros j = string_of_digits (repeat 0 j).
Proof.
  induction j; [reflexivity|].
  cbn [zeros repeat string_of_digits]. rewrite IHj. reflexivity.
Qed.

Lemma all_digits_repeat (j : nat) : all_digits (repeat 0 j) = true.
Proof.
  induction j; [reflexivity|].
  cbn [repeat]. apply all_digits_cons. split; [lia | assumption].
Qed.

Lemma digits_value_repeat (j : nat) : digits_value (repeat 0 j) = 0.
Proof.
  induction j; [reflexivity|].
  change (repeat 0 (S j)) with ([0] ++ repeat 0 j)%list.
  rewrite digits_value_app, IHj. reflexivity.
Qed.

Lemma len_repeat (j : nat) : len (repeat 0 j) = Z.of_nat j.
Proof. unfold len. now rewrite repeat_length. Qed.

Lemma is_minus_sign_of (sgn : bool) : is_minus (sign_of sgn) = sgn.
Proof. destruct sgn; reflexivity. Qed.

Lemma sign_text_sign_of (sgn : bool) :
  sign_text (sign_of sgn) = (if sgn then "-" else EmptyString)%string.
Proof. destruct sgn; reflexivity. Qed.

Lemma layout_numeral_text (sgn : bool) (ds : list Z) (n : Z) :
  ((if sgn then "-" else EmptyString) ++ layout ds n)%string =
  numeral_text (layout_numeral sgn ds n).
Proof.
  unfold layout, layout_numeral, numeral_text, unsigned_text, frac_text,
    exp_text, exponent_suffix.
  destruct ((-6 <? n) && (n <=? 21)).
  - destruct (len ds <=? n); [|destruct (0 <? n)]; cbn [sign int_part frac_part exp_part];
      rewrite sign_text_sign_of; f_equal;
      rewrite ?string_app_empty, ?string_of_digits_app, ?zeros_repeat;
      reflexivity.
  - destruct ds as [|d [|d' tl]]; cbn [sign int_part frac_part exp_part];
      rewrite sign_text_sign_of; f_equal.
    + destruct (n - 1 <? 0); reflexivity.
    + destruct (n - 1 <? 0); reflexivity.
    + rewrite !string_app_assoc. destruct (n - 1 <? 0); reflexivity.
Qed.

Lemma nonempty_len (ds : list Z) : nonempty ds = true <-> 1 <= len ds.
Proof. unfold len. destruct ds; simpl; split; intro; try lia; congruence. Qed.

Lemma suffix_digits (e : Z) :
  all_digits (digits_of (Z.abs e)) = true /\
  nonempty (digits_of (Z.abs e)) = true /\
  (if is_minus (if e <? 0 then Minus else Plus)
   then - digits_value (digits_of (Z.abs e))
   else digits_value (digits_of (Z.abs e))) = e.
Proof.
  destruct (digits_of_spec (Z.abs e) (Z.abs_nonneg e)) as [Hall [Hval [Hlen _]]].
  split; [assumption|]. split; [now apply nonempty_len|].
  rewrite Hval. destruct (Z.ltb_spec e 0); simpl; lia.
Qed.

Lemma firstn_skipn_digits (j : nat) (ds : list Z) :
  all_digits ds = true ->
  all_digits (firstn j ds) = true /\ all_digits (skipn j ds) = true.
Proof.
  intro H. rewrite <- (firstn_skipn j ds), all_digits_app in H.
  now apply andb_true_iff in H.
Qed.

Lemma layout_numeral_wf (sgn : bool) (ds : list Z) (n : Z) :
  all_digits ds = true -> nonempty ds = true ->
  well_formed (layout_numeral sgn ds n) = true.
Proof.
  intros Hall Hne. apply nonempty_len in Hne.
  destruct (suffix_digits (n - 1)) as [Hsa [Hsn _]].
  unfold layout_numeral, well_formed, frac_digits.
  destruct ((-6 <? n) && (n <=? 21)) eqn:Hrange.
  - destruct (Z.leb_spec (len ds) n); [|destruct (Z.ltb_spec 0 n)];
      cbn [sign int_part frac_part exp_part].
    + rewrite app_nil_r, all_digits_app, Hall, all_digits_repeat.
      destruct ds; [unfold len in Hne; simpl in Hne; lia | reflexivity].
    + destruct (firstn_skipn_digits (Z.to_nat n) ds Hall) as [-> ->].
      rewrite firstn_skipn.
      destruct ds; [unfold len in Hne; simpl in Hne; lia | reflexivity].
    + rewrite all_digits_app, all_digits_repeat, Hall. reflexivity.
  - destruct ds as [|d [|d' tl]]; cbn [sign int_part frac_part exp_part].
    + unfold len in Hne; simpl in Hne; lia.
    + rewrite Hall, Hsa, Hsn. reflexivity.
    + change (d :: d' :: tl) with ([d] ++ d' :: tl)%list in Hall.
      rewrite all_digits_app in Hall. apply andb_true_iff in Hall.
      destruct Hall as [-> ->]. rewrite Hsa, Hsn. reflexivity.
Qed.

Lemma layout_numeral_value (sgn : bool) (ds : list Z) (n : Z) :
  nonempty ds = true ->
  numeral_value (layout_numeral sgn ds n) =
  roundQ sgn (inject_Z (digits_value ds) * pow10 (n - len ds)).
Proof.
  intros Hne. apply nonempty_len in Hne.
  destruct (suffix_digits (n - 1)) as [_ [_ Hsv]].
  unfold layout_numeral, numeral_value, decimal_value, frac_digits, exp_value.
  destruct ((-6 <? n) && (n <=? 21)) eqn:Hrange.
  - destruct (Z.leb_spec (len ds) n); [|destruct (Z.ltb_spec 0 n)];
      cbn [sign int_part frac_part exp_part]; rewrite is_minus_sign_of.
    + apply roundQ_proper.
      rewrite app_nil_r, digits_value_app, digits_value_repeat, len_repeat.
      rewrite Z2Nat.id by lia. rewrite Z.add_0_r.
      change (len []) with 0. rewrite pow10_0.
      rewrite (pow10_Z (n - len ds)) by lia.
      rewrite inject_Z_mult. lra.
    + rewrite firstn_skipn.
      replace (0 - len (skipn (Z.to_nat n) ds)) with (n - len ds);
        [reflexivity|].
      unfold len. rewrite length_skipn. unfold len in *. lia.
    + change ([0] ++ repeat 0 (Z.to_nat (- n)) ++ ds)%list
        with (0 :: repeat 0 (Z.to_nat (- n)) ++ ds)%list.
      assert (Hv : digits_value (0 :: repeat 0 (Z.to_nat (- n)) ++ ds) =
                   digits_value ds).
      { change (0 :: repeat 0 (Z.to_nat (- n)) ++ ds)%list
          with (repeat 0 (S (Z.to_nat (- n))) ++ ds)%list.
        rewrite digits_value_app, digits_value_repeat. lia. }
      rewrite Hv.
      replace (0 - len (repeat 0 (Z.to_nat (- n)) ++ ds)) with (n - len ds);
        [reflexivity|].
      rewrite len_app, len_repeat. lia.
  - destruct ds as [|d [|d' tl]]; cbn [sign int_part frac_part exp_part];
      rewrite is_minus_sign_of.
    + unfold len in Hne; simpl in Hne; lia.
    + rewrite Hsv.
      replace (n - 1 - len []) with (n - len [d]);
        [reflexivity | unfold len; simpl List.length; lia].
    + rewrite Hsv.
      replace (n - 1 - len (d' :: tl)) with (n - len (d :: d' :: tl));
        [reflexivity|].
      unfold len. simpl List.length. lia.
Qed.

(** Reading back what [layout] wrote gives the decimal it was asked to
    write, rounded. *)
Lemma parseFloat_str_layout (sgn : bool) (ds : list Z) (n : Z) :
  all_digits ds = true -> nonempty ds = true ->
  parseFloat_str ((if sgn then "-" else EmptyString) ++ layout ds n) =
  roundQ sgn (inject_Z (digits_value ds) * pow10 (n - len ds)).
Proof.
  intros Hall Hne.
  rewrite layout_numeral_text, parseFloat_str_plain.
  - now apply layout_numeral_value.
  - now apply layout_numeral_wf.
Qed.

End LayoutFacts.

(** ** [toString] and [parseFloat] *)

Section PrintFacts.

Local Open Scope Z_scope.

Lemma same_eq (x y : Number) : same x y = true -> x = y.
Proof.
  destruct x as [a | a | | a m e], y as [b | b | | b m' e']; simpl;
    try discriminate; try reflexivity.
  - intro H. apply Bool.eqb_prop in H. congruence.
  - intro H. apply Bool.eqb_prop in H. congruence.
  - rewrite !andb_true_iff. intros [[H1 H2] H3].
    apply Bool.eqb_prop in H1. apply Pos.eqb_eq in H2. apply Z.eqb_eq in H3.
    congruence.
Qed.

Lemma same_refl (x : Number) : same x x = true.
Proof.
  destruct x as [a | a | | a m e]; simpl; try reflexivity.
  - apply Bool.eqb_reflx.
  - apply Bool.eqb_reflx.
  - now rewrite Bool.eqb_reflx, Pos.eqb_refl, Z.eqb_refl.
Qed.

Lemma accepts_sound (x : Number) (s k n : Z) :
  accepts x s k n = true ->
  10 ^ (k - 1) <= s < 10 ^ k /\
  roundQ false (inject_Z s * pow10 (n - k)) = x.
Proof.
  unfold accepts. rewrite !andb_true_iff, Z.leb_le, Z.ltb_lt.
  intros [[H1 H2] H3]. split; [lia | now apply same_eq].
Qed.

Lemma candidate_sound (x : Number) (X : Q) (nx k s n : Z) :
  candidate x X nx k = Some (s, n) ->
  accepts x s k n = true /\ (n = nx \/ n = nx + 1 /\ s = 10 ^ (k - 1)).
Proof.
  unfold candidate.
  set (lo := Qfloor (X * pow10 (k - nx))).
  destruct (lo + 1 =? 10 ^ k) eqn:Hc.
  - destruct (accepts x lo k nx) eqn:Alo;
      destruct (accepts x (10 ^ (k - 1)) k (nx + 1)) eqn:Ahi;
      destruct (_ ?= _)%Q; try destruct (Z.even lo); simpl;
      intros [= <- <-]; auto.
  - destruct (accepts x lo k nx) eqn:Alo;
      destruct (accepts x (lo + 1) k nx) eqn:Ahi;
      destruct (_ ?= _)%Q; try destruct (Z.even lo); simpl;
      intros [= <- <-]; auto.
Qed.

Lemma search_sound (fuel : nat) (x : Number) (X : Q) (nx k s n : Z) :
  search fuel x X nx k = Some (s, n) ->
  exists k', k <= k' < k + Z.of_nat fuel /\
             candidate x X nx k' = Some (s, n) /\
             forall j, k <= j < k' -> candidate x X nx j = None.
Proof.
  revert k. induction fuel as [|fuel IH]; intros k; [discriminate|].
  cbn [search]. destruct (candidate x X nx k) as [sn|] eqn:Hc.
  - intros [= ->]. exists k. split; [lia|]. split; [assumption|].
    intros j Hj. lia.
  - intro H. destruct (IH (k + 1) H) as [k' [Hk [Hc' Hnone]]].
    exists k'. split; [lia|]. split; [assumption|].
    intros j Hj. destruct (Z.eq_dec j k) as [->|]; [assumption|].
    apply Hnone. lia.
Qed.

Lemma pow10_split (j : Z) :
  0 <= j -> (inject_Z (5 ^ j) * pow10 (- j) == pow2 (- j))%Q.
Proof.
  intro Hj.
  assert (H10 : (pow10 (- j) * pow10 j == 1)%Q).
  { rewrite <- pow10_add. now replace (- j + j) with 0 by lia. }
  assert (H2 : (pow2 (- j) * pow2 j == 1)%Q).
  { rewrite <- pow2_add. now replace (- j + j) with 0 by lia. }
  assert (Hm : (pow10 j == pow2 j * inject_Z (5 ^ j))%Q).
  { rewrite pow10_Z, pow2_Z by assumption. rewrite <- inject_Z_mult.
    now rewrite <- Z.pow_mul_l. }
  pose proof (pow10_pos j) as P10.
  apply (Qmult_inj_r _ _ (pow10 j)); [lra|].
  rewrite <- Qmult_assoc, H10, Qmult_1_r.
  rewrite Hm, Qmult_assoc, H2, Qmult_1_l. reflexivity.
Qed.

Lemma exact_decimal_spec (m : positive) (e : Z) :
  let (s0, e0) := exact_decimal m e in
  1 <= s0 /\ e0 <= 0 /\
  (inject_Z s0 * pow10 e0 == inject_Z (Zpos m) * pow2 e)%Q.
Proof.
  unfold exact_decimal. destruct (Z.leb_spec 0 e) as [He | He].
  - split; [|split; [lia|]].
    + assert (0 < 2 ^ e) by (apply Z.pow_pos_nonneg; lia). nia.
    + rewrite pow10_0, inject_Z_mult, pow2_Z by assumption. lra.
  - split; [|split; [lia|]].
    + assert (0 < 5 ^ (- e)) by (apply Z.pow_pos_nonneg; lia). nia.
    + rewrite inject_Z_mult. rewrite <- Qmult_assoc.
      replace e with (- (- e)) at 2 3 by lia.
      rewrite pow10_split by lia. reflexivity.
Qed.

(** The digits chosen for a Number convert back to it. *)
Lemma shortest_digits_sound (m : positive) (e : Z) :
  bounded prec emax m e = true ->
  let (ds, n) := shortest_digits m e in
  all_digits ds = true /\ nonempty ds = true /\
  roundQ false (inject_Z (digits_value ds) * pow10 (n - len ds)) =
  S754_finite false m e.
Proof.
  intro Hb. unfold shortest_digits.
  pose proof (exact_decimal_spec m e) as Hex.
  destruct (exact_decimal m e) as [s0 e0]. destruct Hex as [Hs0 [He0 Hv0]].
  destruct (search _ _ _ _ 1) as [[s n]|] eqn:Hs.
  - destruct (search_sound _ _ _ _ _ _ _ Hs) as [k [Hk [Hc _]]].
    destruct (candidate_sound _ _ _ _ _ _ Hc) as [Hacc _].
    destruct (accepts_sound _ _ _ _ Hacc) as [Hsk Hr].
    assert (Hpos : 0 < 10 ^ (k - 1)) by (apply Z.pow_pos_nonneg; lia).
    destruct (digits_of_spec s ltac:(lia)) as [Hall [Hval [Hlen _]]].
    rewrite Hval, (digits_of_len s k Hsk ltac:(lia)).
    split; [assumption|]. split; [now apply nonempty_len | assumption].
  - destruct (digits_of_spec s0 ltac:(lia)) as [Hall [Hval [Hlen _]]].
    rewrite Hval.
    split; [assumption|]. split; [now apply nonempty_len|].
    replace (len (digits_of s0) + e0 - len (digits_of s0)) with e0 by lia.
    rewrite (roundQ_proper false _ _ Hv0). now apply roundQ_exact.
Qed.

(** The sign given to [roundQ] does not influence the magnitude. *)
Lemma roundQ_sign (s : bool) (X : Q) (m : positive) (e : Z) :
  roundQ false X = S754_finite false m e -> roundQ s X = S754_finite s m e.
Proof.
  unfold roundQ. destruct (Qle_bool X 0); [discriminate|]. cbv zeta.
  destruct (match _ with Lt => _ | Eq => _ | Gt => _ end); try discriminate.
  destruct (Z.eqb _ _); destruct (Z.leb _ _); try discriminate;
    intros [= <- <-]; reflexivity.
Qed.

(** [parseFloat] undoes [toString], up to the sign of zero. *)
Lemma parseFloat_NumberToString (x : Number) :
  valid x = true -> parseFloat_str (NumberToString x) = unsigned_zero x.
Proof.
  intro Hv. destruct x as [s | s | | s m e].
  - reflexivity.
  - destruct s; reflexivity.
  - reflexivity.
  - unfold NumberToString.
    pose proof (shortest_digits_sound m e Hv) as Hs.
    destruct (shortest_digits m e) as [ds n].
    destruct Hs as [Hall [Hne Hr]].
    rewrite parseFloat_str_layout by assumption.
    now apply roundQ_sign.
Qed.

End PrintFacts.

(** ** [toString] on whole Numbers *)

Section WholeFacts.

Local Open Scope Z_scope.

Lemma pow10_succ (z : Z) : (pow10 (z + 1) == 10 * pow10 z)%Q.
Proof.
  rewrite pow10_add. assert (H : (pow10 1 == 10)%Q) by reflexivity.
  rewrite H. lra.
Qed.

(** The bounds that the number of digits puts on a positive integer. *)
Lemma digits_of_bounds (p : Z) :
  0 < p ->
  (pow10 (len (digits_of p) - 1) <= inject_Z p)%Q /\
  (inject_Z p < 10 * pow10 (len (digits_of p) - 1))%Q.
Proof.
  intro Hp. destruct (digits_of_spec p ltac:(lia)) as [_ [_ [Hl [Hup Hlo]]]].
  destruct Hlo as [[H0 _] | Hlo]; [lia|].
  set (l := len (digits_of p)) in *.
  split.
  - rewrite pow10_Z by lia. now rewrite <- Zle_Qle.
  - rewrite <- pow10_succ. replace (l - 1 + 1) with l by lia.
    rewrite pow10_Z by lia. now rewrite <- Zlt_Qlt.
Qed.

Lemma decimal_exponent_spec (X : Q) :
  (0 < X)%Q ->
  (pow10 (decimal_exponent X - 1) <= X /\ X < pow10 (decimal_exponent X))%Q.
Proof.
  intro HX. unfold decimal_exponent.
  destruct X as [n d]. cbn [Qnum Qden].
  assert (Hn : 0 < n) by (unfold Qlt in HX; simpl in HX; lia).
  destruct (digits_of_bounds n Hn) as [Qn1 Qn2].
  destruct (digits_of_bounds (Zpos d) eq_refl) as [Qd1 Qd2].
  set (ln := len (digits_of n) - 1) in *.
  set (ld := len (digits_of (Zpos d)) - 1) in *.
  replace (len (digits_of n) - len (digits_of (Zpos d))) with (ln - ld)
    by (unfold ln, ld; lia).
  assert (HP : (pow10 ln == pow10 (ln - ld) * pow10 ld)%Q).
  { rewrite <- pow10_add. now replace (ln - ld + ld) with ln by lia. }
  pose proof (Qmake_mul_den n d) as HXd.
  pose proof (pow10_pos (ln - ld)) as HP0.
  pose proof (pow10_pos ld) as HB0.
  assert (Hd0 : (0 < inject_Z (Zpos d))%Q) by (now rewrite Zlt_Qlt in *; reflexivity).
  destruct (Qle_bool (pow10 (ln - ld)) (n # d)) eqn:Hle.
  - apply Qle_bool_iff in Hle.
    replace (ln - ld + 1 - 1) with (ln - ld) by lia.
    split; [assumption|].
    rewrite pow10_succ.
    generalize dependent (n # d). generalize dependent (pow10 (ln - ld)).
    generalize dependent (pow10 ln). generalize dependent (pow10 ld).
    generalize dependent (inject_Z n). generalize dependent (inject_Z (Z.pos d)).
    intros. nra.
  - apply Qle_bool_false_inv in Hle.
    split; [|assumption].
    assert (H2 : (pow10 (ln - ld) == 10 * pow10 (ln - ld - 1))%Q).
    { rewrite <- pow10_succ. now replace (ln - ld - 1 + 1) with (ln - ld) by lia. }
    generalize dependent (n # d). generalize dependent (pow10 (ln - ld - 1)).
    generalize dependent (pow10 (ln - ld)).
    generalize dependent (pow10 ln). generalize dependent (pow10 ld).
    generalize dependent (inject_Z n). generalize dependent (inject_Z (Z.pos d)).
    intros. nra.
Qed.

Lemma search_none (fuel : nat) (x : Number) (X : Q) (nx k : Z) :
  search fuel x X nx k = None ->
  forall j, k <= j < k + Z.of_nat fuel -> candidate x X nx j = None.
Proof.
  revert k. induction fuel as [|fuel IH]; intros k H j Hj; [lia|].
  cbn [search] in H. destruct (candidate x X nx k) as [sn|] eqn:Hc; [discriminate|].
  destruct (Z.eq_dec j k) as [->|]; [assumption|].
  apply (IH (k + 1) H). lia.
Qed.

(** The candidate with as many digits as a whole number has is the number
    itself, and it is accepted. *)
Lemma candidate_whole (x : Number) (X : Q) (nx N : Z) :
  (X == inject_Z N)%Q ->
  (pow10 (nx - 1) <= X)%Q -> (X < pow10 nx)%Q -> 1 <= nx ->
  roundQ false X = x ->
  candidate x X nx nx = Some (N, nx).
Proof.
  intros HN H1 H2 Hnx Hr. unfold candidate.
  replace (nx - nx) with 0 by lia.
  assert (Hy : (X * pow10 0 == inject_Z N)%Q) by (rewrite pow10_0; lra).
  assert (Hf : Qfloor (X * pow10 0) = N) by (rewrite Hy; apply Qfloor_Z).
  rewrite Hf.
  assert (Hcmp : (X * pow10 0 - inject_Z N ?= inject_Z (N + 1) - X * pow10 0)%Q = Lt).
  { rewrite <- Qlt_alt. rewrite Hy, inject_Z_plus.
    change (inject_Z 1) with 1%Q. lra. }
  rewrite Hcmp.
  assert (Hacc : accepts x N nx nx = true).
  { unfold accepts. rewrite !andb_true_iff, Z.leb_le, Z.ltb_lt.
    rewrite pow10_Z in H1, H2 by lia. rewrite HN in H1, H2.
    rewrite <- Zle_Qle in H1. rewrite <- Zlt_Qlt in H2.
    repeat split; try assumption.
    replace (nx - nx) with 0 by lia.
    rewrite (roundQ_proper false _ X) by (rewrite pow10_0; lra).
    rewrite Hr. apply same_refl. }
  rewrite Hacc.
  destruct (N + 1 =? 10 ^ nx); reflexivity.
Qed.

Lemma shortest_digits_whole (m : positive) (e N : Z) :
  bounded prec emax m e = true ->
  (inject_Z (Zpos m) * pow2 e == inject_Z N)%Q ->
  N < 10 ^ 21 ->
  let (ds, n) := shortest_digits m e in len ds <= n <= 21 /\ 1 <= len ds.
Proof.
  intros Hb HN H21. unfold shortest_digits. cbn [magnitude].
  set (X := (inject_Z (Zpos m) * pow2 e)%Q) in *.
  assert (HX : (0 < X)%Q).
  { unfold X. apply Qmult_lt_0_compat; [reflexivity | apply pow2_pos]. }
  assert (HN1 : 1 <= N).
  { rewrite HN in HX. change 0%Q with (inject_Z 0) in HX.
    rewrite <- Zlt_Qlt in HX. lia. }
  destruct (decimal_exponent_spec X HX) as [Hn1 Hn2].
  set (nx := decimal_exponent X) in *.
  assert (Hnx1 : 1 <= nx).
  { assert (0 < nx); [|lia]. apply pow10_lt_inv. rewrite pow10_0.
    eapply Qle_lt_trans; [|exact Hn2]. rewrite HN.
    change 1%Q with (inject_Z 1). now rewrite <- Zle_Qle. }
  assert (Hnx21 : nx <= 21).
  { assert (nx - 1 < 21); [|lia]. apply pow10_lt_inv.
    eapply Qle_lt_trans; [exact Hn1|]. rewrite HN, pow10_Z by lia.
    now rewrite <- Zlt_Qlt. }
  assert (Hcand : candidate (S754_finite false m e) X nx nx = Some (N, nx)).
  { apply candidate_whole; try assumption. now apply roundQ_exact. }
  pose proof (exact_decimal_spec m e) as Hex.
  destruct (exact_decimal m e) as [s0 e0]. destruct Hex as [Hs0 [He0 Hv0]].
  fold X in Hv0.
  destruct (digits_of_spec s0 ltac:(lia)) as [_ [_ [Hl0 [Hup0 _]]]].
  set (k0 := len (digits_of s0)) in *.
  assert (Hk0 : nx <= k0).
  { assert (nx - 1 < k0); [|lia]. apply pow10_lt_inv.
    eapply Qle_lt_trans; [exact Hn1|]. rewrite <- Hv0.
    rewrite (pow10_Z k0) by lia.
    apply Qle_lt_trans with (inject_Z s0).
    - assert (Hp : (pow10 e0 <= pow10 0)%Q) by (apply pow10_le; lia).
      rewrite pow10_0 in Hp.
      assert (Hs : (0 <= inject_Z s0)%Q).
      { change 0%Q with (inject_Z 0). rewrite <- Zle_Qle. lia. }
      pose proof (pow10_pos e0). nra.
    - now rewrite <- Zlt_Qlt. }
  destruct (search (Z.to_nat k0) _ X nx 1) as [[s n]|] eqn:Hs.
  - destruct (search_sound _ _ _ _ _ _ _ Hs) as [k [Hk [Hc Hmin]]].
    assert (Hknx : k <= nx).
    { destruct (Z_le_gt_dec k nx) as [|Hgt]; [assumption|].
      rewrite (Hmin nx) in Hcand by lia. discriminate. }
    destruct (candidate_sound _ _ _ _ _ _ Hc) as [Hacc Hn].
    destruct (accepts_sound _ _ _ _ Hacc) as [Hsk Hr].
    rewrite (digits_of_len s k Hsk ltac:(lia)).
    split; [|lia]. split; [lia|].
    destruct Hn as [-> | [-> Hs10]]; [lia|].
    destruct (Z.eq_dec nx 21) as [E21 | ]; [exfalso | lia].
    subst s. rewrite E21 in Hr.
    assert (Hq : (inject_Z (10 ^ (k - 1)) * pow10 (21 + 1 - k) ==
                  inject_Z (10 ^ 21))%Q).
    { rewrite (pow10_Z (21 + 1 - k)) by lia. rewrite <- inject_Z_mult.
      rewrite <- Z.pow_add_r by lia. now replace (k - 1 + (21 + 1 - k)) with 21 by lia. }
    rewrite (roundQ_proper false _ _ Hq) in Hr.
    change (roundQ false (inject_Z (10 ^ 21))) with one_e21 in Hr.
    injection Hr as <- <-.
    unfold X in HN. rewrite Zlt_Qlt in H21. rewrite <- HN in H21.
    revert H21. vm_compute. discriminate.
  - exfalso. rewrite (search_none _ _ _ _ _ Hs nx) in Hcand by lia.
    discriminate.
Qed.

End WholeFacts.

(** ** [toString] and [parseInt] *)

Section ReadBackFacts.

Local Open Scope Z_scope.

Lemma roundQ_whole (s : bool) (V : Z) : whole (roundQ s (inject_Z V)).
Proof.
  unfold roundQ. destruct (Qle_bool (inject_Z V) 0) eqn:Hle; [exact I|].
  apply Qle_bool_false_inv in Hle.
  assert (HV : 1 <= V).
  { change 0%Q with (inject_Z 0) in Hle. rewrite <- Zlt_Qlt in Hle. lia. }
  destruct (ilog2_spec _ Hle) as [_ H2].
  destruct (scaled_bounds _ Hle) as [Hhi _]. cbv zeta in *.
  set (E := ilog2 (inject_Z V)) in *.
  assert (HE : 0 <= E).
  { assert (0 < E + 1); [|lia]. apply pow2_lt_inv.
    eapply Qle_lt_trans; [|exact H2].
    change (pow2 0) with (inject_Z 1). now rewrite <- Zle_Qle. }
  replace (Z.max (E - 52) (-1074)) with (E - 52) in * by lia.
  set (ex := E - 52) in *.
  set (y := (inject_Z V / pow2 ex)%Q) in *.
  destruct (Z_le_gt_dec 0 ex) as [Hex | Hex].
  - (* the result is a mantissa times a non-negative power of two *)
    assert (Hw : forall p e', 0 <= e' ->
               exists N, (inject_Z (Zpos p) * pow2 e' == inject_Z N)%Q).
    { intros p e' He'. exists (Zpos p * 2 ^ e').
      rewrite inject_Z_mult, pow2_Z by assumption. reflexivity. }
    destruct (match (y - inject_Z (Qfloor y) ?= 1 # 2)%Q with
              | Lt => _ | Eq => _ | Gt => _ end); try exact I.
    destruct (Z.eqb _ _).
    + destruct (Z.leb _ _); [|exact I]. apply Hw. lia.
    + destruct (Z.leb _ _); [|exact I]. apply Hw. lia.
  - (* the scaled value is itself whole, so nothing is rounded away *)
    assert (Hy : (y == inject_Z (V * 2 ^ (- ex)))%Q).
    { unfold y, Qdiv. rewrite inject_Z_mult, <- pow2_Z by lia.
      unfold pow2. rewrite Qpower_opp. reflexivity. }
    assert (Hf : Qfloor y = V * 2 ^ (- ex)) by (rewrite Hy; apply Qfloor_Z).
    rewrite Hf.
    assert (Hcmp : (y - inject_Z (V * 2 ^ (- ex)) ?= 1 # 2)%Q = Lt).
    { rewrite <- Qlt_alt. rewrite Hy. lra. }
    rewrite Hcmp.
    destruct (V * 2 ^ (- ex)) as [|p|p] eqn:Ep; try exact I.
    assert (Hne : Zpos p <> 2 ^ 53).
    { rewrite Hy, <- Zlt_Qlt in Hhi. lia. }
    replace (Z.eqb (Zpos p) (2 ^ 53)) with false by (symmetry; now apply Z.eqb_neq).
    destruct (Z.leb ex 971); [|exact I].
    exists V. rewrite <- Ep, inject_Z_mult, <- pow2_Z by lia.
    rewrite <- Qmult_assoc, <- pow2_add.
    replace (- ex + ex) with 0 by lia. change (pow2 0) with 1%Q. lra.
Qed.

Lemma parseInt_str_shape (s : string) :
  valid (parseInt_str s) = true /\ whole (parseInt_str s).
Proof.
  unfold parseInt_str. destruct (split_sign (trim_start s)) as [sgn r].
  destruct (fst (span_digits r)) as [|d ds]; [split; [reflexivity | exact I]|].
  split; [apply roundQ_valid | apply roundQ_whole].
Qed.

Lemma parseFloat_str_valid (s : string) : valid (parseFloat_str s) = true.
Proof.
  unfold parseFloat_str. destruct (split_sign (trim_start s)) as [sgn r].
  unfold scan_unsigned. destruct (strip_prefix _ r); [reflexivity|].
  destruct (span_digits r) as [ip r1]. destruct (scan_fraction r1) as [fp r2].
  destruct (ip ++ fp)%list; [reflexivity|].
  destruct (scan_exponent r2) as [e r3]. apply roundQ_valid.
Qed.

(** [parseInt] undoes [toString] on whole Numbers below [10^21], up to
    the sign of zero. *)
Lemma parseInt_NumberToString (x : Number) :
  valid x = true -> whole x -> below x (10 ^ 21) = true ->
  parseInt_str (NumberToString x) = unsigned_zero x.
Proof.
  intros Hv Hw Hb. destruct x as [s | s | | s m e]; try reflexivity.
  - discriminate.
  - destruct Hw as [N HN]. cbn [below] in Hb.
    apply negb_true_iff, Qle_bool_false_inv in Hb.
    rewrite HN, <- Zlt_Qlt in Hb.
    pose proof (shortest_digits_sound m e Hv) as Hs.
    pose proof (shortest_digits_whole m e N Hv HN Hb) as Hl.
    unfold NumberToString. destruct (shortest_digits m e) as [ds n].
    destruct Hs as [Hall [Hne Hr]]. destruct Hl as [[Hl1 Hl2] Hl3].
    unfold layout.
    replace ((-6 <? n) && (n <=? 21)) with true
      by (symmetry; apply andb_true_iff; split; [apply Z.ltb_lt | apply Z.leb_le]; lia).
    replace (len ds <=? n) with true by (symmetry; apply Z.leb_le; lia).
    rewrite zeros_repeat, <- string_of_digits_app.
    rewrite <- (string_app_empty (string_of_digits _)).
    rewrite <- sign_text_sign_of.
    rewrite parseInt_str_digits.
    + rewrite is_minus_sign_of. cbn [unsigned_zero].
      apply roundQ_sign. rewrite <- Hr. apply roundQ_proper.
      rewrite digits_value_app, digits_value_repeat, len_repeat.
      rewrite Z2Nat.id by lia. rewrite Z.add_0_r, inject_Z_mult.
      rewrite (pow10_Z (n - len ds)) by lia. reflexivity.
    + rewrite all_digits_app, Hall, all_digits_repeat. reflexivity.
    + destruct ds; [discriminate | reflexivity].
    + reflexivity.
Qed.

(** The relational operators do not see the sign of a zero. *)
Lemma SFcompare_unsigned_zero_l (x y : Number) :
  SFcompare (unsigned_zero x) y = SFcompare x y.
Proof. destruct x as [[] | | | ]; reflexivity. Qed.

Lemma SFcompare_unsigned_zero_r (x y : Number) :
  SFcompare y (unsigned_zero x) = SFcompare y x.
Proof. destruct x as [[] | | | ], y as [[] | [] | | [] ? ?]; reflexivity. Qed.

Lemma lt_unsigned_zero (x y : Number) : lt (unsigned_zero x) y = lt x y.
Proof. unfold lt, SFltb. now rewrite SFcompare_unsigned_zero_l. Qed.

Lemma gt_unsigned_zero (x y : Number) : gt (unsigned_zero x) y = gt x y.
Proof. unfold gt, SFltb. now rewrite SFcompare_unsigned_zero_r. Qed.

Lemma isNaN_unsigned_zero (x : Number) : isNaN (unsigned_zero x) = isNaN x.
Proof. destruct x; reflexivity. Qed.

End ReadBackFacts.

(** ** The field validators against their reference definitions *)

Section FieldValidators.

Local Open Scope string_scope.

Lemma zero_literal : of_Z 0 = zero.
Proof. reflexivity. Qed.

Lemma billion_literal : ceiling = billion.
Proof. vm_compute. reflexivity. Qed.

Lemma is_blank_empty (i : NumericInput) : is_blank (to_js i) = is_empty i.
Proof. destruct i as [s | x | | ]; try reflexivity. destruct s; reflexivity. Qed.

Lemma ToString_text (i : NumericInput) : ToString (to_js i) = Normal (text i).
Proof. destruct i; reflexivity. Qed.

Lemma parseFloat_text (i : NumericInput) :
  parseFloat (to_js i) = Normal (parseFloat_str (text i)).
Proof. unfold parseFloat. rewrite ToString_text. reflexivity. Qed.

Lemma parseInt_text (i : NumericInput) :
  parseInt (to_js i) = Normal (parseInt_str (text i)).
Proof. unfold parseInt. rewrite ToString_text. reflexivity. Qed.

Lemma validateCurrency_raw (i : NumericInput) (f : string) :
  validateCurrency (to_js i) (Some f) = Normal (CurrencyValidator i f).
Proof.
  unfold validateCurrency, CurrencyValidator, currency_outcome, numeric_parse.
  rewrite is_blank_empty, parseFloat_text, billion_literal, zero_literal.
  cbn [or_default].
  destruct (is_empty i); [reflexivity|].
  generalize (parseFloat_str (text i)); intro p.
  destruct (isNaN p); [reflexivity|].
  destruct (lt p zero); [reflexivity|].
  destruct (gt p billion); reflexivity.
Qed.

Lemma validatePositiveInteger_raw (tl : Number -> string) (i : NumericInput)
  (f : string) (o : ValidationOptions.t) :
  validatePositiveInteger tl (to_js i) (Some f) (Some o) =
  Normal (PositiveIntegerValidator tl i f
            (or_default zero (ValidationOptions.min o))
            (or_default Infinity (ValidationOptions.max o))
            (or_default true (ValidationOptions.allowEmpty o))).
Proof.
  unfold validatePositiveInteger, PositiveIntegerValidator, integer_outcome,
    integer_parse.
  rewrite is_blank_empty, parseInt_text.
  cbn [or_default].
  destruct (is_empty i).
  - destruct (or_default true (ValidationOptions.allowEmpty o)); reflexivity.
  - generalize (parseInt_str (text i)); intro p.
    destruct (isNaN p); [reflexivity|].
    destruct (lt p _); [reflexivity|].
    destruct (gt p _); reflexivity.
Qed.

End FieldValidators.

(** ** The shape of the results *)

Section ResultInvariant.

Local Open Scope string_scope.

(** A message built by appending a non-empty suffix is non-empty. *)
Lemma append_nonempty (a b : string) : b <> EmptyString -> a ++ b <> EmptyString.
Proof. destruct a; simpl; [tauto | discriminate]. Qed.

Lemma currency_invariant_valid (x : Number) :
  currency_invariant (CurrencyResult.mk true x None).
Proof. split; [reflexivity | discriminate]. Qed.

Lemma currency_invariant_invalid (a b : string) :
  b <> EmptyString -> currency_invariant (CurrencyResult.mk false zero (Some (a ++ b))).
Proof.
  intro Hb. split; [discriminate|]. intros _. split; [reflexivity|].
  exists (a ++ b). split; [reflexivity | now apply append_nonempty].
Qed.

Lemma integer_invariant_valid (x : option Number) :
  integer_invariant (IntegerResult.mk true x None).
Proof. split; [reflexivity | discriminate]. Qed.

Lemma integer_invariant_invalid (a b : string) :
  b <> EmptyString -> integer_invariant (IntegerResult.mk false None (Some (a ++ b))).
Proof.
  intro Hb. split; [discriminate|]. intros _. split; [reflexivity|].
  exists (a ++ b). split; [reflexivity | now apply append_nonempty].
Qed.

Lemma validateCurrency_invariant (v : JsValue) (f : option string)
  (r : CurrencyResult.t) :
  validateCurrency v f = Normal r -> currency_invariant r.
Proof.
  unfold validateCurrency.
  destruct (is_blank v).
  { intros [= <-]. apply currency_invariant_valid. }
  destruct (parseFloat v) as [p | e]; [|discriminate].
  destruct (isNaN p).
  { intros [= <-]. now apply currency_invariant_invalid. }
  destruct (lt p zero).
  { intros [= <-]. now apply currency_invariant_invalid. }
  destruct (gt p billion); intros [= <-].
  - now apply currency_invariant_invalid.
  - apply currency_invariant_valid.
Qed.

Lemma validatePositiveInteger_invariant (tl : Number -> string) (v : JsValue)
  (f : option string) (o : option ValidationOptions.t) (r : IntegerResult.t) :
  validatePositiveInteger tl v f o = Normal r -> integer_invariant r.
Proof.
  unfold validatePositiveInteger.
  destruct (is_blank v).
  { destruct (or_default true _); intros [= <-].
    - apply integer_invariant_valid.
    - now apply integer_invariant_invalid. }
  destruct (parseInt v) as [p | e]; [|discriminate].
  destruct (isNaN p).
  { intros [= <-]. now apply integer_invariant_invalid. }
  destruct (lt p _).
  { intros [= <-]. apply integer_invariant_invalid. simpl. discriminate. }
  destruct (gt p _); intros [= <-].
  - apply integer_invariant_invalid. simpl. discriminate.
  - apply integer_invariant_valid.
Qed.

End ResultInvariant.

(** C5.  Every result of [validateCurrency] and of
    [validatePositiveInteger], whatever the input, label and options: a
    valid result has error null; an invalid result has the rule's default
    value (0 for currency, null for integers) and a non-empty message. *)
Theorem validation_result_invariant :
  forall (toLocaleString : Number -> string) (v : JsValue) (f : option string)
         (o : option ValidationOptions.t),
    (forall r, validateCurrency v f = Normal r -> currency_invariant r) /\
    (forall r, validatePositiveInteger toLocaleString v f o = Normal r ->
               integer_invariant r).
Proof.
  intros tl v f o. split; intros r H.
  - now apply validateCurrency_invariant with (v := v) (f := f).
  - now apply validatePositiveInteger_invariant with (1 := H).
Qed.

Lemma validation_result_invariant_witness :
  currency_invariant
    (CurrencyResult.mk false (of_Z 0) (Some "Price must be a valid number"%string)) /\
  integer_invariant
    (IntegerResult.mk false None (Some "Year must be at most 2,028"%string)).
Proof.
  split.
  - apply (proj1 (validation_result_invariant toLocaleString_enUS
                    (VString "abc") (Some "Price"%string) None)).
    vm_compute. reflexivity.
  - apply (proj2 (validation_result_invariant toLocaleString_enUS
                    (VString "2050") (Some "Year"%string)
                    (Some (ValidationOptions.mk (Some (of_Z 1900))
                                                (Some (of_Z 2028)) None)))).
    vm_compute. reflexivity.
Defined.

(** ** The composite validators *)

Section Composites.

Local Open Scope string_scope.

Variable T : Type.

(** Unfolding of [validatePartCosts] along the results of the three
    field validations. *)
Lemma validatePartCosts_price_throws (costs : Costs.t) (toast : option (Toast T))
  (st : T) (e : JsError) :
  validate_field costs Price = Throw e ->
  validatePartCosts costs toast st = (Throw e, st).
Proof.
  unfold validate_field, validatePartCosts, bind, lift. simpl.
  intros ->. reflexivity.
Qed.

Lemma validatePartCosts_price_invalid (costs : Costs.t) (toast : option (Toast T))
  (st : T) (r : CurrencyResult.t) :
  validate_field costs Price = Normal r ->
  CurrencyResult.isValid r = false ->
  validatePartCosts costs toast st =
  (Normal failure,
   match toast with
   | Some t => warning t (CurrencyResult.error r) st
   | None => st
   end).
Proof.
  unfold validate_field, validatePartCosts, bind, lift, warn, ret. simpl.
  intros -> ->. simpl. destruct toast; reflexivity.
Qed.

Lemma validatePartCosts_shipping_invalid (costs : Costs.t)
  (toast : option (Toast T)) (st : T) (rp r : CurrencyResult.t) :
  validate_field costs Price = Normal rp ->
  CurrencyResult.isValid rp = true ->
  validate_field costs Shipping = Normal r ->
  CurrencyResult.isValid r = false ->
  validatePartCosts costs toast st =
  (Normal failure,
   match toast with
   | Some t => warning t (CurrencyResult.error r) st
   | None => st
   end).
Proof.
  unfold validate_field, validatePartCosts, bind, lift, warn, ret. simpl.
  intros -> -> -> ->. simpl. destruct toast; reflexivity.
Qed.

Lemma validatePartCosts_duties_invalid (costs : Costs.t)
  (toast : option (Toast T)) (st : T) (rp rs r : CurrencyResult.t) :
  validate_field costs Price = Normal rp ->
  CurrencyResult.isValid rp = true ->
  validate_field costs Shipping = Normal rs ->
  CurrencyResult.isValid rs = true ->
  validate_field costs Duties = Normal r ->
  CurrencyResult.isValid r = false ->
  validatePartCosts costs toast st =
  (Normal failure,
   match toast with
   | Some t => warning t (CurrencyResult.error r) st
   | None => st
   end).
Proof.
  unfold validate_field, validatePartCosts, bind, lift, warn, ret. simpl.
  intros -> -> -> -> -> ->. simpl. destruct toast; reflexivity.
Qed.

Lemma validatePartCosts_valid (costs : Costs.t) (toast : option (Toast T))
  (st : T) (rp rs rd : CurrencyResult.t) :
  validate_field costs Price = Normal rp ->
  CurrencyResult.isValid rp = true ->
  validate_field costs Shipping = Normal rs ->
  CurrencyResult.isValid rs = true ->
  validate_field costs Duties = Normal rd ->
  CurrencyResult.isValid rd = true ->
  validatePartCosts costs toast st =
  (Normal
     (PartCostsResult.mk true
        (Some (CostBundle.mk
                 (CurrencyResult.value rp) (CurrencyResult.value rs)
                 (CurrencyResult.value rd)
                 (add (add (CurrencyResult.value rp) (CurrencyResult.value rs))
                      (CurrencyResult.value rd))))),
   st).
Proof.
  unfold validate_field, validatePartCosts, bind, lift, warn, ret. simpl.
  intros -> -> -> -> -> ->. reflexivity.
Qed.

(** The first invalid field decides the call: the outcome is the same
    for a bundle that agrees on the fields up to that one. *)
Lemma validatePartCosts_first_invalid (costs : Costs.t)
  (toast : option (Toast T)) (st : T) (f : CostField) (r : CurrencyResult.t) :
  Forall (fun g => exists rg, validate_field costs g = Normal rg /\
                              CurrencyResult.isValid rg = true) (earlier f) ->
  validate_field costs f = Normal r ->
  CurrencyResult.isValid r = false ->
  validatePartCosts costs toast st =
  (Normal failure,
   match toast with
   | Some t => warning t (CurrencyResult.error r) st
   | None => st
   end).
Proof.
  intros Hearlier Hf Hr. destruct f; simpl in Hearlier.
  - now apply validatePartCosts_price_invalid.
  - inversion Hearlier as [|g l [rp [Hp Hpv]] _]; subst.
    now apply validatePartCosts_shipping_invalid with (rp := rp).
  - inversion Hearlier as [|g l [rp [Hp Hpv]] Hl]; subst.
    inversion Hl as [|g l [rs [Hs Hsv]] _]; subst.
    now apply validatePartCosts_duties_invalid with (rp := rp) (rs := rs).
Qed.

Lemma validate_field_agree (costs costs' : Costs.t) (g : CostField) :
  field_value costs' g = field_value costs g ->
  validate_field costs' g = validate_field costs g.
Proof. unfold validate_field. now intros ->. Qed.

Lemma validateBudget_unfold (budget : JsValue) (toast : option (Toast T))
  (st : T) (r : CurrencyResult.t) :
  validateCurrency budget (Some "Budget") = Normal r ->
  validateBudget budget toast st =
  if CurrencyResult.isValid r then
    (Normal (BudgetResult.mk true (CurrencyResult.value r)), st)
  else
    (Normal (BudgetResult.mk false (of_Z 0)),
     match toast with
     | Some t => warning t (CurrencyResult.error r) st
     | None => st
     end).
Proof.
  unfold validateBudget, bind, lift, warn, ret. intros ->.
  destruct (CurrencyResult.isValid r); simpl; [reflexivity|].
  destruct toast; reflexivity.
Qed.

Lemma validateCurrency_total (i : NumericInput) (f : option string) :
  exists r, validateCurrency (to_js i) f = Normal r.
Proof. destruct f as [f|]; eexists; apply validateCurrency_raw. Qed.

(** On raw inputs the composite validators return a record that does
    not depend on the sink; without a sink the state is untouched. *)
Lemma validatePartCosts_raw (p s d : NumericInput) (st : T) :
  exists (r : PartCostsResult.t) (k : option (Toast T) -> T),
    k None = st /\
    forall toast, validatePartCosts (raw_costs p s d) toast st = (Normal r, k toast).
Proof.
  destruct (validateCurrency_total p (Some "Price")) as [rp Hp].
  destruct (validateCurrency_total s (Some "Shipping")) as [rs Hs].
  destruct (validateCurrency_total d (Some "Duties")) as [rd Hd].
  destruct (CurrencyResult.isValid rp) eqn:Vp.
  2:{ eexists _, (fun toast => match toast with Some t => _ | None => st end).
      split; [reflexivity|]. intro toast.
      apply (validatePartCosts_price_invalid (raw_costs p s d) toast st rp Hp Vp). }
  destruct (CurrencyResult.isValid rs) eqn:Vs.
  2:{ eexists _, (fun toast => match toast with Some t => _ | None => st end).
      split; [reflexivity|]. intro toast.
      apply (validatePartCosts_shipping_invalid (raw_costs p s d) toast st
               rp rs Hp Vp Hs Vs). }
  destruct (CurrencyResult.isValid rd) eqn:Vd.
  2:{ eexists _, (fun toast => match toast with Some t => _ | None => st end).
      split; [reflexivity|]. intro toast.
      apply (validatePartCosts_duties_invalid (raw_costs p s d) toast st
               rp rs rd Hp Vp Hs Vs Hd Vd). }
  eexists _, (fun _ => st). split; [reflexivity|]. intro toast.
  apply (validatePartCosts_valid (raw_costs p s d) toast st
           rp rs rd Hp Vp Hs Vs Hd Vd).
Qed.

Lemma validateBudget_raw (i : NumericInput) (st : T) :
  exists (r : BudgetResult.t) (k : option (Toast T) -> T),
    k None = st /\
    forall toast, validateBudget (to_js i) toast st = (Normal r, k toast).
Proof.
  destruct (validateCurrency_total i (Some "Budget")) as [r Hr].
  destruct (CurrencyResult.isValid r) eqn:V.
  - eexists _, (fun _ => st). split; [reflexivity|]. intro toast.
    rewrite (validateBudget_unfold (to_js i) toast st r Hr), V. reflexivity.
  - eexists _, (fun toast => match toast with Some t => _ | None => st end).
    split; [reflexivity|]. intro toast.
    rewrite (validateBudget_unfold (to_js i) toast st r Hr), V. reflexivity.
Qed.

End Composites.

(** C1.  [validatePartCosts] takes the fields in the order price, shipping,
    duties.  At the first field whose currency validation is invalid it
    calls the sink's [warning] once, with that field's error message, and
    returns [{isValid: false, values: null}]; the fields after it are not
    looked at: any bundle that agrees on the fields up to that one has the
    same outcome, so an error in a later field is not surfaced. *)
Theorem validatePartCosts_short_circuits :
  forall (T : Type) (toast : Toast T) (st : T) (costs : Costs.t)
         (f : CostField) (r : CurrencyResult.t),
    Forall (fun g => exists rg, validate_field costs g = Normal rg /\
                                CurrencyResult.isValid rg = true) (earlier f) ->
    validate_field costs f = Normal r ->
    CurrencyResult.isValid r = false ->
    (exists msg,
        CurrencyResult.error r = Some msg /\
        validatePartCosts costs (Some toast) st =
        (Normal (PartCostsResult.mk false None), warning toast (Some msg) st)) /\
    (forall costs',
        Forall (fun g => field_value costs' g = field_value costs g)
               (earlier f ++ [f]) ->
        validatePartCosts costs' (Some toast) st =
        validatePartCosts costs (Some toast) st).
Proof.
  intros T toast st costs f r Hearlier Hf Hr. split.
  - destruct (validateCurrency_invariant _ _ _ Hf) as [_ Hinv].
    destruct (Hinv Hr) as [_ [msg [Hmsg _]]].
    exists msg. split; [exact Hmsg|].
    rewrite <- Hmsg.
    apply (validatePartCosts_first_invalid T costs (Some toast) st f r);
      assumption.
  - intros costs' Hagree.
    rewrite (validatePartCosts_first_invalid T costs (Some toast) st f r)
      by assumption.
    apply (validatePartCosts_first_invalid T costs' (Some toast) st f r).
    + apply Forall_app in Hagree. destruct Hagree as [Hagree _].
      rewrite Forall_forall in *. intros g Hg.
      rewrite (validate_field_agree costs costs' g) by now apply Hagree.
      now apply Hearlier.
    + apply Forall_app in Hagree. destruct Hagree as [_ Hagree].
      inversion Hagree; subst.
      now rewrite (validate_field_agree costs costs' f).
    + assumption.
Qed.

Lemma validatePartCosts_short_circuits_witness :
  validatePartCosts
    (Costs.mk (VString "10") (VString "5") (VString "abc"))
    (Some recorder) [] =
  (Normal (PartCostsResult.mk false None),
   [Some "Duties must be a valid number"%string]) /\
  validatePartCosts
    (Costs.mk (VString "abc") (VString "-1") (VString "x"))
    (Some recorder) [] =
  validatePartCosts
    (Costs.mk (VString "abc") (VString "5") (VString "7"))
    (Some recorder) [].
Proof.
  split.
  - pose (costs := Costs.mk (VString "10") (VString "5") (VString "abc")).
    assert (Hearlier :
              Forall (fun g => exists rg, validate_field costs g = Normal rg /\
                                          CurrencyResult.isValid rg = true)
                     (earlier Duties)).
    { repeat constructor.
      - eexists. split; vm_compute; reflexivity.
      - eexists. split; vm_compute; reflexivity. }
    assert (Hf : validate_field costs Duties =
                 Normal (CurrencyResult.mk false zero
                           (Some "Duties must be a valid number"%string))).
    { vm_compute. reflexivity. }
    destruct (validatePartCosts_short_circuits _ recorder [] costs Duties _
                Hearlier Hf eq_refl) as [[msg [Hmsg Hcall]] _].
    injection Hmsg as <-. exact Hcall.
  - pose (costs := Costs.mk (VString "abc") (VString "5") (VString "7")).
    assert (Hf : validate_field costs Price =
                 Normal (CurrencyResult.mk false zero
                           (Some "Price must be a valid number"%string))).
    { vm_compute. reflexivity. }
    destruct (validatePartCosts_short_circuits _ recorder [] costs Price _
                (Forall_nil _) Hf eq_refl) as [_ Hsame].
    apply Hsame. repeat constructor.
Defined.

(** C2.  When the three currency validations succeed, [validatePartCosts]
    leaves the sink alone and returns [{isValid: true, values}] whose
    price, shipping and duties are the values the validations normalised
    the inputs to, and whose total is their sum, price + shipping +
    duties, as Numbers. *)
Theorem validatePartCosts_success :
  forall (T : Type) (toast : option (Toast T)) (st : T) (costs : Costs.t)
         (rp rs rd : CurrencyResult.t),
    validate_field costs Price = Normal rp ->
    CurrencyResult.isValid rp = true ->
    validate_field costs Shipping = Normal rs ->
    CurrencyResult.isValid rs = true ->
    validate_field costs Duties = Normal rd ->
    CurrencyResult.isValid rd = true ->
    validatePartCosts costs toast st =
    (Normal
       (PartCostsResult.mk true
          (Some (CostBundle.mk
                   (CurrencyResult.value rp) (CurrencyResult.value rs)
                   (CurrencyResult.value rd)
                   (add (add (CurrencyResult.value rp) (CurrencyResult.value rs))
                        (CurrencyResult.value rd))))),
     st).
Proof.
  intros. now apply validatePartCosts_valid with (rp := rp) (rs := rs) (rd := rd).
Qed.

Lemma validatePartCosts_success_witness :
  validatePartCosts
    (Costs.mk (VString "10.50") (VString "2") (VString "0"))
    (Some recorder) [] =
  (Normal
     (PartCostsResult.mk true
        (Some (CostBundle.mk (parseFloat_str "10.5") (of_Z 2) (of_Z 0)
                             (parseFloat_str "12.5")))),
   []).
Proof.
  apply (validatePartCosts_success _ (Some recorder) []
           (Costs.mk (VString "10.50") (VString "2") (VString "0"))
           (CurrencyResult.mk true (parseFloat_str "10.5") None)
           (CurrencyResult.mk true (of_Z 2) None)
           (CurrencyResult.mk true (of_Z 0) None));
    vm_compute; reflexivity.
Defined.

(** C6.  [validateBudget] hands the raw budget to the currency validator
    with the label "Budget".  On an invalid result it sends the
    validator's error message to the sink's [warning] and returns
    [{isValid: false, value: 0}]; on a valid result it returns
    [{isValid: true, value}] with the normalised value and does not call
    the sink.  For the budget -5 the sink receives
    "Budget cannot be negative". *)
Theorem validateBudget_delegates :
  (forall (T : Type) (toast : Toast T) (st : T) (i : NumericInput),
      let r := CurrencyValidator i "Budget" in
      validateCurrency (to_js i) (Some "Budget"%string) = Normal r /\
      validateBudget (to_js i) (Some toast) st =
      if CurrencyResult.isValid r then
        (Normal (BudgetResult.mk true (CurrencyResult.value r)), st)
      else
        (Normal (BudgetResult.mk false (of_Z 0)),
         warning toast (CurrencyResult.error r) st)) /\
  validateBudget (VNumber (of_Z (-5))) (Some recorder) [] =
  (Normal (BudgetResult.mk false (of_Z 0)),
   [Some "Budget cannot be negative"%string]).
Proof.
  split.
  - intros T toast st i r. split.
    + apply validateCurrency_raw.
    + rewrite (validateBudget_unfold T (to_js i) (Some toast) st r).
      * reflexivity.
      * apply validateCurrency_raw.
  - vm_compute. reflexivity.
Qed.

(** C8.  On a raw input (a string, a Number, null or undefined) no
    validator throws: each returns a result record.  When the sink
    argument of [validatePartCosts] or [validateBudget] is null or absent
    the warning call is skipped: the sink state is untouched and the
    result is the one returned with a sink present. *)
Theorem validators_total_on_raw_input :
  forall (toLocaleString : Number -> string) (currentYear : Number)
         (i p s d : NumericInput) (f : option string)
         (o : option ValidationOptions.t)
         (T : Type) (toast : option (Toast T)) (st : T),
    (exists r, validateCurrency (to_js i) f = Normal r) /\
    (exists r, validatePositiveInteger toLocaleString (to_js i) f o = Normal r) /\
    (exists r, validateYear toLocaleString currentYear (to_js i) f = Normal r) /\
    (exists r, validateOdometer toLocaleString (to_js i) f = Normal r) /\
    (exists r st', validatePartCosts (raw_costs p s d) toast st = (Normal r, st')) /\
    (exists r st', validateBudget (to_js i) toast st = (Normal r, st')) /\
    (forall t : Toast T,
        validatePartCosts (raw_costs p s d) None st =
        (fst (validatePartCosts (raw_costs p s d) (Some t) st), st)) /\
    (forall t : Toast T,
        validateBudget (to_js i) None st =
        (fst (validateBudget (to_js i) (Some t) st), st)).
Proof.
  intros tl cy i p s d f o T toast st.
  assert (Hint : forall (g : option string) (o' : option ValidationOptions.t),
             exists r, validatePositiveInteger tl (to_js i) g o' = Normal r).
  { intros [g|] [o'|]; eexists;
      try apply validatePositiveInteger_raw;
      try apply (validatePositiveInteger_raw tl i _ ValidationOptions.empty). }
  destruct (validatePartCosts_raw T p s d st) as [rc [kc [Hkc Hc]]].
  destruct (validateBudget_raw T i st) as [rb [kb [Hkb Hb]]].
  repeat split.
  - apply validateCurrency_total.
  - apply Hint.
  - apply Hint.
  - apply Hint.
  - exists rc, (kc toast). apply Hc.
  - exists rb, (kb toast). apply Hb.
  - intro t. rewrite !Hc, Hkc. reflexivity.
  - intro t. rewrite !Hb, Hkb. reflexivity.
Qed.

(** ** Validating a value that a validator returned *)

Section Idempotence.

Local Open Scope Z_scope.

Lemma roundQ_not_NaN (s : bool) (X : Q) : isNaN (roundQ s X) = false.
Proof.
  unfold roundQ. destruct (Qle_bool X 0); [reflexivity|]. cbv zeta.
  destruct (match _ with Lt => _ | Eq => _ | Gt => _ end); try reflexivity.
  destruct (Z.eqb _ _); destruct (Z.leb _ _); reflexivity.
Qed.

Lemma parseFloat_valid (v : JsValue) (p : Number) :
  parseFloat v = Normal p -> valid p = true.
Proof.
  unfold parseFloat. destruct (ToString v); [|discriminate].
  intros [= <-]. apply parseFloat_str_valid.
Qed.

Lemma parseInt_shape (v : JsValue) (p : Number) :
  parseInt v = Normal p -> valid p = true /\ whole p.
Proof.
  unfold parseInt. destruct (ToString v); [|discriminate].
  intros [= <-]. apply parseInt_str_shape.
Qed.

Lemma validateCurrency_again (v : JsValue) (f : option string)
  (r : CurrencyResult.t) :
  validateCurrency v f = Normal r ->
  CurrencyResult.isValid r = true ->
  validateCurrency (feed_number (CurrencyResult.value r)) f =
  Normal (CurrencyResult.mk (CurrencyResult.isValid r)
            (unsigned_zero (CurrencyResult.value r))
            (CurrencyResult.error r)).
Proof.
  unfold validateCurrency at 1.
  destruct (is_blank v).
  { intros [= <-] _. destruct f; vm_compute; reflexivity. }
  destruct (parseFloat v) as [p | e] eqn:Hp; [|discriminate].
  apply parseFloat_valid in Hp.
  destruct (isNaN p) eqn:Hnan; [intros [= <-]; discriminate|].
  destruct (lt p zero) eqn:Hlt; [intros [= <-]; discriminate|].
  destruct (gt p billion) eqn:Hgt; intros [= <-]; [discriminate|]. intros _.
  cbn [CurrencyResult.isValid CurrencyResult.value CurrencyResult.error].
  unfold validateCurrency, feed_number, parseFloat. cbn [is_blank ToString].
  rewrite (parseFloat_NumberToString p Hp).
  now rewrite isNaN_unsigned_zero, lt_unsigned_zero, gt_unsigned_zero, Hnan, Hlt, Hgt.
Qed.

Lemma validatePositiveInteger_again (tl : Number -> string) (v : JsValue)
  (f : option string) (o : option ValidationOptions.t) (r : IntegerResult.t) :
  validatePositiveInteger tl v f o = Normal r ->
  IntegerResult.isValid r = true ->
  match IntegerResult.value r with
  | Some p => below p (10 ^ 21) = true
  | None => True
  end ->
  validatePositiveInteger tl (feed_integer (IntegerResult.value r)) f o =
  Normal (IntegerResult.mk (IntegerResult.isValid r)
            (option_map unsigned_zero (IntegerResult.value r))
            (IntegerResult.error r)).
Proof.
  unfold validatePositiveInteger at 1.
  destruct (is_blank v).
  { destruct (or_default true _) eqn:Ha; intros [= <-]; [|discriminate].
    intros _ _. unfold validatePositiveInteger. cbn [feed_integer IntegerResult.value is_blank].
    now rewrite Ha. }
  destruct (parseInt v) as [p | e] eqn:Hp; [|discriminate].
  apply parseInt_shape in Hp. destruct Hp as [Hv Hw].
  destruct (isNaN p) eqn:Hnan; [intros [= <-]; discriminate|].
  destruct (lt p _) eqn:Hlt; [intros [= <-]; discriminate|].
  destruct (gt p _) eqn:Hgt; intros [= <-]; [discriminate|]. intros _ Hb.
  cbn [IntegerResult.isValid IntegerResult.value IntegerResult.error] in *.
  unfold validatePositiveInteger, feed_integer, parseInt. cbn [is_blank ToString option_map].
  rewrite (parseInt_NumberToString p Hv Hw Hb).
  now rewrite isNaN_unsigned_zero, lt_unsigned_zero, gt_unsigned_zero, Hnan, Hlt, Hgt.
Qed.

(** C7, as amended.  For every input on which [validateCurrency] returns
    a valid result, validating the returned value again, under the same
    label, returns the same isValid and error and the same value, except
    that a returned -0 comes back as +0.  For every input and options on
    which [validatePositiveInteger] returns a valid result whose value is
    null or a finite Number of magnitude below 10^21, validating the
    returned value again, under the same label and options, returns the
    same isValid and error and the same value, again except that -0 comes
    back as +0. *)
Theorem validators_idempotent_below_1e21 :
  (forall (v : JsValue) (f : option string) (r : CurrencyResult.t),
      validateCurrency v f = Normal r ->
      CurrencyResult.isValid r = true ->
      validateCurrency (feed_number (CurrencyResult.value r)) f =
      Normal (CurrencyResult.mk (CurrencyResult.isValid r)
                (unsigned_zero (CurrencyResult.value r))
                (CurrencyResult.error r))) /\
  (forall (toLocaleString : Number -> string) (v : JsValue)
          (f : option string) (o : option ValidationOptions.t)
          (r : IntegerResult.t),
      validatePositiveInteger toLocaleString v f o = Normal r ->
      IntegerResult.isValid r = true ->
      match IntegerResult.value r with
      | Some p => below p (10 ^ 21) = true
      | None => True
      end ->
      validatePositiveInteger toLocaleString
        (feed_integer (IntegerResult.value r)) f o =
      Normal (IntegerResult.mk (IntegerResult.isValid r)
                (option_map unsigned_zero (IntegerResult.value r))
                (IntegerResult.error r))).
Proof.
  split.
  - apply validateCurrency_again.
  - apply validatePositiveInteger_again.
Qed.

Lemma validators_idempotent_below_1e21_witness :
  validateCurrency (VNumber (parseFloat_str "12.5")) (Some "Price"%string) =
  Normal (CurrencyResult.mk true (parseFloat_str "12.5") None) /\
  validatePositiveInteger toLocaleString_enUS (VNumber (of_Z 2024))
    (Some "Year"%string) None =
  Normal (IntegerResult.mk true (Some (of_Z 2024)) None).
Proof.
  split.
  - apply (proj1 validators_idempotent_below_1e21
             (VString "12.50") (Some "Price"%string)
             (CurrencyResult.mk true (parseFloat_str "12.5") None));
      vm_compute; reflexivity.
  - apply (proj2 validators_idempotent_below_1e21 toLocaleString_enUS
             (VString "2024") (Some "Year"%string) None
             (IntegerResult.mk true (Some (of_Z 2024)) None));
      vm_compute; reflexivity.
Defined.

(** C7 as stated fails: with the default options the string of 1 and
    twenty-one zeros is valid with value 1e21; that value converts to the
    string [1e+21], of which [parseInt] reads the 1, so validating it again
    returns the value 1. *)
Lemma idempotence_fails_at_1e21 :
  validatePositiveInteger toLocaleString_enUS
    (VString "1000000000000000000000") None None =
  Normal (IntegerResult.mk true (Some one_e21) None) /\
  validatePositiveInteger toLocaleString_enUS
    (feed_integer (Some one_e21)) None None =
  Normal (IntegerResult.mk true (Some (of_Z 1)) None) /\
  one_e21 <> of_Z 1.
Proof.
  split; [|split].
  - vm_compute. reflexivity.
  - vm_compute. reflexivity.
  - vm_compute. discriminate.
Qed.

End Idempotence.

(** ** Lenient prefix parsing *)

Section LenientPrefix.

Local Open Scope Z_scope.
Local Open Scope string_scope.

Lemma numeral_text_head (nm : Numeral) (t : string) :
  well_formed nm = true ->
  exists c s, numeral_text nm ++ t = String c s.
Proof.
  intro Hwf. unfold numeral_text. rewrite string_app_assoc.
  destruct (unsigned_text_head nm t Hwf) as [c [s [Hhead _]]].
  destruct (sign nm); simpl; rewrite ?Hhead; eauto.
Qed.

Lemma validateCurrency_numeral (nm : Numeral) (t : string) (f : string) :
  well_formed nm = true -> non_numeric t = true ->
  validateCurrency (VString (numeral_text nm ++ t)) (Some f) =
  Normal (currency_outcome f (numeral_value nm)).
Proof.
  intros Hwf Ht.
  destruct (numeral_text_head nm t Hwf) as [c [s Hhead]].
  unfold validateCurrency, parseFloat, currency_outcome. cbn [ToString or_default].
  rewrite (parseFloat_str_numeral nm t Hwf Ht).
  rewrite Hhead. cbn [is_blank].
  unfold numeral_value, decimal_value. rewrite roundQ_not_NaN.
  rewrite billion_literal, zero_literal.
  destruct (lt _ zero); [reflexivity|]. destruct (gt _ billion); reflexivity.
Qed.

Lemma validatePositiveInteger_digits (tl : Number -> string) (sg : Sign)
  (ip : list Z) (t : string) (f : string) (o : ValidationOptions.t) :
  all_digits ip = true -> nonempty ip = true -> non_digit t = true ->
  validatePositiveInteger tl
    (VString (sign_text sg ++ string_of_digits ip ++ t)) (Some f) (Some o) =
  Normal (integer_outcome tl f
            (or_default (of_Z 0) (ValidationOptions.min o))
            (or_default Infinity (ValidationOptions.max o))
            (roundQ (is_minus sg) (inject_Z (digits_value ip)))).
Proof.
  intros Hall Hne Ht.
  destruct (string_of_digits_head ip t Hall Hne) as [c [s [Hhead _]]].
  unfold validatePositiveInteger, parseInt, integer_outcome. cbn [ToString or_default].
  rewrite (parseInt_str_digits sg ip t Hall Hne Ht).
  assert (Hb : is_blank (VString (sign_text sg ++ string_of_digits ip ++ t)) = false).
  { rewrite Hhead. destruct sg; reflexivity. }
  rewrite Hb, roundQ_not_NaN.
  destruct (lt _ _); [reflexivity|]. destruct (gt _ _); reflexivity.
Qed.

Lemma append_cancel (a b c : string) : a ++ b = a ++ c -> b = c.
Proof. induction a as [|ch a IH]; simpl; [tauto|]. intros [= H]. now apply IH. Qed.

(** The outcomes of the range tests are not the parse error. *)
Lemma currency_outcome_error (f : string) (p : Number) :
  CurrencyResult.error (currency_outcome f p) <>
  Some (f ++ " must be a valid number").
Proof.
  unfold currency_outcome.
  destruct (lt p (of_Z 0)); [|destruct (gt p ceiling)]; simpl;
    try discriminate; intros [= H]; apply append_cancel in H; discriminate H.
Qed.

Lemma integer_outcome_error (tl : Number -> string) (f : string)
  (min max p : Number) :
  IntegerResult.error (integer_outcome tl f min max p) <>
  Some (f ++ " must be a valid number").
Proof.
  unfold integer_outcome.
  destruct (lt p min); [|destruct (gt p max)]; simpl;
    try discriminate; intros [= H]; apply append_cancel in H; discriminate H.
Qed.

(** C10 as stated fails: a numeric prefix does not make the result
    valid.  [-5abc] starts with the numeral [-5] and is rejected as
    negative, [-3.7] is a decimal string rejected as below the minimum,
    and [.5] is a decimal string with no digit before the point, which
    [parseInt] cannot read at all. *)
Lemma numeric_prefix_can_be_invalid :
  numeral_text (Build_Numeral Minus [5] None None) ++ "abc" = "-5abc" /\
  validateCurrency (VString "-5abc") (Some "Price") =
    Normal (CurrencyResult.mk false (of_Z 0) (Some "Price cannot be negative")) /\
  validatePositiveInteger toLocaleString_enUS (VString "-3.7") (Some "Quantity") None =
    Normal (IntegerResult.mk false None (Some "Quantity must be at least 0")) /\
  validatePositiveInteger toLocaleString_enUS (VString ".5") (Some "Quantity") None =
    Normal (IntegerResult.mk false None (Some "Quantity must be a valid number")).
Proof.
  repeat split; vm_compute; reflexivity.
Qed.

End LenientPrefix.

(** ** The examples of the specification's section 8 *)

Section Examples.

Local Open Scope string_scope.

Example currency_rejects_text :
  validateCurrency (VString "abc") (Some "Price") =
  Normal (CurrencyResult.mk false (of_Z 0) (Some "Price must be a valid number")).
Proof. vm_compute. reflexivity. Qed.

Example currency_rejects_negative :
  validateCurrency (VString "-12.5") (Some "Shipping") =
  Normal (CurrencyResult.mk false (of_Z 0) (Some "Shipping cannot be negative")).
Proof. vm_compute. reflexivity. Qed.

Example currency_rejects_above_ceiling :
  validateCurrency (VString "1000000000.5") (Some "Price") =
  Normal (CurrencyResult.mk false (of_Z 0)
            (Some "Price exceeds maximum allowed value")).
Proof. vm_compute. reflexivity. Qed.

Example empty_inputs_agree :
  validateCurrency (VString EmptyString) None =
    Normal (CurrencyResult.mk true (of_Z 0) None) /\
  validateCurrency VNull None = validateCurrency (VString EmptyString) None /\
  validateCurrency VUndefined None = validateCurrency (VString EmptyString) None /\
  validatePositiveInteger toLocaleString_enUS (VString EmptyString) None None =
    Normal (IntegerResult.mk true None None) /\
  validatePositiveInteger toLocaleString_enUS VNull None None =
    validatePositiveInteger toLocaleString_enUS (VString EmptyString) None None /\
  validatePositiveInteger toLocaleString_enUS VUndefined None None =
    validatePositiveInteger toLocaleString_enUS (VString EmptyString) None None.
Proof. repeat split. Qed.

Example year_above_bound :
  validateYear toLocaleString_enUS (of_Z 2026) (VString "2050") None =
  Normal (IntegerResult.mk false None (Some "Year must be at most 2,028")).
Proof. vm_compute. reflexivity. Qed.

Example odometer_within_bound :
  validateOdometer toLocaleString_enUS (VString "123456") None =
  Normal (IntegerResult.mk true (Some (of_Z 123456)) None).
Proof. vm_compute. reflexivity. Qed.

(** The range tests see the parsed double: a decimal that rounds to the
    ceiling is accepted, and a negative decimal that underflows is read as
    a zero. *)
Example ceiling_after_rounding :
  validateCurrency (VString "1000000000.00000001") (Some "Price") =
  Normal (CurrencyResult.mk true (of_Z 1000000000) None).
Proof. vm_compute. reflexivity. Qed.

Example negative_underflow :
  validateCurrency (VString "-1e-400") (Some "Price") =
  Normal (CurrencyResult.mk true (S754_zero true) None).
Proof. vm_compute. reflexivity. Qed.

(** A negative zero is valid, and comes back as a positive zero when it is
    validated again. *)
Example negative_zero_comes_back_positive :
  validateCurrency (VString "-0") None =
    Normal (CurrencyResult.mk true (S754_zero true) None) /\
  validateCurrency (VNumber (S754_zero true)) None =
    Normal (CurrencyResult.mk true (S754_zero false) None).
Proof. split; vm_compute; reflexivity. Qed.

(** A Symbol cannot be converted to a string: the validators throw. *)
Example symbol_throws :
  validateCurrency (VSymbol "id") None =
  Throw (TypeError "Cannot convert a Symbol value to a string").
Proof. reflexivity. Qed.

End Examples.

(* ===================================================================== *)
(** * Part III: which inputs are accepted *)
(* ===================================================================== *)

(** ** Comparing Numbers by their values *)

Section Comparison.

Local Open Scope Z_scope.

Lemma bounded_mantissa (m : positive) (e : Z) :
  bounded prec emax m e = true ->
  Zpos m < 2 ^ 53 /\ -1074 <= e <= 971 /\ (e = -1074 \/ 2 ^ 52 <= Zpos m).
Proof.
  intro Hb. destruct (bounded_canonical m e Hb) as [Hc He].
  destruct (digits2_bounds m) as [H1 H2].
  set (D := Zpos (digits2_pos m)) in *.
  assert (HD : 1 <= D) by (unfold D; lia).
  assert (D <= 53) by lia.
  split; [|split].
  - eapply Z.lt_le_trans; [exact H2|]. apply Z.pow_le_mono_r; lia.
  - lia.
  - destruct (Z.eq_dec e (-1074)) as [|Hne]; [now left | right].
    assert (D = 53) by lia. replace (2 ^ 52) with (2 ^ (D - 1)) by (f_equal; lia).
    assumption.
Qed.

(** On bounded positive Numbers the comparison of the fields is the
    comparison of the values. *)
Lemma finite_compare (m1 m2 : positive) (e1 e2 : Z) :
  bounded prec emax m1 e1 = true -> bounded prec emax m2 e2 = true ->
  SFcompare (S754_finite false m1 e1) (S754_finite false m2 e2) =
  Some (inject_Z (Zpos m1) * pow2 e1 ?= inject_Z (Zpos m2) * pow2 e2)%Q.
Proof.
  intros H1 H2.
  destruct (bounded_mantissa m1 e1 H1) as [Hm1 [He1 Hn1]].
  destruct (bounded_mantissa m2 e2 H2) as [Hm2 [He2 Hn2]].
  assert (Hlt : forall ma mb ea eb,
             Zpos ma < 2 ^ 53 -> 2 ^ 52 <= Zpos mb -> ea < eb ->
             (inject_Z (Zpos ma) * pow2 ea < inject_Z (Zpos mb) * pow2 eb)%Q).
  { intros ma mb ea eb Ha Hb Hab.
    apply Qlt_le_trans with (pow2 53 * pow2 ea)%Q.
    - apply Qmult_lt_compat_r; [apply pow2_pos|].
      rewrite pow2_Z by lia. now rewrite <- Zlt_Qlt.
    - apply Qle_trans with (pow2 52 * pow2 eb)%Q.
      + rewrite <- !pow2_add. apply pow2_le. lia.
      + apply Qmult_le_compat_r; [|pose proof (pow2_pos eb); lra].
        rewrite pow2_Z by lia. now rewrite <- Zle_Qle. }
  cbn [SFcompare]. f_equal. symmetry.
  destruct (Z.compare_spec e1 e2) as [-> | Hl | Hg].
  - rewrite Pos.compare_cont_spec. cbn [Pos.switch_Eq].
    change (Pos.compare m1 m2) with (Z.compare (Zpos m1) (Zpos m2)).
    pose proof (pow2_pos e2) as Hp.
    destruct (Z.compare_spec (Zpos m1) (Zpos m2)) as [E | L | G].
    + rewrite E. apply Qeq_alt. reflexivity.
    + rewrite <- Qlt_alt. apply Qmult_lt_compat_r; [assumption|].
      now rewrite <- Zlt_Qlt.
    + rewrite <- Qgt_alt. apply Qmult_lt_compat_r; [assumption|].
      now rewrite <- Zlt_Qlt.
  - rewrite <- Qlt_alt. apply Hlt; try assumption. lia.
  - rewrite <- Qgt_alt. apply Hlt; try assumption. lia.
Qed.

End Comparison.

(** ** Rounding never steps over a Number *)

Section RoundingBounds.

Local Open Scope Z_scope.

(** [roundQ] in steps: the scaled value [y], its floor [m], and a rounded
    mantissa that is [m] or [m + 1], and [m] when [y] is whole. *)
Lemma roundQ_form (sgn : bool) (X : Q) :
  (0 < X)%Q ->
  let ex := Z.max (ilog2 X - 52) (-1074) in
  let y := (X / pow2 ex)%Q in
  exists m', Qfloor y <= m' <= Qfloor y + 1 /\
             ((y == inject_Z (Qfloor y))%Q -> m' = Qfloor y) /\
             0 <= Qfloor y /\
             roundQ sgn X = assemble sgn m' ex.
Proof.
  intros HX ex y. unfold roundQ. rewrite (Qle_bool_false X 0 HX). cbv zeta.
  fold ex. fold y.
  exists (match (y - inject_Z (Qfloor y) ?= 1 # 2)%Q with
          | Lt => Qfloor y
          | Eq => if Z.even (Qfloor y) then Qfloor y else Qfloor y + 1
          | Gt => Qfloor y + 1
          end).
  split; [|split; [|split]].
  - destruct (_ ?= _)%Q; [destruct (Z.even _)| |]; lia.
  - intro Hy.
    assert (Hc : (y - inject_Z (Qfloor y) ?= 1 # 2)%Q = Lt).
    { rewrite <- Qlt_alt. lra. }
    now rewrite Hc.
  - assert (Hy : (0 <= y)%Q).
    { unfold y. pose proof (pow2_pos ex).
      apply Qle_shift_div_l; [assumption | lra]. }
    rewrite <- (Qfloor_Z 0). now apply Qfloor_resp_le.
  - reflexivity.
Qed.

Lemma pow2_sub_Z (a b : Z) :
  b <= a -> (pow2 a == inject_Z (2 ^ (a - b)) * pow2 b)%Q.
Proof.
  intro H. rewrite <- pow2_Z by lia. rewrite <- pow2_add.
  now replace (a - b + b) with a by lia.
Qed.

(** The value of an assembled Number. *)
Lemma assemble_value (m' ex : Z) :
  0 <= m' ->
  assemble false m' ex = S754_infinity false \/
  (nonneg_finite (assemble false m' ex) = true /\
   (to_Q (assemble false m' ex) == inject_Z m' * pow2 ex)%Q).
Proof.
  intro Hm. unfold assemble. destruct m' as [|p|p]; try lia.
  - right. split; [reflexivity|]. cbn [assemble to_Q].
    change (inject_Z 0) with 0%Q. lra.
  - destruct (Z.eqb_spec (Zpos p) (2 ^ 53)) as [E|_].
    + destruct (Z.leb (ex + 1) 971); [right | now left].
      split; [reflexivity|]. cbn [to_Q]. rewrite E.
      rewrite pow2_succ. change (inject_Z (Zpos (2 ^ 52))) with (inject_Z (2 ^ 52)).
      change (2 ^ 53) with (2 * 2 ^ 52). rewrite inject_Z_mult.
      change (inject_Z 2) with 2%Q. lra.
    + destruct (Z.leb ex 971); [right | now left].
      split; reflexivity.
Qed.

Lemma ilog2_le (X Y : Q) : (0 < X)%Q -> (X <= Y)%Q -> ilog2 X <= ilog2 Y.
Proof.
  intros HX HXY.
  destruct (ilog2_spec X HX) as [H1 _].
  destruct (ilog2_spec Y ltac:(lra)) as [_ H2].
  assert (ilog2 X < ilog2 Y + 1); [|lia].
  apply pow2_lt_inv. lra.
Qed.

Lemma canonical_exponent (m : positive) (e : Z) :
  bounded prec emax m e = true ->
  Z.max (ilog2 (inject_Z (Zpos m) * pow2 e) - 52) (-1074) = e.
Proof.
  intro Hb. destruct (bounded_canonical m e Hb) as [Hc _].
  rewrite mantissa_ilog2. lia.
Qed.

(** Rounding does not step over a Number: a value at or below a positive
    Number rounds to a Number at or below it. *)
Lemma roundQ_below (X : Q) (mb : positive) (eb : Z) :
  (0 < X)%Q -> bounded prec emax mb eb = true ->
  (X <= inject_Z (Zpos mb) * pow2 eb)%Q ->
  nonneg_finite (roundQ false X) = true /\
  (to_Q (roundQ false X) <= inject_Z (Zpos mb) * pow2 eb)%Q.
Proof.
  intros HX Hb HXB.
  destruct (bounded_mantissa mb eb Hb) as [Hmb [Heb _]].
  pose proof (canonical_exponent mb eb Hb) as Hce.
  pose proof (ilog2_le X _ HX HXB) as HE.
  destruct (roundQ_form false X HX) as [m' [Hm' [Hwhole [Hfl Hr]]]].
  set (ex := Z.max (ilog2 X - 52) (-1074)) in *.
  set (y := (X / pow2 ex)%Q) in *.
  assert (Hex : ex <= eb) by lia.
  pose proof (pow2_pos ex) as Hpex.
  set (M := Zpos mb * 2 ^ (eb - ex)).
  assert (HB : (inject_Z (Zpos mb) * pow2 eb == inject_Z M * pow2 ex)%Q).
  { unfold M. rewrite inject_Z_mult, (pow2_sub_Z eb ex Hex). ring. }
  assert (HyM : (y <= inject_Z M)%Q).
  { unfold y. apply Qle_shift_div_r; [assumption|]. now rewrite <- HB. }
  assert (HmM : Qfloor y <= M).
  { rewrite <- (Qfloor_Z M). now apply Qfloor_resp_le. }
  assert (Hm'M : m' <= M).
  { destruct (Z.eq_dec (Qfloor y) M) as [E|]; [|lia].
    rewrite Hwhole; [lia|]. pose proof (Qfloor_le y) as Hf. rewrite E in *.
    apply Qle_antisym; assumption. }
  rewrite Hr.
  assert (Hle : (inject_Z m' * pow2 ex <= inject_Z (Zpos mb) * pow2 eb)%Q).
  { rewrite HB. apply Qmult_le_compat_r; [|lra]. now rewrite <- Zle_Qle. }
  destruct (assemble_value m' ex ltac:(lia)) as [Hinf | [Hnf Hv]].
  - exfalso. revert Hinf. unfold assemble.
    destruct m' as [|p|p]; try discriminate.
    destruct (Z.eqb_spec (Zpos p) (2 ^ 53)) as [E|_].
    + assert (1 <= eb - ex).
      { destruct (Z_le_gt_dec 1 (eb - ex)); [assumption|].
        assert (eb - ex = 0) by lia. unfold M in Hm'M.
        replace (eb - ex) with 0 in Hm'M by lia. simpl in Hm'M. lia. }
      replace (Z.leb (ex + 1) 971) with true by (symmetry; apply Z.leb_le; lia).
      discriminate.
    + replace (Z.leb ex 971) with true by (symmetry; apply Z.leb_le; lia).
      discriminate.
  - split; [assumption|]. now rewrite Hv.
Qed.

(** A value at or above a positive Number rounds to a Number at or above
    it, or to Infinity. *)
Lemma roundQ_above (X : Q) (mb : positive) (eb : Z) :
  bounded prec emax mb eb = true ->
  (inject_Z (Zpos mb) * pow2 eb <= X)%Q ->
  roundQ false X = S754_infinity false \/
  exists p e, roundQ false X = S754_finite false p e /\
              (inject_Z (Zpos mb) * pow2 eb <= inject_Z (Zpos p) * pow2 e)%Q.
Proof.
  intros Hb HBX.
  destruct (bounded_mantissa mb eb Hb) as [Hmb [Heb _]].
  pose proof (canonical_exponent mb eb Hb) as Hce.
  assert (HB0 : (0 < inject_Z (Zpos mb) * pow2 eb)%Q).
  { apply Qmult_lt_0_compat; [reflexivity | apply pow2_pos]. }
  assert (HX : (0 < X)%Q) by lra.
  pose proof (ilog2_le _ X HB0 HBX) as HE.
  destruct (roundQ_form false X HX) as [m' [Hm' [_ [Hfl Hr]]]].
  destruct (scaled_bounds X HX) as [_ Hlo]. cbv zeta in Hlo.
  set (ex := Z.max (ilog2 X - 52) (-1074)) in *.
  set (y := (X / pow2 ex)%Q) in *.
  assert (Hex : eb <= ex) by lia.
  pose proof (pow2_pos ex) as Hpex. pose proof (pow2_pos eb) as Hpeb.
  assert (Hge : (inject_Z (Zpos mb) * pow2 eb <= inject_Z m' * pow2 ex)%Q /\ 1 <= m').
  { destruct (Z.eq_dec ex eb) as [E | Hne].
    - assert (Hy : (inject_Z (Zpos mb) <= y)%Q).
      { unfold y. apply Qle_shift_div_l; [assumption|]. now rewrite E. }
      assert (Zpos mb <= Qfloor y).
      { rewrite <- (Qfloor_Z (Zpos mb)). now apply Qfloor_resp_le. }
      split; [|lia]. rewrite E.
      apply Qmult_le_compat_r; [|lra]. rewrite <- Zle_Qle. lia.
    - destruct Hlo as [Hlo | Hlo]; [lia|].
      assert (2 ^ 52 <= Qfloor y).
      { rewrite <- (Qfloor_Z (2 ^ 52)). now apply Qfloor_resp_le. }
      split; [|lia].
      apply Qle_trans with (inject_Z (2 ^ 53) * pow2 eb)%Q.
      + apply Qmult_le_compat_r; [|lra]. rewrite <- Zle_Qle. lia.
      + apply Qle_trans with (inject_Z (2 ^ 52) * pow2 (eb + 1))%Q.
        * rewrite pow2_succ. change (2 ^ 53) with (2 * 2 ^ 52).
          rewrite inject_Z_mult. change (inject_Z 2) with 2%Q. lra.
        * apply Qle_trans with (inject_Z (2 ^ 52) * pow2 ex)%Q.
          -- apply Qmult_le_l; [reflexivity|]. apply pow2_le. lia.
          -- apply Qmult_le_compat_r; [|lra]. rewrite <- Zle_Qle. lia. }
  destruct Hge as [Hge Hpos].
  rewrite Hr. destruct (assemble_value m' ex ltac:(lia)) as [Hinf | [Hnf Hv]];
    [now left | right].
  destruct (assemble false m' ex) as [s | s | | s p e] eqn:Ea; try discriminate.
  - exfalso. revert Ea. unfold assemble. destruct m' as [|p|p]; try lia.
    destruct (Z.eqb _ _); destruct (Z.leb _ _); discriminate.
  - destruct s; [discriminate|]. exists p, e. split; [reflexivity|].
    cbn [to_Q] in Hv. now rewrite Hv.
Qed.

End RoundingBounds.

(** ** Whole Numbers and the range tests *)

Section WholeNumbers.

Local Open Scope Z_scope.

Lemma roundQ_with_sign (s : bool) (X : Q) :
  roundQ s X = with_sign s (roundQ false X).
Proof.
  unfold roundQ. destruct (Qle_bool X 0); [reflexivity|]. cbv zeta.
  destruct (match _ with Lt => _ | Eq => _ | Gt => _ end); try reflexivity.
  destruct (Z.eqb _ _); destruct (Z.leb _ _); reflexivity.
Qed.

(** The positive integers up to [2^53] are Numbers. *)
Lemma safe_integer_fields (c : Z) :
  0 < c <= 2 ^ 53 ->
  exists m e, bounded prec emax m e = true /\
              (inject_Z (Zpos m) * pow2 e == inject_Z c)%Q.
Proof.
  intros [Hc0 Hc].
  destruct (Z.eq_dec c (2 ^ 53)) as [-> | Hne].
  { exists (2 ^ 52)%positive, 1. split; reflexivity. }
  destruct (Z.log2_spec c Hc0) as [Hl1 Hl2].
  set (l := Z.log2 c) in *.
  assert (Hl0 : 0 <= l) by apply Z.log2_nonneg.
  assert (Hl : l < 53).
  { apply (Z.pow_lt_mono_r_iff 2); lia. }
  assert (Hp : 0 < 2 ^ (52 - l)) by (apply Z.pow_pos_nonneg; lia).
  assert (H52 : 2 ^ 52 = 2 ^ l * 2 ^ (52 - l)).
  { rewrite <- Z.pow_add_r by lia. f_equal. lia. }
  assert (H53 : 2 ^ 53 = 2 ^ Z.succ l * 2 ^ (52 - l)).
  { rewrite <- Z.pow_add_r by lia. f_equal. lia. }
  assert (Hm : 2 ^ 52 <= c * 2 ^ (52 - l) < 2 ^ 53) by nia.
  destruct (c * 2 ^ (52 - l)) as [|m|m] eqn:Em; try lia.
  exists m, (l - 52). split.
  - apply bounded_intro; lia.
  - rewrite <- Em, inject_Z_mult.
    replace (l - 52) with (- (52 - l)) by lia.
    rewrite <- pow2_Z by lia. rewrite <- Qmult_assoc, <- pow2_add.
    replace (52 - l + - (52 - l)) with 0 by lia.
    change (pow2 0) with 1%Q. lra.
Qed.

Lemma of_Z_fields (c : Z) :
  0 < c <= 2 ^ 53 ->
  exists m e, bounded prec emax m e = true /\
              of_Z c = S754_finite false m e /\
              (inject_Z (Zpos m) * pow2 e == inject_Z c)%Q.
Proof.
  intro Hc. destruct (safe_integer_fields c Hc) as [m [e [Hb Hv]]].
  exists m, e. split; [assumption|]. split; [|assumption].
  unfold of_Z. replace (c <? 0) with false by (symmetry; apply Z.ltb_ge; lia).
  rewrite Z.abs_eq by lia. rewrite <- (roundQ_proper false _ _ Hv).
  now apply roundQ_exact.
Qed.

(** How a rounded non-negative value compares with a positive Number
    [C], given a Number between them. *)
Lemma round_below_Number (X : Q) (mb mc : positive) (eb ec : Z) :
  (0 < X)%Q ->
  bounded prec emax mb eb = true -> bounded prec emax mc ec = true ->
  (X <= inject_Z (Zpos mb) * pow2 eb)%Q ->
  (inject_Z (Zpos mb) * pow2 eb <= inject_Z (Zpos mc) * pow2 ec)%Q ->
  gt (roundQ false X) (S754_finite false mc ec) = false /\
  ((inject_Z (Zpos mb) * pow2 eb < inject_Z (Zpos mc) * pow2 ec)%Q ->
   lt (roundQ false X) (S754_finite false mc ec) = true).
Proof.
  intros HX Hb Hc HXB HBC.
  destruct (roundQ_below X mb eb HX Hb HXB) as [Hnf Hle].
  pose proof (roundQ_valid false X) as Hv.
  unfold gt, lt, SFltb.
  destruct (roundQ false X) as [s | s | | s p e]; try discriminate.
  - split; reflexivity.
  - destruct s; [discriminate|]. cbn [to_Q] in Hle.
    rewrite !finite_compare by assumption. split.
    + destruct (_ ?= _)%Q eqn:E; try reflexivity.
      rewrite <- Qlt_alt in E. lra.
    + intro Hlt. replace (_ ?= _)%Q with Lt; [reflexivity|].
      symmetry. rewrite <- Qlt_alt. lra.
Qed.

Lemma round_above_Number (X : Q) (mb mc : positive) (eb ec : Z) :
  bounded prec emax mb eb = true -> bounded prec emax mc ec = true ->
  (inject_Z (Zpos mb) * pow2 eb <= X)%Q ->
  (inject_Z (Zpos mc) * pow2 ec <= inject_Z (Zpos mb) * pow2 eb)%Q ->
  lt (roundQ false X) (S754_finite false mc ec) = false /\
  ((inject_Z (Zpos mc) * pow2 ec < inject_Z (Zpos mb) * pow2 eb)%Q ->
   gt (roundQ false X) (S754_finite false mc ec) = true).
Proof.
  intros Hb Hc HBX HCB.
  pose proof (roundQ_valid false X) as Hv.
  unfold gt, lt, SFltb.
  destruct (roundQ_above X mb eb Hb HBX) as [-> | [p [e [Hr Hge]]]].
  - split; reflexivity.
  - rewrite Hr in *. rewrite !finite_compare by assumption. split.
    + destruct (_ ?= _)%Q eqn:E; try reflexivity.
      rewrite <- Qlt_alt in E. lra.
    + intro Hlt. replace (_ ?= _)%Q with Lt; [reflexivity|].
      symmetry. rewrite <- Qlt_alt. lra.
Qed.

(** A rounded non-negative value is not below zero. *)
Lemma round_not_negative (X : Q) (z : bool) :
  lt (roundQ false X) (S754_zero z) = false.
Proof.
  rewrite roundQ_with_sign. unfold lt, SFltb.
  destruct (roundQ false X) as [s | s | | s p e]; reflexivity.
Qed.

(** Rounded whole values against a whole bound that is a Number: the
    comparisons are those of the integers. *)
Lemma round_integer_compare (n c : Z) :
  0 <= n -> 0 <= c < 2 ^ 53 ->
  lt (roundQ false (inject_Z n)) (of_Z c) = (n <? c) /\
  gt (roundQ false (inject_Z n)) (of_Z c) = (c <? n).
Proof.
  intros Hn Hc.
  destruct (Z.eq_dec n 0) as [-> | Hn0].
  { destruct (Z.eq_dec c 0) as [-> | Hc0]; [split; reflexivity|].
    destruct (of_Z_fields c ltac:(lia)) as [mc [ec [_ [-> _]]]].
    replace (0 <? c) with true by (symmetry; apply Z.ltb_lt; lia).
    replace (c <? 0) with false by (symmetry; apply Z.ltb_ge; lia).
    split; reflexivity. }
  assert (HX : (0 < inject_Z n)%Q).
  { change 0%Q with (inject_Z 0). rewrite <- Zlt_Qlt. lia. }
  destruct (safe_integer_fields 1 ltac:(lia)) as [m1 [e1 [Hb1 Hv1]]].
  destruct (Z.eq_dec c 0) as [-> | Hc0].
  { replace (n <? 0) with false by (symmetry; apply Z.ltb_ge; lia).
    replace (0 <? n) with true by (symmetry; apply Z.ltb_lt; lia).
    split; [apply round_not_negative|].
    assert (H1 : (inject_Z (Zpos m1) * pow2 e1 <= inject_Z n)%Q).
    { rewrite Hv1, <- Zle_Qle. lia. }
    unfold gt, SFltb.
    destruct (roundQ_above _ m1 e1 Hb1 H1) as [-> | [p [e [-> _]]]]; reflexivity. }
  destruct (of_Z_fields c ltac:(lia)) as [mc [ec [Hbc [-> Hvc]]]].
  destruct (Z.lt_trichotomy n c) as [Hlt | [-> | Hgt]].
  - destruct (safe_integer_fields (c - 1) ltac:(lia)) as [mb [eb [Hbb Hvb]]].
    replace (n <? c) with true by (symmetry; apply Z.ltb_lt; lia).
    replace (c <? n) with false by (symmetry; apply Z.ltb_ge; lia).
    assert (Hlt' : (inject_Z (Zpos mb) * pow2 eb < inject_Z (Zpos mc) * pow2 ec)%Q).
    { rewrite Hvb, Hvc, <- Zlt_Qlt. lia. }
    destruct (round_below_Number (inject_Z n) mb mc eb ec HX Hbb Hbc) as [Hg Hl].
    + rewrite Hvb, <- Zle_Qle. lia.
    + lra.
    + split; [now apply Hl | assumption].
  - rewrite Z.ltb_irrefl.
    rewrite <- (roundQ_proper false _ _ Hvc), (roundQ_exact false mc ec Hbc).
    unfold lt, gt, SFltb. rewrite finite_compare by assumption.
    replace (_ ?= _)%Q with Eq; [split; reflexivity|].
    symmetry. apply Qeq_alt. reflexivity.
  - destruct (safe_integer_fields (c + 1) ltac:(lia)) as [mb [eb [Hbb Hvb]]].
    replace (n <? c) with false by (symmetry; apply Z.ltb_ge; lia).
    replace (c <? n) with true by (symmetry; apply Z.ltb_lt; lia).
    assert (Hlt' : (inject_Z (Zpos mc) * pow2 ec < inject_Z (Zpos mb) * pow2 eb)%Q).
    { rewrite Hvb, Hvc, <- Zlt_Qlt. lia. }
    destruct (round_above_Number (inject_Z n) mb mc eb ec Hbb Hbc) as [Hl Hg].
    + rewrite Hvb, <- Zle_Qle. lia.
    + lra.
    + split; [assumption | now apply Hg].
Qed.

End WholeNumbers.

(** ** Addition of whole Numbers *)

Section ExactAddition.

Local Open Scope Z_scope.

Lemma shr_1_double (z : Z) :
  0 < z ->
  shr_1 (Build_shr_record (2 * z) false false) = Build_shr_record z false false.
Proof. destruct z; try lia. reflexivity. Qed.

(** Shifting out bits that are zero loses nothing. *)
Lemma shr_zero_bits (d : positive) (z : Z) :
  0 < z ->
  iter_pos shr_1 d (Build_shr_record (z * 2 ^ Zpos d) false false) =
  Build_shr_record z false false.
Proof.
  revert z. induction d as [d IH | d IH |]; intros z Hz.
  - cbn [iter_pos].
    assert (Hp : 0 < 2 ^ Zpos d) by (apply Z.pow_pos_nonneg; lia).
    replace (z * 2 ^ Zpos d~1) with (2 * ((z * 2 ^ Zpos d) * 2 ^ Zpos d)).
    + rewrite shr_1_double by nia. rewrite IH by nia. now apply IH.
    + rewrite (Pos2Z.inj_xI d).
      replace (2 * Zpos d + 1) with (1 + Zpos d + Zpos d) by lia.
      rewrite (Z.pow_add_r 2 (1 + Zpos d) (Zpos d)) by lia.
      rewrite (Z.pow_add_r 2 1 (Zpos d)) by lia. change (2 ^ 1) with 2. ring.
  - cbn [iter_pos].
    assert (Hp : 0 < 2 ^ Zpos d) by (apply Z.pow_pos_nonneg; lia).
    replace (z * 2 ^ Zpos d~0) with ((z * 2 ^ Zpos d) * 2 ^ Zpos d).
    + rewrite IH by nia. now apply IH.
    + rewrite (Pos2Z.inj_xO d).
      replace (2 * Zpos d) with (Zpos d + Zpos d) by lia.
      rewrite (Z.pow_add_r 2 (Zpos d) (Zpos d)) by lia. ring.
  - cbn [iter_pos]. replace (z * 2 ^ 1) with (2 * z) by (change (2 ^ 1) with 2; ring).
    now apply shr_1_double.
Qed.

Lemma shift_left_value (m d : positive) :
  Zpos (Pos.iter xO m d) = Zpos m * 2 ^ Zpos d.
Proof.
  induction d as [|d IH] using Pos.peano_ind.
  - cbn [Pos.iter]. change (2 ^ 1) with 2. lia.
  - rewrite Pos.iter_succ, Pos2Z.inj_succ, Z.pow_succ_r by lia.
    rewrite (Pos2Z.inj_xO (Pos.iter xO m d)), IH. ring.
Qed.

(** The mantissa aligned to a lower exponent. *)
Lemma shl_align_value (m : positive) (e ez : Z) :
  ez <= e ->
  Zpos (fst (shl_align m e ez)) = Zpos m * 2 ^ (e - ez).
Proof.
  intro H. unfold shl_align. destruct (ez - e) as [|d|d] eqn:E; try lia.
  - replace (e - ez) with 0 by lia. cbn [fst]. lia.
  - cbn [fst]. rewrite shift_left_value. f_equal. f_equal. lia.
Qed.

(** Rounding a mantissa that is a bounded one followed by zero bits gives
    the bounded one. *)
Lemma binary_round_exact (M m3 : positive) (ez e3 : Z) :
  bounded prec emax m3 e3 = true -> ez <= e3 ->
  Zpos M = Zpos m3 * 2 ^ (e3 - ez) ->
  binary_round prec emax false M ez = S754_finite false m3 e3.
Proof.
  intros Hb Hle HM.
  destruct (bounded_canonical m3 e3 Hb) as [Hc He].
  assert (Hfexp3 : fexp prec emax (Zpos (digits2_pos m3) + e3) = e3).
  { unfold fexp, emin, prec, emax. lia. }
  assert (Hv : (inject_Z (Zpos M) * pow2 ez == inject_Z (Zpos m3) * pow2 e3)%Q).
  { rewrite HM, inject_Z_mult, (pow2_sub_Z e3 ez Hle). ring. }
  assert (HfexpM : fexp prec emax (Zpos (digits2_pos M) + ez) = e3).
  { pose proof (mantissa_ilog2 M ez) as HiM.
    pose proof (mantissa_ilog2 m3 e3) as Hi3.
    assert (HX : (0 < inject_Z (Zpos M) * pow2 ez)%Q).
    { apply Qmult_lt_0_compat; [reflexivity | apply pow2_pos]. }
    rewrite (ilog2_proper _ _ HX Hv) in HiM.
    unfold fexp, emin, prec, emax. lia. }
  unfold binary_round. rewrite HfexpM.
  assert (Hsa : shl_align M ez e3 = (M, ez)).
  { unfold shl_align. destruct (e3 - ez) eqn:E; try reflexivity. lia. }
  rewrite Hsa. unfold binary_round_aux.
  assert (Hshr : shr_fexp prec emax (Zpos M) ez loc_Exact =
                 (Build_shr_record (Zpos m3) false false, e3)).
  { unfold shr_fexp. cbn [Zdigits2 shr_record_of_loc]. rewrite HfexpM.
    unfold shr. rewrite HM. destruct (e3 - ez) as [|d|d] eqn:E; try lia.
    - replace e3 with ez by lia. rewrite Z.pow_0_r, Z.mul_1_r. reflexivity.
    - rewrite shr_zero_bits by lia. f_equal. lia. }
  rewrite Hshr. cbn [shr_m loc_of_shr_record round_nearest_even].
  assert (Hshr2 : shr_fexp prec emax (Zpos m3) e3 loc_Exact =
                  (Build_shr_record (Zpos m3) false false, e3)).
  { unfold shr_fexp. cbn [Zdigits2 shr_record_of_loc]. rewrite Hfexp3.
    rewrite Z.sub_diag. reflexivity. }
  rewrite Hshr2. cbn [shr_m].
  replace (e3 <=? emax - prec) with true; [reflexivity|].
  symmetry. apply Z.leb_le. unfold emax, prec. lia.
Qed.

(** When the sum of two positive Numbers is a Number, [+] returns it. *)
Lemma add_exact (m1 m2 m3 : positive) (e1 e2 e3 : Z) :
  bounded prec emax m1 e1 = true -> bounded prec emax m2 e2 = true ->
  bounded prec emax m3 e3 = true ->
  (inject_Z (Zpos m1) * pow2 e1 + inject_Z (Zpos m2) * pow2 e2 ==
   inject_Z (Zpos m3) * pow2 e3)%Q ->
  add (S754_finite false m1 e1) (S754_finite false m2 e2) =
  S754_finite false m3 e3.
Proof.
  intros H1 H2 H3 Hsum.
  pose proof (canonical_exponent m1 e1 H1) as C1.
  pose proof (canonical_exponent m2 e2 H2) as C2.
  pose proof (canonical_exponent m3 e3 H3) as C3.
  set (X1 := (inject_Z (Zpos m1) * pow2 e1)%Q) in *.
  set (X2 := (inject_Z (Zpos m2) * pow2 e2)%Q) in *.
  set (X3 := (inject_Z (Zpos m3) * pow2 e3)%Q) in *.
  assert (P1 : (0 < X1)%Q) by (apply Qmult_lt_0_compat; [reflexivity | apply pow2_pos]).
  assert (P2 : (0 < X2)%Q) by (apply Qmult_lt_0_compat; [reflexivity | apply pow2_pos]).
  pose proof (ilog2_le X1 X3 P1 ltac:(lra)) as L1.
  pose proof (ilog2_le X2 X3 P2 ltac:(lra)) as L2.
  set (ez := Z.min e1 e2).
  assert (Hez : ez <= e1 /\ ez <= e2 /\ ez <= e3) by (unfold ez; lia).
  destruct Hez as [Hz1 [Hz2 Hz3]].
  unfold add, SFadd. fold ez. cbn [cond_Zopp].
  rewrite (shl_align_value m1 e1 ez Hz1), (shl_align_value m2 e2 ez Hz2).
  assert (Hp1 : 0 < 2 ^ (e1 - ez)) by (apply Z.pow_pos_nonneg; lia).
  assert (Hp2 : 0 < 2 ^ (e2 - ez)) by (apply Z.pow_pos_nonneg; lia).
  destruct (Zpos m1 * 2 ^ (e1 - ez) + Zpos m2 * 2 ^ (e2 - ez)) as [|M|M] eqn:EM;
    try lia.
  cbn [binary_normalize]. apply binary_round_exact; try assumption.
  rewrite <- EM.
  assert (HQ : (inject_Z (Zpos m1 * 2 ^ (e1 - ez) + Zpos m2 * 2 ^ (e2 - ez)) * pow2 ez ==
                inject_Z (Zpos m3 * 2 ^ (e3 - ez)) * pow2 ez)%Q).
  { rewrite inject_Z_plus, !inject_Z_mult.
    transitivity (X1 + X2)%Q.
    - unfold X1, X2. rewrite (pow2_sub_Z e1 ez Hz1), (pow2_sub_Z e2 ez Hz2). ring.
    - rewrite Hsum. unfold X3. rewrite (pow2_sub_Z e3 ez Hz3). ring. }
  pose proof (pow2_pos ez) as Hpz.
  apply Qmult_inj_r in HQ; [|lra].
  unfold Qeq, inject_Z in HQ. cbn [Qnum Qden] in HQ. lia.
Qed.

(** [+] is exact on whole Numbers as long as the sum does not exceed
    [2^53]. *)
Lemma add_of_Z (a b : Z) :
  0 <= a -> 0 <= b -> a + b <= 2 ^ 53 ->
  add (of_Z a) (of_Z b) = of_Z (a + b).
Proof.
  intros Ha Hb Hab.
  destruct (Z.eq_dec a 0) as [-> | Ha0].
  { destruct (Z.eq_dec b 0) as [-> | Hb0]; [reflexivity|].
    destruct (of_Z_fields b ltac:(lia)) as [m [e [_ [E _]]]].
    rewrite Z.add_0_l, E. reflexivity. }
  destruct (Z.eq_dec b 0) as [-> | Hb0].
  { destruct (of_Z_fields a ltac:(lia)) as [m [e [_ [E _]]]].
    rewrite Z.add_0_r, E. reflexivity. }
  destruct (of_Z_fields a ltac:(lia)) as [m1 [e1 [H1 [-> V1]]]].
  destruct (of_Z_fields b ltac:(lia)) as [m2 [e2 [H2 [-> V2]]]].
  destruct (of_Z_fields (a + b) ltac:(lia)) as [m3 [e3 [H3 [-> V3]]]].
  apply add_exact; try assumption.
  rewrite V1, V2, V3, inject_Z_plus. reflexivity.
Qed.

End ExactAddition.

(** ** Rounding next to zero and next to the ceiling *)

Section Thresholds.

Local Open Scope Z_scope.

Lemma Qfloor_unique (y : Q) (M : Z) :
  (inject_Z M <= y)%Q -> (y < inject_Z M + 1)%Q -> Qfloor y = M.
Proof.
  intros H1 H2.
  pose proof (Qfloor_le y) as F1. pose proof (Qlt_floor y) as F2.
  rewrite inject_Z_plus in F2. change (inject_Z 1) with 1%Q in F2.
  assert (A : (inject_Z M < inject_Z (Qfloor y + 1))%Q).
  { rewrite inject_Z_plus. change (inject_Z 1) with 1%Q. lra. }
  assert (B : (inject_Z (Qfloor y) < inject_Z (M + 1))%Q).
  { rewrite inject_Z_plus. change (inject_Z 1) with 1%Q. lra. }
  rewrite <- Zlt_Qlt in A, B. lia.
Qed.

(** [roundQ] once the exponent and the truncated mantissa are known. *)
Lemma roundQ_eval (sgn : bool) (X : Q) (E M : Z) :
  (pow2 E <= X)%Q -> (X < pow2 (E + 1))%Q ->
  let ex := Z.max (E - 52) (-1074) in
  (inject_Z M <= X / pow2 ex)%Q -> (X / pow2 ex < inject_Z M + 1)%Q ->
  roundQ sgn X =
  assemble sgn
    (match (X / pow2 ex - inject_Z M ?= 1 # 2)%Q with
     | Lt => M
     | Eq => if Z.even M then M else M + 1
     | Gt => M + 1
     end) ex.
Proof.
  intros H1 H2 ex H3 H4.
  assert (HX : (0 < X)%Q) by (pose proof (pow2_pos E); lra).
  unfold roundQ. rewrite (Qle_bool_false X 0 HX). cbv zeta.
  rewrite (ilog2_unique X E H1 H2). fold ex.
  rewrite (Qfloor_unique _ M H3 H4). reflexivity.
Qed.

Lemma roundQ_tiny (sgn : bool) (X : Q) :
  (X <= zero_threshold)%Q -> roundQ sgn X = S754_zero sgn.
Proof.
  intro H. destruct (Qle_bool X 0) eqn:H0.
  { unfold roundQ. now rewrite H0. }
  apply Qle_bool_false_inv in H0.
  pose proof (ilog2_spec X H0) as [L1 L2].
  assert (HE : ilog2 X <= -1075).
  { assert (ilog2 X < -1075 + 1); [|lia]. apply pow2_lt_inv.
    unfold zero_threshold in H. change (-1075 + 1) with (-1074).
    pose proof (pow2_lt (-1075) (-1074) ltac:(lia)). lra. }
  pose proof (pow2_pos (-1074)) as P.
  assert (HP : (pow2 (-1074) == 2 * zero_threshold)%Q).
  { unfold zero_threshold. rewrite <- pow2_succ. reflexivity. }
  rewrite (roundQ_eval sgn X (ilog2 X) 0 L1 L2).
  - replace (Z.max (ilog2 X - 52) (-1074)) with (-1074) by lia.
    destruct (_ ?= _)%Q eqn:C; try reflexivity.
    rewrite <- Qgt_alt in C.
    assert (Hd : (X / pow2 (-1074) <= 1 # 2)%Q).
    { apply Qle_shift_div_r; [assumption|]. lra. }
    change (inject_Z 0) with 0%Q in C. lra.
  - replace (Z.max (ilog2 X - 52) (-1074)) with (-1074) by lia.
    apply Qle_shift_div_l; [assumption|]. change (inject_Z 0) with 0%Q. lra.
  - replace (Z.max (ilog2 X - 52) (-1074)) with (-1074) by lia.
    apply Qlt_shift_div_r; [assumption|]. change (inject_Z 0) with 0%Q. lra.
Qed.

(** Above the threshold the result is not a zero. *)
Lemma roundQ_not_tiny (sgn : bool) (X : Q) :
  (zero_threshold < X)%Q ->
  roundQ sgn X = S754_infinity sgn \/
  exists p e, roundQ sgn X = S754_finite sgn p e.
Proof.
  intro H. pose proof (pow2_pos (-1075)) as P5. unfold zero_threshold in H.
  assert (H0 : (0 < X)%Q) by lra.
  rewrite (roundQ_with_sign sgn X).
  destruct (Qlt_le_dec X (pow2 (-1074))) as [Hlt | Hge].
  - assert (HP : (pow2 (-1074) == 2 * pow2 (-1075))%Q).
    { rewrite <- pow2_succ. reflexivity. }
    pose proof (pow2_pos (-1074)) as P.
    rewrite (roundQ_eval false X (-1075) 0).
    + change (Z.max (-1075 - 52) (-1074)) with (-1074).
      assert (C : (X / pow2 (-1074) - inject_Z 0 ?= 1 # 2)%Q = Gt).
      { rewrite <- Qgt_alt. change (inject_Z 0) with 0%Q.
        assert (Hd : (1 # 2 < X / pow2 (-1074))%Q).
        { apply Qlt_shift_div_l; [assumption|]. lra. }
        lra. }
      rewrite C. right. exists 1%positive, (-1074). reflexivity.
    + lra.
    + exact Hlt.
    + change (Z.max (-1075 - 52) (-1074)) with (-1074).
      apply Qle_shift_div_l; [assumption|]. change (inject_Z 0) with 0%Q. lra.
    + change (Z.max (-1075 - 52) (-1074)) with (-1074).
      apply Qlt_shift_div_r; [assumption|]. change (inject_Z 0) with 0%Q. lra.
  - destruct (roundQ_above X 1%positive (-1074) eq_refl) as [-> | [p [e [-> _]]]].
    + change (inject_Z 1) with 1%Q. lra.
    + now left.
    + right. now exists p, e.
Qed.

Lemma pow2_m23 : (pow2 (-23) == 1 # 8388608)%Q.
Proof. reflexivity. Qed.

Lemma pow2_m24 : (pow2 (-24) == 1 # 16777216)%Q.
Proof. reflexivity. Qed.

(** Between the ceiling and the next Number. *)
Lemma roundQ_near_ceiling (X : Q) :
  (inject_Z 1000000000 < X)%Q -> (X < inject_Z 1000000000 + pow2 (-23))%Q ->
  roundQ false X =
  if Qle_bool X ceiling_threshold then billion
  else S754_finite false 8388608000000001 (-23).
Proof.
  intros H1 H2. pose proof pow2_m23 as P23. pose proof pow2_m24 as P24.
  assert (Q29 : (pow2 29 == inject_Z 536870912)%Q) by reflexivity.
  assert (Q30 : (pow2 (29 + 1) == inject_Z 1073741824)%Q) by reflexivity.
  assert (C9 : (inject_Z 1000000000 == 1000000000)%Q) by reflexivity.
  assert (C29 : (inject_Z 536870912 == 536870912)%Q) by reflexivity.
  assert (C30 : (inject_Z 1073741824 == 1073741824)%Q) by reflexivity.
  assert (CM : (inject_Z 8388608000000000 == 8388608000000000)%Q) by reflexivity.
  assert (Hy : (X / pow2 (-23) == X * 8388608)%Q).
  { rewrite P23. field. }
  rewrite (roundQ_eval false X 29 8388608000000000).
  - change (Z.max (29 - 52) (-1074)) with (-23).
    destruct (Qle_bool X ceiling_threshold) eqn:T.
    + apply Qle_bool_iff in T. unfold ceiling_threshold in T.
      destruct (_ ?= _)%Q eqn:C; try reflexivity.
      rewrite <- Qgt_alt in C. lra.
    + apply Qle_bool_false_inv in T. unfold ceiling_threshold in T.
      assert (C : (X / pow2 (-23) - inject_Z 8388608000000000 ?= 1 # 2)%Q = Gt).
      { rewrite <- Qgt_alt. lra. }
      rewrite C. reflexivity.
  - lra.
  - lra.
  - change (Z.max (29 - 52) (-1074)) with (-23). lra.
  - change (Z.max (29 - 52) (-1074)) with (-23). lra.
Qed.

(** From [2^1024] on the result is an infinity. *)
Lemma roundQ_overflow (sgn : bool) (X : Q) :
  (pow2 1024 <= X)%Q -> roundQ sgn X = S754_infinity sgn.
Proof.
  intro H. pose proof (pow2_pos 1024) as P.
  assert (HX : (0 < X)%Q) by lra.
  assert (HE : 1024 <= ilog2 X).
  { rewrite <- (ilog2_unique (pow2 1024) 1024).
    - now apply ilog2_le.
    - lra.
    - apply pow2_lt. lia. }
  destruct (roundQ_form sgn X HX) as [m' [[Hlo _] [_ [_ ->]]]].
  destruct (scaled_bounds X HX) as [_ Hy]. cbv zeta in Hy.
  set (ex := Z.max (ilog2 X - 52) (-1074)) in *.
  assert (Hex : 972 <= ex) by (unfold ex; lia).
  destruct Hy as [Hy | Hy]; [lia|].
  apply Qfloor_resp_le in Hy. rewrite Qfloor_Z in Hy.
  assert (Hm : 2 ^ 52 <= m') by lia.
  unfold assemble. destruct m' as [|p|p]; try lia.
  replace (ex + 1 <=? 971) with false by (symmetry; apply Z.leb_gt; lia).
  replace (ex <=? 971) with false by (symmetry; apply Z.leb_gt; lia).
  now destruct (Z.pos p =? 2 ^ 53).
Qed.

End Thresholds.

Section RangeFacts.

Local Open Scope string_scope.
Local Open Scope Z_scope.

Lemma billion_fields : billion = S754_finite false 8388608000000000 (-23).
Proof. reflexivity. Qed.

Lemma billion_value :
  (inject_Z (Zpos 8388608000000000) * pow2 (-23) == inject_Z 1000000000)%Q.
Proof. reflexivity. Qed.

(** The two range tests of the currency validator on a rounded decimal. *)
Lemma currency_tests (V : Q) :
  lt (roundQ false V) zero = false /\
  gt (roundQ false V) billion = negb (Qle_bool V ceiling_threshold).
Proof.
  split; [apply round_not_negative|].
  pose proof pow2_m23 as P23. pose proof pow2_m24 as P24.
  pose proof billion_value as BV.
  assert (C9 : (inject_Z 1000000000 == 1000000000)%Q) by reflexivity.
  destruct (Qlt_le_dec 0 V) as [Hpos | Hneg].
  - destruct (Qlt_le_dec (inject_Z 1000000000) V) as [Hhi | Hlo].
    + destruct (Qlt_le_dec V (inject_Z 1000000000 + pow2 (-23))) as [Hn | Hf].
      * rewrite (roundQ_near_ceiling V Hhi Hn).
        destruct (Qle_bool V ceiling_threshold); reflexivity.
      * assert (Hb : bounded prec emax 8388608000000001 (-23) = true) by reflexivity.
        assert (Hv : (inject_Z (Zpos 8388608000000001) * pow2 (-23) ==
                      inject_Z 1000000000 + pow2 (-23))%Q) by reflexivity.
        destruct (round_above_Number V 8388608000000001 8388608000000000
                    (-23) (-23) Hb eq_refl) as [_ Hgt].
        { rewrite Hv. exact Hf. }
        { rewrite Hv, BV. lra. }
        rewrite billion_fields, Hgt by (rewrite Hv, BV; lra).
        rewrite Qle_bool_false; [reflexivity|].
        unfold ceiling_threshold. lra.
    + destruct (round_below_Number V 8388608000000000 8388608000000000
                  (-23) (-23) Hpos eq_refl eq_refl) as [Hgt _].
      { rewrite BV. exact Hlo. }
      { lra. }
      rewrite billion_fields, Hgt.
      assert (T : Qle_bool V ceiling_threshold = true).
      { apply Qle_bool_iff. unfold ceiling_threshold. lra. }
      now rewrite T.
  - assert (Z0 : roundQ false V = S754_zero false).
    { unfold roundQ. assert (T : Qle_bool V 0 = true) by now apply Qle_bool_iff.
      now rewrite T. }
    rewrite Z0.
    assert (T : Qle_bool V ceiling_threshold = true).
    { apply Qle_bool_iff. unfold ceiling_threshold. lra. }
    now rewrite T.
Qed.

(** The same tests on a decimal read with a minus sign. *)
Lemma negative_tests (V : Q) :
  if Qle_bool V zero_threshold then roundQ true V = S754_zero true
  else lt (roundQ true V) zero = true.
Proof.
  destruct (Qle_bool V zero_threshold) eqn:T.
  - apply Qle_bool_iff in T. now apply roundQ_tiny.
  - apply Qle_bool_false_inv in T.
    destruct (roundQ_not_tiny true V T) as [-> | [p [e ->]]]; reflexivity.
Qed.

Lemma digits_value_nonneg (ds : list Z) :
  all_digits ds = true -> 0 <= digits_value ds.
Proof.
  induction ds as [|d ds IH] using rev_ind; intro H.
  - reflexivity.
  - rewrite all_digits_app in H. apply andb_prop in H. destruct H as [H1 H2].
    apply all_digits_cons in H2. destruct H2 as [Hd _].
    rewrite digits_value_app. change (digits_value [d]) with (10 * 0 + d).
    specialize (IH H1). pose proof (len_nonneg [d]).
    assert (0 < 10 ^ len [d]) by (apply Z.pow_pos_nonneg; lia). nia.
Qed.

Lemma of_Z_nonneg (n : Z) : 0 <= n -> of_Z n = roundQ false (inject_Z n).
Proof.
  intro H. unfold of_Z. replace (n <? 0) with false by (symmetry; apply Z.ltb_ge; lia).
  now rewrite Z.abs_eq.
Qed.

(** The two range tests of the integer validator on a rounded integer,
    against whole bounds. *)
Lemma integer_tests (s : bool) (n c : Z) :
  0 <= n -> 0 <= c < 2 ^ 53 ->
  lt (roundQ s (inject_Z n)) (of_Z c) = ((if s then - n else n) <? c) /\
  gt (roundQ s (inject_Z n)) (of_Z c) = (c <? (if s then - n else n)).
Proof.
  intros Hn Hc. destruct s; [|now apply round_integer_compare].
  destruct (Z.eq_dec n 0) as [-> | Hn0].
  - destruct (round_integer_compare 0 c ltac:(lia) Hc) as [H1 H2].
    change (roundQ false (inject_Z 0)) with (unsigned_zero (S754_zero true)) in H1, H2.
    rewrite lt_unsigned_zero in H1. rewrite gt_unsigned_zero in H2.
    change (roundQ true (inject_Z 0)) with (S754_zero true).
    now split.
  - assert (T : (zero_threshold < inject_Z n)%Q).
    { unfold zero_threshold. pose proof (pow2_lt (-1075) 0 ltac:(lia)) as P.
      change (pow2 0) with (inject_Z 1) in P.
      eapply Qlt_le_trans; [exact P|]. rewrite <- Zle_Qle. lia. }
    replace (- n <? c) with true by (symmetry; apply Z.ltb_lt; lia).
    replace (c <? - n) with false by (symmetry; apply Z.ltb_ge; lia).
    destruct (Z.eq_dec c 0) as [-> | Hc0].
    + destruct (roundQ_not_tiny true _ T) as [-> | [p [e ->]]]; split; reflexivity.
    + destruct (of_Z_fields c ltac:(lia)) as [m [e' [_ [-> _]]]].
      destruct (roundQ_not_tiny true _ T) as [-> | [p [e ->]]]; split; reflexivity.
Qed.

Lemma gt_Infinity (x : Number) : gt x Infinity = false.
Proof. destruct x as [[] | [] | | [] ? ?]; reflexivity. Qed.

Lemma validateCurrency_label (v : JsValue) (f : option string) :
  validateCurrency v f = validateCurrency v (Some (or_default "Value" f)).
Proof. destruct f; reflexivity. Qed.

Lemma validatePositiveInteger_defaults (tl : Number -> string) (v : JsValue)
  (f : option string) (o : option ValidationOptions.t) :
  validatePositiveInteger tl v f o =
  validatePositiveInteger tl v (Some (or_default "Value" f))
    (Some (or_default ValidationOptions.empty o)).
Proof. destruct f, o; reflexivity. Qed.

(** The currency validator on a numeral, by the tests on its value. *)
Lemma validateCurrency_tests (nm : Numeral) (t : string) (f : option string) :
  well_formed nm = true -> non_numeric t = true ->
  validateCurrency (VString (numeral_text nm ++ t)) f =
  Normal
    (if lt (numeral_value nm) zero then
       CurrencyResult.mk false zero
         (Some (or_default "Value" f ++ " cannot be negative"))
     else if gt (numeral_value nm) billion then
       CurrencyResult.mk false zero
         (Some (or_default "Value" f ++ " exceeds maximum allowed value"))
     else CurrencyResult.mk true (numeral_value nm) None).
Proof.
  intros Hwf Ht. rewrite validateCurrency_label.
  rewrite (validateCurrency_numeral nm t _ Hwf Ht).
  unfold currency_outcome, invalid_currency, valid_currency.
  rewrite billion_literal, zero_literal. reflexivity.
Qed.

(** The integer validator on a run of digits, by the tests on its
    value. *)
Lemma validatePositiveInteger_tests (tl : Number -> string) (sg : Sign)
  (ds : list Z) (t : string) (f : option string) (o : option ValidationOptions.t) :
  all_digits ds = true -> nonempty ds = true -> non_digit t = true ->
  let min := or_default zero (ValidationOptions.min (or_default ValidationOptions.empty o)) in
  let max := or_default Infinity (ValidationOptions.max (or_default ValidationOptions.empty o)) in
  let p := roundQ (is_minus sg) (inject_Z (digits_value ds)) in
  validatePositiveInteger tl
    (VString (sign_text sg ++ string_of_digits ds ++ t)) f o =
  Normal
    (if lt p min then
       IntegerResult.mk false None
         (Some (or_default "Value" f ++ " must be at least " ++ NumberToString min))
     else if gt p max then
       IntegerResult.mk false None
         (Some (or_default "Value" f ++ " must be at most " ++ tl max))
     else IntegerResult.mk true (Some p) None).
Proof.
  intros Hall Hne Ht min max p. rewrite validatePositiveInteger_defaults.
  rewrite (validatePositiveInteger_digits tl sg ds t _ _ Hall Hne Ht).
  unfold integer_outcome, invalid_integer, valid_integer.
  rewrite zero_literal. reflexivity.
Qed.

End RangeFacts.

Section AcceptanceRanges.

Local Open Scope string_scope.
Local Open Scope Z_scope.

Lemma numeral_value_exact (nm : Numeral) :
  numeral_value nm = roundQ (is_minus (sign nm)) (numeral_exact nm).
Proof. reflexivity. Qed.



(** X2.  Numerals written with a minus sign.  [validateCurrency] returns
    the cannot-be-negative error exactly when the decimal value after the
    sign is above 2^-1075; smaller values (among them every way of
    writing minus zero) read as the Number -0 and are accepted, with -0 as
    the value. *)
Theorem validateCurrency_minus_sign (nm : Numeral) (t : string)
  (f : option string) :
  well_formed nm = true -> non_numeric t = true ->
  is_minus (sign nm) = true ->
  validateCurrency (VString (numeral_text nm ++ t)) f =
  Normal
    (if Qle_bool (numeral_exact nm) zero_threshold then
       CurrencyResult.mk true (S754_zero true) None
     else
       CurrencyResult.mk false zero
         (Some (or_default "Value" f ++ " cannot be negative"))).
Proof.
  intros Hwf Ht Hs.
  rewrite (validateCurrency_tests nm t f Hwf Ht), numeral_value_exact, Hs.
  pose proof (negative_tests (numeral_exact nm)) as H.
  destruct (Qle_bool _ _).
  - rewrite H. reflexivity.
  - rewrite H. reflexivity.
Qed.

Lemma validateCurrency_minus_sign_witness :
  validateCurrency (VString "-0.01") (Some "Duties") =
  Normal (CurrencyResult.mk false zero (Some "Duties cannot be negative")).
Proof.
  apply (validateCurrency_minus_sign
           (Build_Numeral Minus [0] (Some [0; 1]) None)
           EmptyString (Some "Duties") eq_refl eq_refl eq_refl).
Defined.



(** X4.  The integers the integer validator accepts.  With whole bounds
    [min = a] and [max = b] (between 0 and 2^53), on an optional sign and
    at least one digit followed by anything that is not a digit,
    [validatePositiveInteger] compares the written integer itself: below
    [a] gives the at-least error, above [b] the at-most error, and from
    [a] to [b] a valid result, however many digits are written. *)
Theorem validatePositiveInteger_digit_range (toLocaleString : Number -> string)
  (sg : Sign) (ds : list Z) (t : string) (f : option string) (a b : Z)
  (allow : option bool) :
  all_digits ds = true -> nonempty ds = true -> non_digit t = true ->
  0 <= a < 2 ^ 53 -> 0 <= b < 2 ^ 53 ->
  validatePositiveInteger toLocaleString
    (VString (sign_text sg ++ string_of_digits ds ++ t)) f
    (Some (ValidationOptions.mk (Some (of_Z a)) (Some (of_Z b)) allow)) =
  Normal
    (if signed_value sg ds <? a then
       IntegerResult.mk false None
         (Some (or_default "Value" f ++ " must be at least " ++
                NumberToString (of_Z a)))
     else if b <? signed_value sg ds then
       IntegerResult.mk false None
         (Some (or_default "Value" f ++ " must be at most " ++
                toLocaleString (of_Z b)))
     else
       IntegerResult.mk true
         (Some (roundQ (is_minus sg) (inject_Z (digits_value ds)))) None).
Proof.
  intros Hall Hne Ht Ha Hb.
  rewrite (validatePositiveInteger_tests toLocaleString sg ds t f _ Hall Hne Ht).
  cbn [or_default ValidationOptions.min ValidationOptions.max].
  pose proof (digits_value_nonneg ds Hall) as Hn.
  destruct (integer_tests (is_minus sg) (digits_value ds) a Hn Ha) as [-> _].
  destruct (integer_tests (is_minus sg) (digits_value ds) b Hn Hb) as [_ ->].
  reflexivity.
Qed.

Lemma validatePositiveInteger_digit_range_witness :
  validatePositiveInteger toLocaleString_enUS (VString "+12 pcs")
    (Some "Quantity")
    (Some (ValidationOptions.mk (Some (of_Z 1)) (Some (of_Z 10)) None)) =
  Normal (IntegerResult.mk false None (Some "Quantity must be at most 10")).
Proof.
  apply (validatePositiveInteger_digit_range toLocaleString_enUS
           Plus [1; 2] " pcs" (Some "Quantity") 1 10 None
           eq_refl eq_refl eq_refl); lia.
Defined.

(** X5.  [validateOdometer] accepts a written integer exactly when it is
    between 0 and 10000000: on an optional sign and digits, followed by
    anything that is not a digit, a negative integer gives the
    must-be-at-least-0 error, an integer above ten million the at-most
    error with the bound in the host's locale, and every other one a valid
    result. *)
Theorem validateOdometer_digit_range (toLocaleString : Number -> string)
  (sg : Sign) (ds : list Z) (t : string) (f : option string) :
  all_digits ds = true -> nonempty ds = true -> non_digit t = true ->
  validateOdometer toLocaleString
    (VString (sign_text sg ++ string_of_digits ds ++ t)) f =
  Normal
    (if signed_value sg ds <? 0 then
       IntegerResult.mk false None
         (Some (or_default "Odometer" f ++ " must be at least 0"))
     else if 10000000 <? signed_value sg ds then
       IntegerResult.mk false None
         (Some (or_default "Odometer" f ++ " must be at most " ++
                toLocaleString (of_Z 10000000)))
     else
       IntegerResult.mk true
         (Some (roundQ (is_minus sg) (inject_Z (digits_value ds)))) None).
Proof.
  intros Hall Hne Ht. unfold validateOdometer.
  rewrite (validatePositiveInteger_tests toLocaleString sg ds t _ _ Hall Hne Ht).
  cbn [or_default ValidationOptions.min ValidationOptions.max].
  pose proof (digits_value_nonneg ds Hall) as Hn.
  destruct (integer_tests (is_minus sg) (digits_value ds) 0 Hn ltac:(lia))
    as [-> _].
  destruct (integer_tests (is_minus sg) (digits_value ds) 10000000 Hn ltac:(lia))
    as [_ ->].
  reflexivity.
Qed.

Lemma validateOdometer_digit_range_witness :
  validateOdometer toLocaleString_enUS (VString "10000001") None =
  Normal (IntegerResult.mk false None
            (Some "Odometer must be at most 10,000,000")).
Proof.
  apply (validateOdometer_digit_range toLocaleString_enUS
           NoSign [1; 0; 0; 0; 0; 0; 0; 1] EmptyString None
           eq_refl eq_refl eq_refl).
Defined.

(** X6.  [validateYear] accepts a written integer exactly when it is
    between 1900 and the current year plus two, the sum being exact: with
    the clock at year [cy], a written integer below 1900 gives the
    must-be-at-least-1900 error, one above [cy + 2] the at-most error, and
    every other one a valid result. *)
Theorem validateYear_digit_range (toLocaleString : Number -> string)
  (cy : Z) (sg : Sign) (ds : list Z) (t : string) (f : option string) :
  all_digits ds = true -> nonempty ds = true -> non_digit t = true ->
  0 <= cy < 2 ^ 53 - 2 ->
  validateYear toLocaleString (of_Z cy)
    (VString (sign_text sg ++ string_of_digits ds ++ t)) f =
  Normal
    (if signed_value sg ds <? 1900 then
       IntegerResult.mk false None
         (Some (or_default "Year" f ++ " must be at least 1900"))
     else if cy + 2 <? signed_value sg ds then
       IntegerResult.mk false None
         (Some (or_default "Year" f ++ " must be at most " ++
                toLocaleString (of_Z (cy + 2))))
     else
       IntegerResult.mk true
         (Some (roundQ (is_minus sg) (inject_Z (digits_value ds)))) None).
Proof.
  intros Hall Hne Ht Hcy. unfold validateYear.
  rewrite (add_of_Z cy 2) by lia.
  rewrite (validatePositiveInteger_tests toLocaleString sg ds t _ _ Hall Hne Ht).
  cbn [or_default ValidationOptions.min ValidationOptions.max].
  pose proof (digits_value_nonneg ds Hall) as Hn.
  destruct (integer_tests (is_minus sg) (digits_value ds) 1900 Hn ltac:(lia))
    as [-> _].
  destruct (integer_tests (is_minus sg) (digits_value ds) (cy + 2) Hn ltac:(lia))
    as [_ ->].
  reflexivity.
Qed.

Lemma validateYear_digit_range_witness :
  validateYear toLocaleString_enUS (of_Z 2026) (VString "2028") None =
  Normal (IntegerResult.mk true (Some (of_Z 2028)) None).
Proof.
  apply (validateYear_digit_range toLocaleString_enUS 2026
           NoSign [2; 0; 2; 8] EmptyString None eq_refl eq_refl eq_refl); lia.
Defined.

(** X7.  With no options there is no upper limit.  On an optional sign
    and digits, followed by anything that is not a digit,
    [validatePositiveInteger] without options rejects only negative
    integers, with the must-be-at-least-0 error; every other written
    integer is valid, and one from [2^1024] on (too large for a finite
    Number) is returned as the valid value Infinity. *)
Theorem validatePositiveInteger_no_upper_limit
  (toLocaleString : Number -> string) (sg : Sign) (ds : list Z) (t : string)
  (f : option string) :
  all_digits ds = true -> nonempty ds = true -> non_digit t = true ->
  validatePositiveInteger toLocaleString
    (VString (sign_text sg ++ string_of_digits ds ++ t)) f None =
  Normal
    (if signed_value sg ds <? 0 then
       IntegerResult.mk false None
         (Some (or_default "Value" f ++ " must be at least 0"))
     else if 2 ^ 1024 <=? signed_value sg ds then
       IntegerResult.mk true (Some Infinity) None
     else
       IntegerResult.mk true
         (Some (roundQ (is_minus sg) (inject_Z (digits_value ds)))) None).
Proof.
  intros Hall Hne Ht.
  rewrite (validatePositiveInteger_tests toLocaleString sg ds t f None Hall Hne Ht).
  cbn [or_default ValidationOptions.empty ValidationOptions.min
       ValidationOptions.max].
  pose proof (digits_value_nonneg ds Hall) as Hn.
  destruct (integer_tests (is_minus sg) (digits_value ds) 0 Hn ltac:(lia)) as [H _].
  change (of_Z 0) with zero in H. rewrite H, gt_Infinity.
  unfold signed_value. destruct (_ <? 0); [reflexivity|].
  destruct (2 ^ 1024 <=? _) eqn:Hbig; [|reflexivity].
  apply Z.leb_le in Hbig.
  assert (Hp : 0 < 2 ^ 1024) by (apply Z.pow_pos_nonneg; lia).
  destruct (is_minus sg); [lia|].
  rewrite roundQ_overflow; [reflexivity|].
  rewrite (pow2_Z 1024) by lia. now rewrite <- Zle_Qle.
Qed.

Lemma validatePositiveInteger_no_upper_limit_witness :
  validatePositiveInteger toLocaleString_enUS
    (VString (string_of_digits (1 :: repeat 0 400))) None None =
  Normal (IntegerResult.mk true (Some Infinity) None).
Proof.
  apply (validatePositiveInteger_no_upper_limit toLocaleString_enUS NoSign
           (1 :: repeat 0 400) EmptyString None eq_refl eq_refl eq_refl).
Defined.

End AcceptanceRanges.

Section NumberInputs.

Local Open Scope string_scope.
Local Open Scope Z_scope.

(** X8.  A Number passed to [validateCurrency] is judged by its value:
    the conversion to a string and back that [parseFloat] makes loses
    nothing.  NaN gives the must-be-a-valid-number error, a negative
    Number (also -Infinity) the cannot-be-negative error, a Number above
    1000000000 (also Infinity) the exceeds-maximum error, and every other
    Number is returned as the value, -0 as 0. *)
Theorem validateCurrency_number (x : Number) (f : option string) :
  valid x = true ->
  validateCurrency (VNumber x) f =
  Normal
    (if isNaN x then
       CurrencyResult.mk false zero
         (Some (or_default "Value" f ++ " must be a valid number"))
     else if lt x zero then
       CurrencyResult.mk false zero
         (Some (or_default "Value" f ++ " cannot be negative"))
     else if gt x billion then
       CurrencyResult.mk false zero
         (Some (or_default "Value" f ++ " exceeds maximum allowed value"))
     else CurrencyResult.mk true (unsigned_zero x) None).
Proof.
  intro Hv. unfold validateCurrency, parseFloat. cbn [is_blank ToString].
  rewrite (parseFloat_NumberToString x Hv).
  rewrite isNaN_unsigned_zero, lt_unsigned_zero, gt_unsigned_zero.
  destruct (isNaN x); [reflexivity|].
  destruct (lt x zero); [reflexivity|].
  destruct (gt x billion); reflexivity.
Qed.

Lemma validateCurrency_number_witness :
  validateCurrency (VNumber (S754_infinity false)) (Some "Budget") =
  Normal (CurrencyResult.mk false zero
            (Some "Budget exceeds maximum allowed value")).
Proof.
  apply (validateCurrency_number (S754_infinity false) (Some "Budget") eq_refl).
Defined.

(** X9.  A whole Number of magnitude below 10^21 passed to
    [validatePositiveInteger] is judged by its value: below min gives the
    at-least error, above max the at-most error, and otherwise the Number
    is returned as the value, -0 as 0. *)
Theorem validatePositiveInteger_whole_number
  (toLocaleString : Number -> string) (x : Number) (f : option string)
  (o : option ValidationOptions.t) :
  valid x = true -> whole x -> below x (10 ^ 21) = true ->
  let min := or_default zero
               (ValidationOptions.min (or_default ValidationOptions.empty o)) in
  let max := or_default Infinity
               (ValidationOptions.max (or_default ValidationOptions.empty o)) in
  validatePositiveInteger toLocaleString (VNumber x) f o =
  Normal
    (if lt x min then
       IntegerResult.mk false None
         (Some (or_default "Value" f ++ " must be at least " ++
                NumberToString min))
     else if gt x max then
       IntegerResult.mk false None
         (Some (or_default "Value" f ++ " must be at most " ++
                toLocaleString max))
     else IntegerResult.mk true (Some (unsigned_zero x)) None).
Proof.
  intros Hv Hw Hb min max.
  assert (Hn : isNaN x = false) by (destruct x; [reflexivity.. | discriminate | reflexivity]).
  unfold validatePositiveInteger, parseInt. cbn [is_blank ToString].
  rewrite (parseInt_NumberToString x Hv Hw Hb).
  rewrite isNaN_unsigned_zero, lt_unsigned_zero, gt_unsigned_zero, Hn.
  fold min. fold max.
  destruct (lt x min); [reflexivity|].
  destruct (gt x max); reflexivity.
Qed.

Lemma validatePositiveInteger_whole_number_witness :
  validatePositiveInteger toLocaleString_enUS (VNumber (of_Z 1985))
    (Some "Year")
    (Some (ValidationOptions.mk (Some (of_Z 1900)) (Some (of_Z 2028)) None)) =
  Normal (IntegerResult.mk true (Some (of_Z 1985)) None).
Proof.
  apply (validatePositiveInteger_whole_number toLocaleString_enUS (of_Z 1985)
           (Some "Year")
           (Some (ValidationOptions.mk (Some (of_Z 1900)) (Some (of_Z 2028)) None))
           eq_refl (ex_intro _ 1985 eq_refl) eq_refl).
Defined.

End NumberInputs.

Section WhiteSpace.

Local Open Scope string_scope.

Lemma trim_start_all_space (s : string) :
  all_space s = true -> trim_start s = EmptyString.
Proof.
  induction s as [|c s IH]; [reflexivity|].
  cbn [all_space trim_start]. intro H. apply andb_prop in H.
  destruct H as [-> H]. now apply IH.
Qed.

Lemma trim_start_leading (ws r : string) :
  all_space ws = true -> trim_start (ws ++ r) = trim_start r.
Proof.
  induction ws as [|c ws IH]; [reflexivity|].
  cbn [all_space]. intro H. apply andb_prop in H. destruct H as [Hc H].
  change (String c ws ++ r) with (String c (ws ++ r)).
  cbn [trim_start]. rewrite Hc. now apply IH.
Qed.

(** X10.  A string of white space is not an empty input.  Only the empty
    string, null and undefined take the empty branch: a non-empty string
    made of white space gets the must-be-a-valid-number error from both
    validators, whatever the options (also when empty values are
    allowed). *)
Theorem white_space_is_not_empty (toLocaleString : Number -> string)
  (c : ascii) (s : string) (f : option string)
  (o : option ValidationOptions.t) :
  all_space (String c s) = true ->
  validateCurrency (VString (String c s)) f =
    Normal (CurrencyResult.mk false zero
              (Some (or_default "Value" f ++ " must be a valid number"))) /\
  validatePositiveInteger toLocaleString (VString (String c s)) f o =
    Normal (IntegerResult.mk false None
              (Some (or_default "Value" f ++ " must be a valid number"))).
Proof.
  intro H. apply trim_start_all_space in H. split.
  - unfold validateCurrency, parseFloat, parseFloat_str.
    cbn [is_blank ToString]. rewrite H. reflexivity.
  - unfold validatePositiveInteger, parseInt, parseInt_str.
    cbn [is_blank ToString]. rewrite H. reflexivity.
Qed.

Lemma white_space_is_not_empty_witness :
  validateCurrency (VString "  ") (Some "Price") =
    Normal (CurrencyResult.mk false zero (Some "Price must be a valid number")) /\
  validatePositiveInteger toLocaleString_enUS (VString "  ") (Some "Price")
    (Some (ValidationOptions.mk None None (Some true))) =
    Normal (IntegerResult.mk false None (Some "Price must be a valid number")).
Proof.
  apply (white_space_is_not_empty toLocaleString_enUS " "%char " "
           (Some "Price") (Some (ValidationOptions.mk None None (Some true)))
           eq_refl).
Defined.

End WhiteSpace.

Section WhiteSpaceLeading.

Local Open Scope string_scope.

(** X11.  White space in front of an input is ignored: both validators
    return for white space followed by a non-empty string what they
    return for that string alone. *)
Theorem leading_white_space_ignored (toLocaleString : Number -> string)
  (ws : string) (c : ascii) (s : string) (f : option string)
  (o : option ValidationOptions.t) :
  all_space ws = true ->
  validateCurrency (VString (ws ++ String c s)) f =
    validateCurrency (VString (String c s)) f /\
  validatePositiveInteger toLocaleString (VString (ws ++ String c s)) f o =
    validatePositiveInteger toLocaleString (VString (String c s)) f o.
Proof.
  intro H.
  assert (Hb : is_blank (VString (ws ++ String c s)) = false)
    by (destruct ws; reflexivity).
  pose proof (trim_start_leading ws (String c s) H) as Ht.
  split.
  - unfold validateCurrency, parseFloat, parseFloat_str.
    cbn [ToString]. rewrite Hb, Ht. reflexivity.
  - unfold validatePositiveInteger, parseInt, parseInt_str.
    cbn [ToString]. rewrite Hb, Ht. reflexivity.
Qed.

Lemma leading_white_space_ignored_witness :
  validateCurrency (VString "  12.5") None =
    validateCurrency (VString "12.5") None /\
  validatePositiveInteger toLocaleString_enUS (VString "  12.5") None None =
    validatePositiveInteger toLocaleString_enUS (VString "12.5") None None.
Proof.
  apply (leading_white_space_ignored toLocaleString_enUS "  " "1"%char "2.5"
           None None eq_refl).
Defined.

End WhiteSpaceLeading.

Section ReturnedValues.

Local Open Scope string_scope.
Local Open Scope Z_scope.

(** A Number that passes the three tests of the currency validator. *)
Lemma accepted_in_range (p : Number) :
  valid p = true -> isNaN p = false -> lt p zero = false ->
  gt p billion = false -> in_currency_range p = true.
Proof.
  intros Hv Hn Hl Hg. destruct p as [s | [] | | [] m e]; try reflexivity;
    try discriminate.
  cbn [in_currency_range]. unfold gt, SFltb in Hg.
  rewrite billion_fields in Hg.
  rewrite (finite_compare 8388608000000000 m (-23) e eq_refl Hv) in Hg.
  rewrite billion_value in Hg.
  apply Qle_bool_iff.
  destruct (_ ?= _)%Q eqn:C; try discriminate.
  - apply Qeq_alt in C. lra.
  - apply Qgt_alt in C. lra.
Qed.

Lemma validateCurrency_range (v : JsValue) (f : option string)
  (r : CurrencyResult.t) :
  validateCurrency v f = Normal r ->
  in_currency_range (CurrencyResult.value r) = true.
Proof.
  unfold validateCurrency. destruct (is_blank v); [intros [= <-]; reflexivity|].
  destruct (parseFloat v) as [p | e] eqn:Hp; [|discriminate].
  apply parseFloat_valid in Hp.
  destruct (isNaN p) eqn:Hn; [intros [= <-]; reflexivity|].
  destruct (lt p zero) eqn:Hl; [intros [= <-]; reflexivity|].
  destruct (gt p billion) eqn:Hg; intros [= <-]; [reflexivity|].
  now apply accepted_in_range.
Qed.

(** X12.  Every amount handed back is a zero or a finite Number between 0
    and 1000000000, never NaN, an infinity or a negative Number: the
    value of every result of [validateCurrency] (valid or not, for every
    input and label), the value of every result of [validateBudget], and
    the price, shipping and duties of every cost bundle returned by
    [validatePartCosts]. *)
Theorem returned_amounts_in_range :
  (forall (v : JsValue) (f : option string) (r : CurrencyResult.t),
      validateCurrency v f = Normal r ->
      in_currency_range (CurrencyResult.value r) = true) /\
  (forall (T : Type) (budget : JsValue) (toast : option (Toast T))
          (st st' : T) (r : BudgetResult.t),
      validateBudget budget toast st = (Normal r, st') ->
      in_currency_range (BudgetResult.value r) = true) /\
  (forall (T : Type) (costs : Costs.t) (toast : option (Toast T))
          (st st' : T) (r : PartCostsResult.t) (b : CostBundle.t),
      validatePartCosts costs toast st = (Normal r, st') ->
      PartCostsResult.values r = Some b ->
      in_currency_range (CostBundle.price b) = true /\
      in_currency_range (CostBundle.shipping b) = true /\
      in_currency_range (CostBundle.duties b) = true).
Proof.
  split; [|split].
  - apply validateCurrency_range.
  - intros T budget toast st st' r.
    unfold validateBudget, bind, lift, warn, ret.
    destruct (validateCurrency budget (Some "Budget")) as [rb | e] eqn:Hb;
      [|discriminate].
    apply validateCurrency_range in Hb.
    destruct (CurrencyResult.isValid rb); cbn [negb].
    + intros [= <- _]. exact Hb.
    + destruct toast; intros [= <- _]; reflexivity.
  - intros T costs toast st st' r b.
    unfold validatePartCosts, bind, lift, warn, ret.
    destruct (validateCurrency (Costs.price costs) _) as [rp | e] eqn:Hp;
      [|discriminate].
    apply validateCurrency_range in Hp.
    destruct (CurrencyResult.isValid rp); cbn [negb];
      [|destruct toast; intros [= <- _]; discriminate].
    destruct (validateCurrency (Costs.shipping costs) _) as [rs | e] eqn:Hs;
      [|discriminate].
    apply validateCurrency_range in Hs.
    destruct (CurrencyResult.isValid rs); cbn [negb];
      [|destruct toast; intros [= <- _]; discriminate].
    destruct (validateCurrency (Costs.duties costs) _) as [rd | e] eqn:Hd;
      [|discriminate].
    apply validateCurrency_range in Hd.
    destruct (CurrencyResult.isValid rd); cbn [negb];
      [|destruct toast; intros [= <- _]; discriminate].
    intros [= <- _] [= <-]. now repeat split.
Qed.

Lemma returned_amounts_in_range_witness :
  in_currency_range (parseFloat_str "12.5") = true /\
  in_currency_range zero = true.
Proof.
  split.
  - apply (proj1 returned_amounts_in_range (VString "12.5") (Some "Price")
             (CurrencyResult.mk true (parseFloat_str "12.5") None)).
    vm_compute. reflexivity.
  - apply (proj1 (proj2 returned_amounts_in_range) (list (option string))
             (VString "-5") (Some recorder) []
             [Some "Budget cannot be negative"] (BudgetResult.mk false zero)).
    vm_compute. reflexivity.
Defined.

End ReturnedValues.

Section WholeValues.

Local Open Scope string_scope.
Local Open Scope Z_scope.

(** X13.  The integer validator never hands back NaN or a Number with a
    fractional part.  Whatever the input (a decimal string, a fractional
    Number), label and options, a value that is not null belongs to a
    valid result and is a zero, a whole Number or an infinity. *)
Theorem validatePositiveInteger_value_whole
  (toLocaleString : Number -> string) (v : JsValue) (f : option string)
  (o : option ValidationOptions.t) (r : IntegerResult.t) (p : Number) :
  validatePositiveInteger toLocaleString v f o = Normal r ->
  IntegerResult.value r = Some p ->
  IntegerResult.isValid r = true /\ isNaN p = false /\ whole p.
Proof.
  unfold validatePositiveInteger. destruct (is_blank v).
  { destruct (or_default true _); intros [= <-]; discriminate. }
  destruct (parseInt v) as [q | e] eqn:Hq; [|discriminate].
  apply parseInt_shape in Hq. destruct Hq as [_ Hw].
  destruct (isNaN q) eqn:Hn; [intros [= <-]; discriminate|].
  destruct (lt q _); [intros [= <-]; discriminate|].
  destruct (gt q _); intros [= <-]; [discriminate|].
  intros [= <-]. now repeat split.
Qed.

Lemma validatePositiveInteger_value_whole_witness :
  IntegerResult.isValid (IntegerResult.mk true (Some (of_Z 3)) None) = true /\
  isNaN (of_Z 3) = false /\ whole (of_Z 3).
Proof.
  apply (validatePositiveInteger_value_whole toLocaleString_enUS
           (VString "3.99") None None
           (IntegerResult.mk true (Some (of_Z 3)) None) (of_Z 3));
    vm_compute; reflexivity.
Defined.

End WholeValues.

Section Totals.

Local Open Scope string_scope.
Local Open Scope Z_scope.

(** The currency validator on a whole amount. *)
Lemma validateCurrency_whole (ds : list Z) (f : option string) :
  all_digits ds = true -> nonempty ds = true ->
  digits_value ds <= 1000000000 ->
  validateCurrency (VString (string_of_digits ds)) f =
  Normal (CurrencyResult.mk true (of_Z (digits_value ds)) None).
Proof.
  intros Hall Hne Hle.
  pose proof (digits_value_nonneg ds Hall) as Hn.
  set (nm := Build_Numeral NoSign ds None None).
  assert (Htext : numeral_text nm ++ EmptyString = string_of_digits ds).
  { unfold numeral_text, unsigned_text, nm, frac_text, exp_text.
    cbn [sign int_part frac_part exp_part sign_text].
    change (EmptyString ++ ?x) with x.
    now rewrite !string_app_empty. }
  assert (Hwf : well_formed nm = true).
  { unfold well_formed, nm, frac_digits. cbn [int_part frac_part exp_part].
    rewrite app_nil_r, Hall, Hne. reflexivity. }
  assert (Hv : (numeral_exact nm == inject_Z (digits_value ds))%Q).
  { unfold numeral_exact, nm, frac_digits, exp_value.
    cbn [int_part frac_part exp_part]. rewrite app_nil_r.
    change (pow10 (0 - len [])) with 1%Q. lra. }
  rewrite <- Htext, (validateCurrency_tests nm EmptyString f Hwf eq_refl).
  rewrite numeral_value_exact. cbn [nm sign is_minus].
  rewrite (roundQ_proper false _ _ Hv).
  destruct (currency_tests (inject_Z (digits_value ds))) as [-> ->].
  assert (T : Qle_bool (inject_Z (digits_value ds)) ceiling_threshold = true).
  { apply Qle_bool_iff. unfold ceiling_threshold.
    pose proof (pow2_pos (-24)).
    assert ((inject_Z (digits_value ds) <= inject_Z 1000000000)%Q)
      by now rewrite <- Zle_Qle.
    lra. }
  rewrite T. cbn [negb]. now rewrite of_Z_nonneg.
Qed.

(** X14.  The total of whole amounts is exact.  When price, shipping and
    duties are written as whole numbers of at most 1000000000 each,
    [validatePartCosts] returns a valid bundle whose total is the integer
    sum of the three, without any rounding, and leaves the sink
    untouched. *)
Theorem validatePartCosts_whole_total (T : Type) (toast : option (Toast T))
  (st : T) (ps ss ds : list Z) :
  all_digits ps = true -> nonempty ps = true ->
  all_digits ss = true -> nonempty ss = true ->
  all_digits ds = true -> nonempty ds = true ->
  digits_value ps <= 1000000000 -> digits_value ss <= 1000000000 ->
  digits_value ds <= 1000000000 ->
  validatePartCosts
    (Costs.mk (VString (string_of_digits ps)) (VString (string_of_digits ss))
       (VString (string_of_digits ds))) toast st =
  (Normal
     (PartCostsResult.mk true
        (Some (CostBundle.mk
                 (of_Z (digits_value ps)) (of_Z (digits_value ss))
                 (of_Z (digits_value ds))
                 (of_Z (digits_value ps + digits_value ss + digits_value ds))))),
   st).
Proof.
  intros Ap Np As Ns Ad Nd Lp Ls Ld.
  pose proof (digits_value_nonneg ps Ap) as Hp.
  pose proof (digits_value_nonneg ss As) as Hs.
  pose proof (digits_value_nonneg ds Ad) as Hd.
  rewrite (validatePartCosts_valid T _ toast st
             (CurrencyResult.mk true (of_Z (digits_value ps)) None)
             (CurrencyResult.mk true (of_Z (digits_value ss)) None)
             (CurrencyResult.mk true (of_Z (digits_value ds)) None));
    try reflexivity; try (now apply validateCurrency_whole).
  cbn [CurrencyResult.value].
  rewrite (add_of_Z (digits_value ps) (digits_value ss)) by lia.
  rewrite (add_of_Z (digits_value ps + digits_value ss) (digits_value ds)) by lia.
  reflexivity.
Qed.

Lemma validatePartCosts_whole_total_witness :
  validatePartCosts
    (Costs.mk (VString "120") (VString "15") (VString "7")) (Some recorder) [] =
  (Normal
     (PartCostsResult.mk true
        (Some (CostBundle.mk (of_Z 120) (of_Z 15) (of_Z 7) (of_Z 142)))),
   []).
Proof.
  apply (validatePartCosts_whole_total (list (option string)) (Some recorder) []
           [1; 2; 0] [1; 5] [7]
           eq_refl eq_refl eq_refl eq_refl eq_refl eq_refl);
    unfold digits_value; simpl; lia.
Defined.

Lemma validateCurrency_blank (v : JsValue) (f : option string) :
  is_blank v = true ->
  validateCurrency v f = Normal (CurrencyResult.mk true zero None).
Proof. unfold validateCurrency. now intros ->. Qed.

Lemma add_zero_twice (x : Number) :
  in_currency_range x = true -> add (add x zero) zero = unsigned_zero x.
Proof. destruct x as [[] | | | [] m e]; try discriminate; reflexivity. Qed.

(** X15.  Fields left empty count as zero in the total.  When the price
    is valid and shipping and duties are each the empty string, null or
    undefined, [validatePartCosts] returns a valid bundle with shipping 0,
    duties 0 and the price as the total (0 when the price is -0), and
    leaves the sink untouched. *)
Theorem validatePartCosts_price_only (T : Type) (toast : option (Toast T))
  (st : T) (price shipping duties : JsValue) (r : CurrencyResult.t) :
  validateCurrency price (Some "Price") = Normal r ->
  CurrencyResult.isValid r = true ->
  is_blank shipping = true -> is_blank duties = true ->
  validatePartCosts (Costs.mk price shipping duties) toast st =
  (Normal
     (PartCostsResult.mk true
        (Some (CostBundle.mk (CurrencyResult.value r) zero zero
                 (unsigned_zero (CurrencyResult.value r))))),
   st).
Proof.
  intros Hp Hv Hs Hd.
  rewrite (validatePartCosts_valid T _ toast st r
             (CurrencyResult.mk true zero None)
             (CurrencyResult.mk true zero None));
    try assumption; try reflexivity; try (now apply validateCurrency_blank).
  cbn [CurrencyResult.value].
  now rewrite (add_zero_twice _ (validateCurrency_range _ _ _ Hp)).
Qed.

Lemma validatePartCosts_price_only_witness :
  validatePartCosts
    (Costs.mk (VString "12.5") (VString EmptyString) VUndefined)
    (Some recorder) [] =
  (Normal
     (PartCostsResult.mk true
        (Some (CostBundle.mk (parseFloat_str "12.5") zero zero
                 (parseFloat_str "12.5")))),
   []).
Proof.
  apply (validatePartCosts_price_only (list (option string)) (Some recorder) []
           (VString "12.5") (VString EmptyString) VUndefined
           (CurrencyResult.mk true (parseFloat_str "12.5") None));
    vm_compute; reflexivity.
Defined.

(** X16.  The budgets that raise a warning.  For a budget written as a
    well-formed numeral without a minus sign, [validateBudget] returns the
    nearest Number as a valid value, and sends nothing, when the decimal
    value is at most 1000000000 + 2^-24; above that it sends the one
    warning [Budget exceeds maximum allowed value] and returns the invalid
    result with value 0. *)
Theorem validateBudget_decimal_ceiling (T : Type) (toast : option (Toast T))
  (st : T) (nm : Numeral) (t : string) :
  well_formed nm = true -> non_numeric t = true ->
  is_minus (sign nm) = false ->
  validateBudget (VString (numeral_text nm ++ t)) toast st =
  if Qle_bool (numeral_exact nm) ceiling_threshold then
    (Normal (BudgetResult.mk true (roundQ false (numeral_exact nm))), st)
  else
    (Normal (BudgetResult.mk false zero),
     match toast with
     | Some sink =>
         warning sink (Some "Budget exceeds maximum allowed value") st
     | None => st
     end).
Proof.
  intros Hwf Ht Hs.
  pose proof (validateCurrency_tests nm t (Some "Budget") Hwf Ht) as H.
  rewrite numeral_value_exact, Hs in H.
  destruct (currency_tests (numeral_exact nm)) as [H1 H2].
  rewrite H1, H2 in H.
  rewrite (validateBudget_unfold T _ toast st _ H).
  destruct (Qle_bool _ _); reflexivity.
Qed.

Lemma validateBudget_decimal_ceiling_witness :
  validateBudget (VString "1e10") (Some recorder) [] =
  (Normal (BudgetResult.mk false zero),
   [Some "Budget exceeds maximum allowed value"]).
Proof.
  apply (validateBudget_decimal_ceiling (list (option string)) (Some recorder) []
           (Build_Numeral NoSign [1] None (Some (false, NoSign, [1; 0])))
           EmptyString eq_refl eq_refl eq_refl).
Defined.

End Totals.

Section LeadingText.

Local Open Scope string_scope.

Lemma starts_no_integer_plain (c : ascii) :
  starts_no_integer c = true ->
  is_space c = false /\ digit_of_ascii c = None /\
  c <> "+"%char /\ c <> "-"%char.
Proof.
  unfold starts_no_integer, is_digit. intro H. apply negb_true_iff in H.
  apply orb_false_elim in H. destruct H as [H Hm].
  apply orb_false_elim in H. destruct H as [H Hp].
  apply orb_false_elim in H. destruct H as [Hs Hd].
  apply Ascii.eqb_neq in Hm, Hp.
  destruct (digit_of_ascii c); [discriminate|]. now repeat split.
Qed.

Lemma split_sign_plain (c : ascii) (s : string) :
  c <> "+"%char -> c <> "-"%char ->
  split_sign (String c s) = (false, String c s).
Proof.
  intros Hp Hm. unfold split_sign.
  destruct c as [[] [] [] [] [] [] [] []]; try reflexivity; congruence.
Qed.

(** X17.  Text in front of a number is not skipped.  A string whose first
    character cannot start a decimal (a currency symbol or a letter, say;
    anything but white space, a sign, a digit, the dot and [I]) gets the
    must-be-a-valid-number error from [validateCurrency] whatever follows
    it, and a string whose first character is neither white space, a sign
    nor a digit gets it from [validatePositiveInteger], whatever the
    options. *)
Theorem leading_text_is_rejected (toLocaleString : Number -> string)
  (c : ascii) (s : string) (f : option string)
  (o : option ValidationOptions.t) :
  (starts_no_decimal c = true ->
   validateCurrency (VString (String c s)) f =
   Normal (CurrencyResult.mk false zero
             (Some (or_default "Value" f ++ " must be a valid number")))) /\
  (starts_no_integer c = true ->
   validatePositiveInteger toLocaleString (VString (String c s)) f o =
   Normal (IntegerResult.mk false None
             (Some (or_default "Value" f ++ " must be a valid number")))).
Proof.
  split.
  - unfold starts_no_decimal. intro H. apply andb_prop in H.
    destruct H as [Hi Hd]. apply negb_true_iff, orb_false_elim in Hd.
    destruct Hd as [Hdot HI].
    destruct (starts_no_integer_plain c Hi) as [Hs [Hg [Hp Hm]]].
    assert (E : parseFloat_str (String c s) = NaN).
    { unfold parseFloat_str. cbn [trim_start]. rewrite Hs.
      rewrite (split_sign_plain c s Hp Hm). unfold scan_unsigned.
      cbn [strip_prefix]. rewrite Ascii.eqb_sym, HI.
      cbn [span_digits]. rewrite Hg. unfold scan_fraction.
      destruct c as [[] [] [] [] [] [] [] []]; try reflexivity; discriminate. }
    unfold validateCurrency, parseFloat. cbn [is_blank ToString]. rewrite E.
    reflexivity.
  - intro Hi.
    destruct (starts_no_integer_plain c Hi) as [Hs [Hg [Hp Hm]]].
    assert (E : parseInt_str (String c s) = NaN).
    { unfold parseInt_str. cbn [trim_start]. rewrite Hs.
      rewrite (split_sign_plain c s Hp Hm). cbn [span_digits]. rewrite Hg.
      reflexivity. }
    unfold validatePositiveInteger, parseInt. cbn [is_blank ToString].
    rewrite E. reflexivity.
Qed.

Lemma leading_text_is_rejected_witness :
  validateCurrency (VString "$12.50") (Some "Price") =
    Normal (CurrencyResult.mk false zero
              (Some "Price must be a valid number")) /\
  validatePositiveInteger toLocaleString_enUS (VString "#42") (Some "Quantity")
    None =
    Normal (IntegerResult.mk false None
              (Some "Quantity must be a valid number")).
Proof.
  split.
  - apply (proj1 (leading_text_is_rejected toLocaleString_enUS "$"%char
                    "12.50" (Some "Price") None) eq_refl).
  - apply (proj2 (leading_text_is_rejected toLocaleString_enUS "#"%char
                    "42" (Some "Quantity") None) eq_refl).
Defined.

End LeadingText.

(* ===================================================================== *)
(** * Part IV: the validators on every input, by what the input writes *)
(* ===================================================================== *)

(** ** Reading the longest numeral *)

Section Scanning.

Local Open Scope string_scope.
Local Open Scope Z_scope.

Lemma span_digits_non_digit (s : string) :
  non_digit s = true -> span_digits s = ([], s).
Proof.
  destruct s as [|c s]; [reflexivity|]. cbn [non_digit span_digits].
  unfold is_digit. destruct (digit_of_ascii c); [discriminate | reflexivity].
Qed.

Lemma non_numeric_stops (nm : Numeral) (t : string) :
  non_numeric t = true -> stops nm t = true.
Proof.
  intro H. unfold stops. rewrite (non_numeric_non_digit t H).
  assert (He : starts_exponent t = false /\ starts_dot t = false).
  { destruct t as [|c t]; [now split|]. cbn [non_numeric] in H.
    apply negb_true_iff in H.
    apply orb_false_elim in H. destruct H as [H HE].
    apply orb_false_elim in H. destruct H as [H He].
    apply orb_false_elim in H. destruct H as [_ Hd].
    cbn [starts_exponent starts_dot]. now rewrite He, HE, Hd. }
  destruct He as [-> ->]. destruct (exp_part nm), (frac_part nm); reflexivity.
Qed.

Lemma scan_exponent_none (t : string) :
  starts_exponent t = false -> scan_exponent t = (0, t).
Proof.
  destruct t as [|c rest]; [reflexivity|]. cbn [starts_exponent].
  unfold scan_exponent. destruct (Ascii.eqb c "e" || Ascii.eqb c "E"); [|reflexivity].
  cbn [andb]. intro H. apply negb_false_iff in H.
  destruct (split_sign rest) as [neg rest']. cbn [snd] in H.
  now rewrite (span_digits_non_digit rest' H).
Qed.

Lemma stops_parts (nm : Numeral) (t : string) :
  stops nm t = true ->
  non_digit t = true /\
  (exp_part nm = None -> starts_exponent t = false) /\
  (exp_part nm = None -> frac_part nm = None -> starts_dot t = false).
Proof.
  unfold stops. intro H. apply andb_prop in H. destruct H as [Hd H].
  split; [assumption|].
  destruct (exp_part nm) as [x|]; [split; discriminate|].
  destruct (frac_part nm) as [fp|].
  - apply negb_true_iff in H. split; [easy | discriminate].
  - apply andb_prop in H. destruct H as [H1 H2].
    apply negb_true_iff in H1, H2. now split.
Qed.

(** The exponent of a numeral is read in full, whatever follows that is
    not a digit. *)
Lemma exp_text_scan_stops (nm : Numeral) (t : string) :
  well_formed nm = true -> stops nm t = true ->
  scan_exponent (exp_text nm ++ t) = (exp_value nm, t) /\
  non_digit (exp_text nm ++ t) = true /\
  (frac_part nm = None -> starts_dot (exp_text nm ++ t) = false).
Proof.
  intros Hwf Hst. destruct (well_formed_parts nm Hwf) as [_ [_ [_ He]]].
  destruct (stops_parts nm t Hst) as [Hnd [Hne Hdot]].
  unfold exp_text, exp_value in *.
  destruct (exp_part nm) as [[[upper sg] ds]|].
  - destruct He as [Hall Hnem].
    assert (Hsp : span_digits (string_of_digits ds ++ t) = (ds, t))
      by now apply span_digits_app.
    assert (Hsign : split_sign (sign_text sg ++ string_of_digits ds ++ t) =
                    (is_minus sg, string_of_digits ds ++ t)).
    { apply split_sign_text. intros c s' Hc.
      destruct (string_of_digits_head ds t Hall Hnem) as [c' [s0 [Heq Hd]]].
      rewrite Heq in Hc. injection Hc as -> ->.
      destruct (digit_char_plain c Hd) as [_ [Hp [Hm _]]]. now split. }
    assert (Hscan : forall c, Ascii.eqb c "e" || Ascii.eqb c "E" = true ->
              scan_exponent
                (String c (sign_text sg ++ string_of_digits ds ++ t)) =
              (if is_minus sg then - digits_value ds else digits_value ds, t)).
    { intros c Hc. rewrite (scan_exponent_marker c _ Hc), Hsign, Hsp.
      destruct ds; [discriminate | reflexivity]. }
    split; [|split].
    + rewrite !string_app_assoc. destruct upper; apply Hscan; reflexivity.
    + destruct upper; reflexivity.
    + intros _. destruct upper; reflexivity.
  - cbn [append]. split; [|split].
    + apply scan_exponent_none. now apply Hne.
    + assumption.
    + intro Hf. now apply Hdot.
Qed.

Lemma scan_fraction_no_dot (s : string) :
  starts_dot s = false -> scan_fraction s = ([], s).
Proof.
  destruct s as [|c r]; [reflexivity|]. cbn [starts_dot]. intro H.
  unfold scan_fraction.
  destruct c as [[] [] [] [] [] [] [] []]; try reflexivity; discriminate.
Qed.

Lemma frac_text_scan_stops (nm : Numeral) (t : string) :
  well_formed nm = true -> stops nm t = true ->
  scan_fraction (frac_text nm ++ exp_text nm ++ t) =
    (frac_digits nm, exp_text nm ++ t) /\
  non_digit (frac_text nm ++ exp_text nm ++ t) = true.
Proof.
  intros Hwf Hst.
  destruct (well_formed_parts nm Hwf) as [_ [Hf _]].
  destruct (exp_text_scan_stops nm t Hwf Hst) as [_ [Hnd Hdot]].
  unfold frac_text, frac_digits in *.
  destruct (frac_part nm) as [fp|].
  - split; [|reflexivity].
    change (("." ++ string_of_digits fp) ++ exp_text nm ++ t)
      with (String "." (string_of_digits fp ++ exp_text nm ++ t)).
    unfold scan_fraction. now apply span_digits_app.
  - split; [|exact Hnd]. apply scan_fraction_no_dot. now apply Hdot.
Qed.

(** Scanning a well-formed unsigned numeral reads all of it and stops
    where the numeral ends. *)
Lemma scan_unsigned_stops (sgn : bool) (nm : Numeral) (t : string) :
  well_formed nm = true -> stops nm t = true ->
  scan_unsigned sgn (unsigned_text nm ++ t) =
  (decimal_value sgn (int_part nm ++ frac_digits nm)
     (exp_value nm - len (frac_digits nm)), t).
Proof.
  intros Hwf Hst.
  destruct (well_formed_parts nm Hwf) as [Hi [_ [Hne _]]].
  destruct (unsigned_text_head nm t Hwf) as [c [s [Hhead Hc]]].
  destruct (starts_numeral_plain c Hc) as [_ [_ [_ HI]]].
  destruct (frac_text_scan_stops nm t Hwf Hst) as [Hfrac Hnd].
  destruct (exp_text_scan_stops nm t Hwf Hst) as [Hexp _].
  unfold scan_unsigned.
  rewrite Hhead, (strip_Infinity_none c s HI), <- Hhead.
  unfold unsigned_text. rewrite !string_app_assoc.
  rewrite (span_digits_app _ _ Hi Hnd), Hfrac.
  destruct (int_part nm ++ frac_digits nm)%list eqn:E; [discriminate|].
  rewrite Hexp. reflexivity.
Qed.

(** [parseFloat] skips white space, reads the longest numeral and ignores
    what follows it. *)
Lemma parseFloat_str_stops (ws : string) (nm : Numeral) (t : string) :
  all_space ws = true -> well_formed nm = true -> stops nm t = true ->
  parseFloat_str (ws ++ numeral_text nm ++ t) = numeral_value nm.
Proof.
  intros Hws Hwf Hst.
  destruct (unsigned_text_head nm t Hwf) as [c [s [Hhead Hc]]].
  destruct (starts_numeral_plain c Hc) as [Hsp [Hp [Hm _]]].
  unfold parseFloat_str, numeral_text, numeral_value.
  rewrite (trim_start_leading ws _ Hws), string_app_assoc.
  assert (Htrim : trim_start (sign_text (sign nm) ++ unsigned_text nm ++ t) =
                  sign_text (sign nm) ++ unsigned_text nm ++ t).
  { destruct (sign nm); simpl; try reflexivity.
    rewrite Hhead. now apply trim_start_plain. }
  rewrite Htrim, split_sign_text.
  - now rewrite scan_unsigned_stops.
  - intros c' s' Heq. rewrite Hhead in Heq. injection Heq as <- <-. now split.
Qed.

(** After the white space and the sign. *)
Lemma split_sign_bare (ws : string) (sg : Sign) (t : string) :
  all_space ws = true -> bare sg t = true ->
  split_sign (trim_start (ws ++ sign_text sg ++ t)) = (is_minus sg, t).
Proof.
  intros Hws Hb. rewrite (trim_start_leading ws _ Hws).
  destruct sg; [|reflexivity..].
  cbn [sign_text append is_minus]. destruct t as [|c t]; [reflexivity|].
  cbn [bare] in Hb. apply negb_true_iff in Hb.
  apply orb_false_elim in Hb. destruct Hb as [Hb Hm].
  apply orb_false_elim in Hb. destruct Hb as [Hs Hp].
  cbn [trim_start]. rewrite Hs. unfold split_sign.
  destruct c as [[] [] [] [] [] [] [] []]; try reflexivity; discriminate.
Qed.

Lemma scan_unsigned_no_decimal (sgn : bool) (t : string) :
  starts_decimal t = false -> fst (scan_unsigned sgn t) = NaN.
Proof.
  unfold starts_decimal. intro H. apply orb_false_elim in H.
  destruct H as [H HI]. unfold scan_unsigned.
  destruct (strip_prefix "Infinity" t); [discriminate|].
  destruct t as [|c rest]; [reflexivity|].
  apply orb_false_elim in H. destruct H as [Hd Hdot].
  cbn [span_digits]. unfold is_digit in Hd.
  destruct (digit_of_ascii c); [discriminate|].
  unfold scan_fraction.
  destruct c as [[] [] [] [] [] [] [] []]; try reflexivity.
  cbn [Ascii.eqb Bool.eqb andb] in Hdot. apply negb_false_iff in Hdot.
  now rewrite (span_digits_non_digit rest Hdot).
Qed.

(** Without a decimal after the white space and the sign, [parseFloat]
    gives NaN. *)
Lemma parseFloat_str_no_decimal (ws : string) (sg : Sign) (t : string) :
  all_space ws = true -> bare sg t = true -> starts_decimal t = false ->
  parseFloat_str (ws ++ sign_text sg ++ t) = NaN.
Proof.
  intros Hws Hb Hd. unfold parseFloat_str.
  rewrite (split_sign_bare ws sg t Hws Hb).
  now apply scan_unsigned_no_decimal.
Qed.

Lemma bare_Infinity (sg : Sign) (t : string) :
  bare sg ("Infinity" ++ t) = true.
Proof. destruct sg; reflexivity. Qed.

Lemma parseFloat_str_Infinity (ws : string) (sg : Sign) (t : string) :
  all_space ws = true ->
  parseFloat_str (ws ++ sign_text sg ++ "Infinity" ++ t) =
  S754_infinity (is_minus sg).
Proof.
  intro Hws. unfold parseFloat_str.
  rewrite (split_sign_bare ws sg _ Hws (bare_Infinity sg t)).
  reflexivity.
Qed.

(** [parseInt] skips white space and reads the digits after the sign. *)
Lemma parseInt_str_leading (ws : string) (sg : Sign) (ds : list Z) (t : string) :
  all_space ws = true ->
  all_digits ds = true -> nonempty ds = true -> non_digit t = true ->
  parseInt_str (ws ++ sign_text sg ++ string_of_digits ds ++ t) =
  roundQ (is_minus sg) (inject_Z (digits_value ds)).
Proof.
  intros Hws Hall Hne Ht.
  rewrite <- (parseInt_str_digits sg ds t Hall Hne Ht).
  unfold parseInt_str. now rewrite (trim_start_leading ws _ Hws).
Qed.

(** Without a digit after the white space and the sign, [parseInt] gives
    NaN. *)
Lemma parseInt_str_no_digit (ws : string) (sg : Sign) (t : string) :
  all_space ws = true -> bare sg t = true -> non_digit t = true ->
  parseInt_str (ws ++ sign_text sg ++ t) = NaN.
Proof.
  intros Hws Hb Hd. unfold parseInt_str.
  rewrite (split_sign_bare ws sg t Hws Hb).
  now rewrite (span_digits_non_digit t Hd).
Qed.

End Scanning.

Section PrintedIntegers.

Local Open Scope Z_scope.

Lemma digits_value_cons (d : Z) (ds : list Z) :
  digits_value (d :: ds) = d * 10 ^ len ds + digits_value ds.
Proof.
  change (d :: ds) with ([d] ++ ds)%list. rewrite digits_value_app.
  unfold digits_value at 1. cbn [fold_left]. lia.
Qed.

Lemma digits_value_below (ds : list Z) :
  all_digits ds = true -> digits_value ds < 10 ^ len ds.
Proof.
  induction ds as [|d ds IH]; intro H; [reflexivity|].
  apply all_digits_cons in H. destruct H as [Hd H].
  rewrite digits_value_cons. specialize (IH H).
  change (d :: ds) with ([d] ++ ds)%list. rewrite len_app.
  change (len [d]) with 1. pose proof (len_nonneg ds).
  rewrite Z.pow_add_r by lia. change (10 ^ 1) with 10.
  assert (0 < 10 ^ len ds) by (apply Z.pow_pos_nonneg; lia). nia.
Qed.

(** Two runs of digits of the same length that write the same integer
    are the same. *)
Lemma digits_value_inj (ds ds' : list Z) :
  all_digits ds = true -> all_digits ds' = true ->
  len ds = len ds' -> digits_value ds = digits_value ds' -> ds = ds'.
Proof.
  revert ds'. induction ds as [|d ds IH]; intros [|d' ds'] Ha Ha' Hl Hv;
    try reflexivity; try (unfold len in Hl; cbn in Hl; lia).
  apply all_digits_cons in Ha, Ha'. destruct Ha as [Hd Ha], Ha' as [Hd' Ha'].
  assert (Hl' : len ds = len ds') by (unfold len in *; cbn in Hl; lia).
  rewrite !digits_value_cons, <- Hl' in Hv.
  pose proof (digits_value_below ds Ha) as B.
  pose proof (digits_value_below ds' Ha') as B'. rewrite <- Hl' in B'.
  pose proof (digits_value_nonneg ds Ha) as N.
  pose proof (digits_value_nonneg ds' Ha') as N'.
  assert (0 < 10 ^ len ds) by (apply Z.pow_pos_nonneg; [lia | apply len_nonneg]).
  assert (d = d') by nia. subst d'.
  f_equal. apply IH; try assumption. lia.
Qed.

Lemma writes_unique (ds ds' : list Z) (n : Z) :
  writes ds n -> writes ds' n -> ds = ds'.
Proof.
  intros [Ha [Hv [Hl [Hu Hlo]]]] [Ha' [Hv' [Hl' [Hu' Hlo']]]].
  apply digits_value_inj; try assumption; [|congruence].
  destruct Hlo as [[H0 H1] | Hlo], Hlo' as [[H0' H1'] | Hlo']; try lia.
  assert (len ds - 1 < len ds') by (apply (Z.pow_lt_mono_r_iff 10); lia).
  assert (len ds' - 1 < len ds) by (apply (Z.pow_lt_mono_r_iff 10); lia).
  lia.
Qed.

Lemma writes_zeros (ds : list Z) (v : Z) (j : nat) :
  writes ds v -> 0 < v -> writes (ds ++ repeat 0 j) (v * 10 ^ Z.of_nat j).
Proof.
  intros [Ha [Hv [Hl [Hu Hlo]]]] Hpos.
  destruct Hlo as [[H0 _] | Hlo]; [lia|].
  assert (Hj : 0 < 10 ^ Z.of_nat j) by (apply Z.pow_pos_nonneg; lia).
  unfold writes. rewrite len_app, len_repeat.
  split; [|split; [|split; [|split]]].
  - now rewrite all_digits_app, Ha, all_digits_repeat.
  - rewrite digits_value_app, digits_value_repeat, len_repeat. lia.
  - lia.
  - rewrite Z.pow_add_r by lia. nia.
  - right. replace (len ds + Z.of_nat j - 1) with (len ds - 1 + Z.of_nat j) by lia.
    rewrite Z.pow_add_r by lia. nia.
Qed.

(** The digits chosen for a Number start with a digit that is not 0. *)
Lemma shortest_digits_writes (m : positive) (e : Z) :
  bounded prec emax m e = true ->
  writes (fst (shortest_digits m e)) (digits_value (fst (shortest_digits m e))) /\
  0 < digits_value (fst (shortest_digits m e)).
Proof.
  intro Hb. unfold shortest_digits.
  pose proof (exact_decimal_spec m e) as Hex.
  destruct (exact_decimal m e) as [s0 e0]. destruct Hex as [Hs0 _].
  destruct (search _ _ _ _ 1) as [[s n]|] eqn:Hs; cbn [fst].
  - destruct (search_sound _ _ _ _ _ _ _ Hs) as [k [Hk [Hc _]]].
    destruct (candidate_sound _ _ _ _ _ _ Hc) as [Hacc _].
    destruct (accepts_sound _ _ _ _ Hacc) as [Hsk _].
    assert (Hpos : 0 < 10 ^ (k - 1)) by (apply Z.pow_pos_nonneg; lia).
    pose proof (digits_of_spec s ltac:(lia)) as Hw.
    destruct Hw as [Hall [Hval Hrest]]. rewrite Hval.
    split; [|lia]. unfold writes. now rewrite Hval.
  - pose proof (digits_of_spec s0 ltac:(lia)) as Hw.
    destruct Hw as [Hall [Hval Hrest]]. rewrite Hval.
    split; [|lia]. unfold writes. now rewrite Hval.
Qed.

(** A whole value that rounds to a whole Number below [2^53] is that
    Number. *)
Lemma round_integer_inj (V a : Z) :
  0 <= V -> 0 <= a < 2 ^ 53 ->
  roundQ false (inject_Z V) = of_Z a -> V = a.
Proof.
  intros HV Ha H.
  destruct (round_integer_compare V a HV Ha) as [H1 H2].
  destruct (round_integer_compare a a ltac:(lia) Ha) as [H3 H4].
  rewrite <- of_Z_nonneg in H3, H4 by lia.
  rewrite H, H3 in H1. rewrite H, H4 in H2.
  rewrite Z.ltb_irrefl in H1, H2. symmetry in H1, H2.
  apply Z.ltb_ge in H1, H2. lia.
Qed.

(** The digits printed for a whole Number below [2^53], filled up with
    zeros, are the decimal digits of the integer. *)
Lemma shortest_digits_of_Z (a : Z) (m : positive) (e : Z) :
  0 < a < 2 ^ 53 -> bounded prec emax m e = true ->
  of_Z a = S754_finite false m e ->
  (inject_Z (Zpos m) * pow2 e == inject_Z a)%Q ->
  let (ds, n) := shortest_digits m e in
  len ds <= n <= 21 /\
  (ds ++ repeat 0 (Z.to_nat (n - len ds)))%list = digits_of a.
Proof.
  intros Ha Hb Hof Hval.
  assert (H21 : a < 10 ^ 21) by (change (2 ^ 53) with 9007199254740992 in Ha;
                                change (10 ^ 21) with 1000000000000000000000; lia).
  pose proof (shortest_digits_sound m e Hb) as Hs.
  pose proof (shortest_digits_whole m e a Hb Hval H21) as Hl.
  pose proof (shortest_digits_writes m e Hb) as Hw.
  destruct (shortest_digits m e) as [ds n]. cbn [fst] in Hw.
  destruct Hs as [Hall [Hne Hr]]. destruct Hl as [Hl1 Hl2]. destruct Hw as [Hw Hpos].
  split; [assumption|].
  set (j := Z.to_nat (n - len ds)).
  assert (Hj : Z.of_nat j = n - len ds) by (unfold j; lia).
  pose proof (writes_zeros ds _ j Hw Hpos) as Hwz.
  assert (HV : digits_value ds * 10 ^ Z.of_nat j = a).
  { apply round_integer_inj; [nia | lia|].
    rewrite Hof, <- Hr. apply roundQ_proper.
    rewrite inject_Z_mult, Hj, (pow10_Z (n - len ds)) by lia. reflexivity. }
  rewrite HV in Hwz.
  exact (writes_unique _ _ a Hwz (digits_of_spec a ltac:(lia))).
Qed.

Local Open Scope string_scope.

(** Printing a whole Number below [2^53] writes the decimal digits of the
    integer. *)
Lemma NumberToString_of_Z (a : Z) :
  0 <= a < 2 ^ 53 -> NumberToString (of_Z a) = string_of_digits (digits_of a).
Proof.
  intro Ha. destruct (Z.eq_dec a 0) as [-> | Ha0]; [reflexivity|].
  destruct (of_Z_fields a ltac:(lia)) as [m [e [Hb [Hof Hval]]]].
  pose proof (shortest_digits_of_Z a m e ltac:(lia) Hb Hof Hval) as H.
  rewrite Hof. unfold NumberToString.
  destruct (shortest_digits m e) as [ds n]. destruct H as [Hl H].
  pose proof (len_nonneg ds).
  unfold layout.
  replace ((-6 <? n) && (n <=? 21))%Z with true
    by (symmetry; apply andb_true_iff; split; [apply Z.ltb_lt | apply Z.leb_le]; lia).
  replace (len ds <=? n)%Z with true by (symmetry; apply Z.leb_le; lia).
  cbn [append]. now rewrite zeros_repeat, <- string_of_digits_app, H.
Qed.

(** In the en-US locale a whole Number below [2^53] is rendered by the
    decimal digits of the integer, grouped in threes. *)
Lemma toLocaleString_enUS_of_Z (b : Z) :
  0 <= b < 2 ^ 53 -> toLocaleString_enUS (of_Z b) = thousands b.
Proof.
  intro Hb0. destruct (Z.eq_dec b 0) as [-> | Hn0]; [reflexivity|].
  destruct (of_Z_fields b ltac:(lia)) as [m [e [Hb [Hof Hval]]]].
  pose proof (shortest_digits_of_Z b m e ltac:(lia) Hb Hof Hval) as H.
  rewrite Hof. unfold toLocaleString_enUS, thousands.
  destruct (shortest_digits m e) as [ds n]. destruct H as [Hl H].
  replace (len ds <=? n)%Z with true by (symmetry; apply Z.leb_le; lia).
  cbv zeta. rewrite H. reflexivity.
Qed.

End PrintedIntegers.

Section WrittenInputs.

Local Open Scope string_scope.
Local Open Scope Z_scope.

Lemma text_not_blank (s : string) :
  s <> EmptyString -> is_blank (VString s) = false.
Proof. destruct s; [congruence | reflexivity]. Qed.

Lemma leading_not_empty (ws : string) (c : ascii) (s : string) :
  ws ++ String c s <> EmptyString.
Proof. destruct ws; discriminate. Qed.

Lemma signed_not_empty (ws : string) (sg : Sign) (c : ascii) (s : string) :
  ws ++ sign_text sg ++ String c s <> EmptyString.
Proof. destruct ws; [destruct sg|]; discriminate. Qed.

(** [validateCurrency] on a string that is not empty, by the tests on
    what [parseFloat] reads. *)
Lemma validateCurrency_text (s : string) (f : option string) :
  s <> EmptyString ->
  validateCurrency (VString s) f =
  Normal
    (if isNaN (parseFloat_str s) then
       CurrencyResult.mk false zero
         (Some (or_default "Value" f ++ " must be a valid number"))
     else if lt (parseFloat_str s) zero then
       CurrencyResult.mk false zero
         (Some (or_default "Value" f ++ " cannot be negative"))
     else if gt (parseFloat_str s) billion then
       CurrencyResult.mk false zero
         (Some (or_default "Value" f ++ " exceeds maximum allowed value"))
     else CurrencyResult.mk true (parseFloat_str s) None).
Proof.
  intro H. unfold validateCurrency, parseFloat. cbn [ToString].
  rewrite (text_not_blank s H).
  destruct (isNaN _); [reflexivity|]. destruct (lt _ _); [reflexivity|].
  destruct (gt _ _); reflexivity.
Qed.

(** [validatePositiveInteger] on a string that is not empty, by the tests
    on what [parseInt] reads. *)
Lemma validatePositiveInteger_text (tl : Number -> string) (s : string)
  (f : option string) (o : option ValidationOptions.t) :
  s <> EmptyString ->
  validatePositiveInteger tl (VString s) f o =
  Normal
    (if isNaN (parseInt_str s) then
       IntegerResult.mk false None
         (Some (or_default "Value" f ++ " must be a valid number"))
     else if lt (parseInt_str s)
               (or_default zero
                  (ValidationOptions.min (or_default ValidationOptions.empty o)))
     then
       IntegerResult.mk false None
         (Some (or_default "Value" f ++ " must be at least " ++
                NumberToString
                  (or_default zero
                     (ValidationOptions.min
                        (or_default ValidationOptions.empty o)))))
     else if gt (parseInt_str s)
               (or_default Infinity
                  (ValidationOptions.max (or_default ValidationOptions.empty o)))
     then
       IntegerResult.mk false None
         (Some (or_default "Value" f ++ " must be at most " ++
                tl (or_default Infinity
                      (ValidationOptions.max
                         (or_default ValidationOptions.empty o)))))
     else IntegerResult.mk true (Some (parseInt_str s)) None).
Proof.
  intro H. unfold validatePositiveInteger, parseInt. cbn [ToString].
  rewrite (text_not_blank s H).
  destruct (isNaN _); [reflexivity|]. destruct (lt _ _); [reflexivity|].
  destruct (gt _ _); reflexivity.
Qed.

(** The currency validator on white space, a numeral and what follows
    it, by the written value. *)
Lemma validateCurrency_written (ws : string) (nm : Numeral) (t : string)
  (f : option string) :
  all_space ws = true -> well_formed nm = true -> stops nm t = true ->
  validateCurrency (VString (ws ++ numeral_text nm ++ t)) f =
  Normal
    (if is_minus (sign nm) then
       if Qle_bool (numeral_exact nm) zero_threshold then
         CurrencyResult.mk true (S754_zero true) None
       else
         CurrencyResult.mk false zero
           (Some (or_default "Value" f ++ " cannot be negative"))
     else
       if Qle_bool (numeral_exact nm) ceiling_threshold then
         CurrencyResult.mk true (roundQ false (numeral_exact nm)) None
       else
         CurrencyResult.mk false zero
           (Some (or_default "Value" f ++ " exceeds maximum allowed value"))).
Proof.
  intros Hws Hwf Hst.
  destruct (numeral_text_head nm t Hwf) as [c [s Hhead]].
  rewrite validateCurrency_text by (rewrite Hhead; apply leading_not_empty).
  rewrite (parseFloat_str_stops ws nm t Hws Hwf Hst), numeral_value_exact.
  rewrite roundQ_not_NaN. destruct (is_minus (sign nm)).
  - pose proof (negative_tests (numeral_exact nm)) as H.
    destruct (Qle_bool _ zero_threshold); rewrite H; reflexivity.
  - destruct (currency_tests (numeral_exact nm)) as [-> ->].
    destruct (Qle_bool _ ceiling_threshold); reflexivity.
Qed.

Lemma default_min (a : option Z) :
  or_default zero (option_map of_Z a) = of_Z (or_default 0 a).
Proof. destruct a; reflexivity. Qed.

Lemma whole_bound_range (b : option Z) (x : Z) :
  whole_bound b = true -> b = Some x -> 0 <= x < 2 ^ 53.
Proof.
  intros H ->. cbn [whole_bound] in H. apply andb_prop in H.
  destruct H as [H1 H2]. apply Z.leb_le in H1. apply Z.ltb_lt in H2. lia.
Qed.

(** The integer validator on white space, a sign, digits and what
    follows them, against whole bounds, by the written integer. *)
Lemma validatePositiveInteger_written (tl : Number -> string) (ws : string)
  (sg : Sign) (ds : list Z) (t : string) (f : option string)
  (a b : option Z) (allow : option bool) :
  all_space ws = true ->
  all_digits ds = true -> nonempty ds = true -> non_digit t = true ->
  whole_bound a = true -> whole_bound b = true ->
  validatePositiveInteger tl
    (VString (ws ++ sign_text sg ++ string_of_digits ds ++ t)) f
    (Some (ValidationOptions.mk (option_map of_Z a) (option_map of_Z b) allow)) =
  Normal
    (if signed_value sg ds <? or_default 0 a then
       IntegerResult.mk false None
         (Some (or_default "Value" f ++ " must be at least " ++
                string_of_digits (digits_of (or_default 0 a))))
     else
       match b with
       | Some x =>
           if x <? signed_value sg ds then
             IntegerResult.mk false None
               (Some (or_default "Value" f ++ " must be at most " ++
                      tl (of_Z x)))
           else
             IntegerResult.mk true
               (Some (roundQ (is_minus sg) (inject_Z (digits_value ds)))) None
       | None =>
           IntegerResult.mk true
             (Some (roundQ (is_minus sg) (inject_Z (digits_value ds)))) None
       end).
Proof.
  intros Hws Hall Hne Ht Ha Hb.
  destruct (string_of_digits_head ds t Hall Hne) as [c [s [Hhead _]]].
  rewrite validatePositiveInteger_text
    by (rewrite Hhead; apply signed_not_empty).
  rewrite (parseInt_str_leading ws sg ds t Hws Hall Hne Ht), roundQ_not_NaN.
  cbn [or_default ValidationOptions.min ValidationOptions.max]. rewrite default_min.
  pose proof (digits_value_nonneg ds Hall) as Hn.
  assert (Ha' : 0 <= or_default 0 a < 2 ^ 53).
  { destruct a as [x|]; [now apply (whole_bound_range (Some x)) | cbn; lia]. }
  destruct (integer_tests (is_minus sg) (digits_value ds) _ Hn Ha') as [-> _].
  rewrite (NumberToString_of_Z _ Ha'). fold (signed_value sg ds).
  destruct (signed_value sg ds <? or_default 0 a); [reflexivity|].
  destruct b as [x|]; cbn [option_map or_default].
  - pose proof (whole_bound_range (Some x) x Hb eq_refl) as Hx.
    destruct (integer_tests (is_minus sg) (digits_value ds) x Hn Hx) as [_ ->].
    fold (signed_value sg ds). destruct (x <? signed_value sg ds); reflexivity.
  - now rewrite gt_Infinity.
Qed.

End WrittenInputs.

Section Decomposition.

Local Open Scope string_scope.
Local Open Scope Z_scope.

Lemma ascii_of_digit_of_ascii (c : ascii) (d : Z) :
  digit_of_ascii c = Some d -> ascii_of_digit d = c /\ 0 <= d <= 9.
Proof.
  destruct c as [[] [] [] [] [] [] [] []]; cbv; intro H;
    try discriminate H; injection H as <-; split; try reflexivity;
    split; discriminate.
Qed.

(** A string is the digits at its start and what follows them. *)
Lemma span_digits_spec (s : string) :
  s = string_of_digits (fst (span_digits s)) ++ snd (span_digits s) /\
  all_digits (fst (span_digits s)) = true /\
  non_digit (snd (span_digits s)) = true.
Proof.
  induction s as [|c s IH]; [repeat split|].
  cbn [span_digits]. destruct (digit_of_ascii c) as [d|] eqn:Hd.
  - destruct (ascii_of_digit_of_ascii c d Hd) as [Hc Hr].
    destruct (span_digits s) as [ds tl]. cbn [fst snd] in *.
    destruct IH as [Hs [Ha Hn]]. split; [|split].
    + cbn [string_of_digits append]. now rewrite Hc, <- Hs.
    + apply all_digits_cons. now split.
    + assumption.
  - cbn [fst snd string_of_digits append non_digit]. unfold is_digit.
    rewrite Hd. repeat split.
Qed.

(** A string is the white space at its start and the trimmed string. *)
Lemma trim_start_spec (s : string) :
  exists ws, all_space ws = true /\ s = ws ++ trim_start s /\
             match trim_start s with
             | String c _ => is_space c = false
             | EmptyString => True
             end.
Proof.
  induction s as [|c s IH].
  - exists EmptyString. repeat split.
  - cbn [trim_start]. destruct (is_space c) eqn:Hc.
    + destruct IH as [ws [Hws [Hs Hh]]]. exists (String c ws).
      split; [|split].
      * cbn [all_space]. now rewrite Hc.
      * cbn [append]. now rewrite <- Hs.
      * assumption.
    + exists EmptyString. repeat split. assumption.
Qed.

(** The optional sign in front of a trimmed string. *)
Lemma sign_spec (s : string) :
  match s with String c _ => is_space c = false | EmptyString => True end ->
  exists sg r, s = sign_text sg ++ r /\ bare sg r = true.
Proof.
  intro H. destruct s as [|c s].
  - exists NoSign, EmptyString. split; reflexivity.
  - destruct (Ascii.eqb c "+") eqn:Hp.
    { apply Ascii.eqb_eq in Hp. subst c. exists Plus, s. split; reflexivity. }
    destruct (Ascii.eqb c "-") eqn:Hm.
    { apply Ascii.eqb_eq in Hm. subst c. exists Minus, s. split; reflexivity. }
    exists NoSign, (String c s). split; [reflexivity|].
    cbn [bare]. now rewrite H, Hp, Hm.
Qed.

Lemma strip_prefix_spec (p s r : string) :
  strip_prefix p s = Some r -> s = p ++ r.
Proof.
  revert s. induction p as [|a p IH]; intros s H.
  - cbn in H. now injection H as ->.
  - destruct s as [|b s]; [discriminate|]. cbn [strip_prefix] in H.
    destruct (Ascii.eqb a b) eqn:E; [|discriminate].
    apply Ascii.eqb_eq in E. subst b. cbn [append]. f_equal. now apply IH.
Qed.

(** The exponent part at the start of a string, if there is one. *)
Lemma exponent_spec (s : string) :
  starts_exponent s = true ->
  exists (upper : bool) (sg : Sign) (ds : list Z) (t : string),
    s = (if upper then "E" else "e") ++ sign_text sg ++ string_of_digits ds ++ t /\
    all_digits ds = true /\ nonempty ds = true /\ non_digit t = true.
Proof.
  destruct s as [|c rest]; [discriminate|]. cbn [starts_exponent].
  intro H. apply andb_prop in H. destruct H as [Hc Hd].
  apply negb_true_iff in Hd.
  assert (Hsg : exists sg r, rest = sign_text sg ++ r /\ snd (split_sign rest) = r).
  { destruct rest as [|a rest']; [exists NoSign, EmptyString; now split|].
    destruct (Ascii.eqb a "+") eqn:Hp.
    { apply Ascii.eqb_eq in Hp. subst a. exists Plus, rest'. now split. }
    destruct (Ascii.eqb a "-") eqn:Hm.
    { apply Ascii.eqb_eq in Hm. subst a. exists Minus, rest'. now split. }
    exists NoSign, (String a rest'). split; [reflexivity|].
    unfold split_sign.
    destruct a as [[] [] [] [] [] [] [] []]; try reflexivity; discriminate. }
  destruct Hsg as [sg [r [Hrest Hr]]]. rewrite Hr in Hd.
  destruct (span_digits_spec r) as [Hs [Ha Hn]].
  exists (Ascii.eqb c "E"), sg, (fst (span_digits r)), (snd (span_digits r)).
  split; [|split; [|split]]; try assumption.
  - rewrite Hrest, Hs at 1.
    apply orb_true_iff in Hc. destruct Hc as [Hc | Hc].
    + apply Ascii.eqb_eq in Hc. subst c. reflexivity.
    + rewrite Hc. apply Ascii.eqb_eq in Hc. subst c. reflexivity.
  - destruct r as [|a r']; [discriminate|]. cbn [non_digit] in Hd.
    apply negb_false_iff in Hd. unfold is_digit in Hd. cbn [span_digits].
    destruct (digit_of_ascii a); [|discriminate].
    destruct (span_digits r'). reflexivity.
Qed.

(** Every string that starts with a digit, or with a dot and a digit, is
    a well-formed unsigned numeral followed by text at which the numeral
    ends. *)
Lemma unsigned_spec (sg : Sign) (r : string) :
  starts_decimal r = true -> strip_prefix "Infinity" r = None ->
  exists nm t, sign nm = sg /\ r = unsigned_text nm ++ t /\
               well_formed nm = true /\ stops nm t = true.
Proof.
  intros Hsd HI. unfold starts_decimal in Hsd. rewrite HI, orb_false_r in Hsd.
  destruct (span_digits_spec r) as [Hr [Hai Hni]].
  set (ip := fst (span_digits r)) in *. set (r1 := snd (span_digits r)) in *.
  (* the fraction *)
  assert (Hfrac : exists fo r2,
            r1 = match fo with
                 | Some fp => "." ++ string_of_digits fp
                 | None => EmptyString
                 end ++ r2 /\
            all_digits (match fo with Some fp => fp | None => [] end) = true /\
            non_digit r2 = true /\
            (fo = None -> starts_dot r2 = false) /\
            nonempty (ip ++ match fo with Some fp => fp | None => [] end) = true).
  { assert (Hcase : nonempty ip = true \/
                    exists rest, r1 = String "." rest /\ non_digit rest = false).
    { destruct r as [|c rest]; [discriminate|].
      apply orb_true_iff in Hsd. destruct Hsd as [Hd | Hd].
      - left. unfold ip. cbn [span_digits]. unfold is_digit in Hd.
        destruct (digit_of_ascii c); [|discriminate].
        destruct (span_digits rest). reflexivity.
      - right. apply andb_prop in Hd. destruct Hd as [Hc Hd].
        apply Ascii.eqb_eq in Hc. subst c. apply negb_true_iff in Hd.
        exists rest. split; [reflexivity | assumption]. }
    destruct (starts_dot r1) eqn:Hdot.
    - destruct r1 as [|c rest]; [discriminate|]. cbn [starts_dot] in Hdot.
      apply Ascii.eqb_eq in Hdot. subst c.
      destruct (span_digits_spec rest) as [Hrest [Haf Hnf]].
      exists (Some (fst (span_digits rest))), (snd (span_digits rest)).
      split; [|split; [|split; [|split]]]; try assumption.
      + cbn [append]. now rewrite <- Hrest.
      + discriminate.
      + destruct Hcase as [Hne | [rest' [Heq Hnd]]].
        * destruct ip; [discriminate | reflexivity].
        * injection Heq as <-. destruct rest as [|a rest'']; [discriminate|].
          cbn [non_digit] in Hnd. apply negb_false_iff in Hnd.
          unfold is_digit in Hnd. cbn [span_digits].
          destruct (digit_of_ascii a); [|discriminate].
          destruct (span_digits rest''). cbn [fst].
          destruct ip; reflexivity.
    - exists None, r1. split; [|split; [|split; [|split]]]; try easy.
      destruct Hcase as [Hne | [rest' [Heq _]]].
      + rewrite app_nil_r. assumption.
      + rewrite Heq in Hdot. discriminate. }
  destruct Hfrac as [fo [r2 [Hr1 [Haf [Hn2 [Hd2 Hne]]]]]].
  (* the exponent *)
  destruct (starts_exponent r2) eqn:He.
  - destruct (exponent_spec r2 He) as [upper [sge [eds [t [Hr2 [Hae [Hnee Hnt]]]]]]].
    exists (Build_Numeral sg ip fo (Some (upper, sge, eds))), t.
    split; [reflexivity|]. split; [|split].
    + unfold unsigned_text, frac_text, exp_text.
      cbn [int_part frac_part exp_part].
      rewrite Hr at 1. rewrite Hr1, Hr2. rewrite !string_app_assoc. reflexivity.
    + unfold well_formed, frac_digits. cbn [int_part frac_part exp_part].
      now rewrite Hai, Haf, Hne, Hae, Hnee.
    + unfold stops. cbn [exp_part]. now rewrite Hnt.
  - exists (Build_Numeral sg ip fo None), r2.
    split; [reflexivity|]. split; [|split].
    + unfold unsigned_text, frac_text, exp_text.
      cbn [int_part frac_part exp_part].
      rewrite Hr at 1. rewrite Hr1, string_app_empty, !string_app_assoc.
      reflexivity.
    + unfold well_formed, frac_digits. cbn [int_part frac_part exp_part].
      now rewrite Hai, Haf, Hne.
    + unfold stops. cbn [exp_part frac_part]. rewrite Hn2, He.
      destruct fo; [reflexivity|]. now rewrite Hd2.
Qed.

(** Every string is empty, or has no decimal after its white space and
    sign, or is white space, a numeral and text at which the numeral ends,
    or is white space, a sign and [Infinity] with some text. *)
Lemma every_string_as_decimal (s : string) :
  s = EmptyString \/
  (exists ws sg t, s = ws ++ sign_text sg ++ t /\ s <> EmptyString /\
                   all_space ws = true /\ bare sg t = true /\
                   starts_decimal t = false) \/
  (exists ws nm t, s = ws ++ numeral_text nm ++ t /\
                   all_space ws = true /\ well_formed nm = true /\
                   stops nm t = true) \/
  (exists ws sg t, s = ws ++ sign_text sg ++ "Infinity" ++ t /\
                   all_space ws = true).
Proof.
  destruct s as [|c0 s0]; [now left | right].
  set (s := String c0 s0).
  destruct (trim_start_spec s) as [ws [Hws [Hs Hh]]].
  destruct (sign_spec _ Hh) as [sg [r [Hsr Hb]]].
  rewrite Hsr in Hs.
  destruct (starts_decimal r) eqn:Hd.
  - right. destruct (strip_prefix "Infinity" r) as [t|] eqn:HI.
    + right. apply strip_prefix_spec in HI. subst r.
      exists ws, sg, t. now split.
    + left. destruct (unsigned_spec sg r Hd HI) as [nm [t [Hsg [Hr [Hwf Hst]]]]].
      exists ws, nm, t. split; [|now repeat split].
      unfold numeral_text. rewrite Hsg, string_app_assoc, <- Hr. exact Hs.
  - left. exists ws, sg, r. split; [exact Hs|]. split; [discriminate|].
    now repeat split.
Qed.

(** Every string is empty, or has no digit after its white space and
    sign, or is white space, a sign, digits and text that does not start
    with a digit. *)
Lemma every_string_as_integer (s : string) :
  s = EmptyString \/
  (exists ws sg t, s = ws ++ sign_text sg ++ t /\ s <> EmptyString /\
                   all_space ws = true /\ bare sg t = true /\
                   non_digit t = true) \/
  (exists ws sg ds t, s = ws ++ sign_text sg ++ string_of_digits ds ++ t /\
                      all_space ws = true /\ all_digits ds = true /\
                      nonempty ds = true /\ non_digit t = true).
Proof.
  destruct s as [|c0 s0]; [now left | right].
  set (s := String c0 s0).
  destruct (trim_start_spec s) as [ws [Hws [Hs Hh]]].
  destruct (sign_spec _ Hh) as [sg [r [Hsr Hb]]].
  rewrite Hsr in Hs.
  destruct (non_digit r) eqn:Hd.
  - left. exists ws, sg, r. split; [exact Hs|]. split; [discriminate|].
    now repeat split.
  - right. destruct (span_digits_spec r) as [Hr [Ha Hn]].
    exists ws, sg, (fst (span_digits r)), (snd (span_digits r)).
    split; [now rewrite <- Hr|]. split; [assumption|]. split; [assumption|].
    split; [|assumption].
    destruct r as [|a r']; [discriminate|]. cbn [non_digit] in Hd.
    apply negb_false_iff in Hd. unfold is_digit in Hd. cbn [span_digits].
    destruct (digit_of_ascii a); [|discriminate].
    destruct (span_digits r'). reflexivity.
Qed.

End Decomposition.

Section CurrencyByWrittenValue.

Local Open Scope string_scope.
Local Open Scope Z_scope.

(** C3, as amended.  What [validateCurrency] returns, for every raw
    input, by what the input writes.  (1) The empty string, null and
    undefined are valid with value 0.  (2) Every other string is of one of
    three kinds, after its leading white space: it has no decimal after
    the optional sign and gets the must-be-a-valid-number error; or it is
    a decimal numeral followed by text at which the numeral ends; or it
    is an optional sign and [Infinity].  (3) A numeral written with a
    minus sign gets the cannot-be-negative error exactly when the value
    after the sign is above 2^-1075, and is otherwise valid with value -0;
    [-Infinity] gets the error.  (4) A numeral without a minus sign gets
    the exceeds-maximum error exactly when its value is above
    1000000000 + 2^-24; [Infinity] gets the error.  (5) Every other
    numeral is valid, its value the Number nearest to the value written.
    A Number is judged by its own value: NaN, below 0 and above
    1000000000 give the three errors, and every other Number is returned,
    -0 as 0.  An omitted field label is "Value". *)
Theorem validateCurrency_by_written_value :
  (forall s : string,
      s = EmptyString \/
      (exists ws sg t, s = ws ++ sign_text sg ++ t /\ s <> EmptyString /\
                       all_space ws = true /\ bare sg t = true /\
                       starts_decimal t = false) \/
      (exists ws nm t, s = ws ++ numeral_text nm ++ t /\
                       all_space ws = true /\ well_formed nm = true /\
                       stops nm t = true) \/
      (exists ws sg t, s = ws ++ sign_text sg ++ "Infinity" ++ t /\
                       all_space ws = true)) /\
  (forall (v : JsValue) (f : option string),
      is_blank v = true ->
      validateCurrency v f = Normal (CurrencyResult.mk true zero None)) /\
  (forall (ws : string) (sg : Sign) (t : string) (f : option string),
      ws ++ sign_text sg ++ t <> EmptyString ->
      all_space ws = true -> bare sg t = true -> starts_decimal t = false ->
      validateCurrency (VString (ws ++ sign_text sg ++ t)) f =
      Normal (CurrencyResult.mk false zero
                (Some (or_default "Value" f ++ " must be a valid number")))) /\
  (forall (ws : string) (nm : Numeral) (t : string) (f : option string),
      all_space ws = true -> well_formed nm = true -> stops nm t = true ->
      validateCurrency (VString (ws ++ numeral_text nm ++ t)) f =
      Normal
        (if is_minus (sign nm) then
           if Qle_bool (numeral_exact nm) zero_threshold then
             CurrencyResult.mk true (S754_zero true) None
           else
             CurrencyResult.mk false zero
               (Some (or_default "Value" f ++ " cannot be negative"))
         else
           if Qle_bool (numeral_exact nm) ceiling_threshold then
             CurrencyResult.mk true (roundQ false (numeral_exact nm)) None
           else
             CurrencyResult.mk false zero
               (Some (or_default "Value" f ++
                      " exceeds maximum allowed value")))) /\
  (forall (ws : string) (sg : Sign) (t : string) (f : option string),
      all_space ws = true ->
      validateCurrency (VString (ws ++ sign_text sg ++ "Infinity" ++ t)) f =
      Normal
        (CurrencyResult.mk false zero
           (Some (or_default "Value" f ++
                  (if is_minus sg then " cannot be negative"
                   else " exceeds maximum allowed value"))))) /\
  (forall (x : Number) (f : option string),
      valid x = true ->
      validateCurrency (VNumber x) f =
      Normal
        (if isNaN x then
           CurrencyResult.mk false zero
             (Some (or_default "Value" f ++ " must be a valid number"))
         else if lt x zero then
           CurrencyResult.mk false zero
             (Some (or_default "Value" f ++ " cannot be negative"))
         else if gt x billion then
           CurrencyResult.mk false zero
             (Some (or_default "Value" f ++ " exceeds maximum allowed value"))
         else CurrencyResult.mk true (unsigned_zero x) None)).
Proof.
  split; [exact every_string_as_decimal|].
  split; [intros v f H; now apply validateCurrency_blank|].
  split; [|split; [exact validateCurrency_written|split]].
  - intros ws sg t f Hne Hws Hb Hd.
    rewrite (validateCurrency_text _ f Hne).
    now rewrite (parseFloat_str_no_decimal ws sg t Hws Hb Hd).
  - intros ws sg t f Hws.
    rewrite validateCurrency_text
      by (destruct ws; [destruct sg|]; discriminate).
    rewrite (parseFloat_str_Infinity ws sg t Hws).
    destruct (is_minus sg); reflexivity.
  - intros x f Hv. unfold validateCurrency, parseFloat. cbn [is_blank ToString].
    rewrite (parseFloat_NumberToString x Hv).
    rewrite isNaN_unsigned_zero, lt_unsigned_zero, gt_unsigned_zero.
    destruct (isNaN x); [reflexivity|].
    destruct (lt x zero); [reflexivity|].
    destruct (gt x billion); reflexivity.
Qed.

Lemma validateCurrency_by_written_value_witness :
  validateCurrency (VString "  $5") (Some "Price") =
    Normal (CurrencyResult.mk false zero
              (Some "Price must be a valid number")) /\
  validateCurrency (VString " 12.50EUR") (Some "Price") =
    Normal (CurrencyResult.mk true (roundQ false (25 # 2)) None) /\
  validateCurrency (VString "-0.01") (Some "Price") =
    Normal (CurrencyResult.mk false zero (Some "Price cannot be negative")) /\
  validateCurrency (VString "1e10") (Some "Price") =
    Normal (CurrencyResult.mk false zero
              (Some "Price exceeds maximum allowed value")) /\
  validateCurrency (VNumber (of_Z (-5))) (Some "Price") =
    Normal (CurrencyResult.mk false zero (Some "Price cannot be negative")).
Proof.
  destruct validateCurrency_by_written_value as [_ [_ [Hnone [Hnum [_ Hval]]]]].
  split; [|split; [|split; [|split]]].
  - apply (Hnone "  " NoSign "$5" (Some "Price")); try reflexivity. discriminate.
  - apply (Hnum " " (Build_Numeral NoSign [1; 2] (Some [5; 0]) None) "EUR"
             (Some "Price") eq_refl eq_refl eq_refl).
  - apply (Hnum EmptyString (Build_Numeral Minus [0] (Some [0; 1]) None)
             EmptyString (Some "Price") eq_refl eq_refl eq_refl).
  - apply (Hnum EmptyString
             (Build_Numeral NoSign [1] None (Some (false, NoSign, [1; 0])))
             EmptyString (Some "Price") eq_refl eq_refl eq_refl).
  - apply (Hval (of_Z (-5)) (Some "Price") eq_refl).
Defined.

(** C3 as stated fails next to the two bounds, where the tests see the
    rounded Number and not the value written: [-1e-400] is a negative
    numeric input and is valid (with value -0), and
    [1000000000.00000001] strictly exceeds the ceiling and is valid (with
    value 1000000000). *)
Lemma currency_bounds_are_tested_after_rounding :
  numeral_text (Build_Numeral Minus [1] None (Some (false, Minus, [4; 0; 0]))) =
    "-1e-400" /\
  Qlt 0%Q
    (numeral_exact
       (Build_Numeral Minus [1] None (Some (false, Minus, [4; 0; 0])))) /\
  validateCurrency (VString "-1e-400") (Some "Price") =
    Normal (CurrencyResult.mk true (S754_zero true) None) /\
  numeral_text (Build_Numeral NoSign [1; 0; 0; 0; 0; 0; 0; 0; 0; 0]
                  (Some [0; 0; 0; 0; 0; 0; 0; 1]) None) =
    "1000000000.00000001" /\
  Qlt (inject_Z 1000000000)
    (numeral_exact (Build_Numeral NoSign [1; 0; 0; 0; 0; 0; 0; 0; 0; 0]
                      (Some [0; 0; 0; 0; 0; 0; 0; 1]) None)) /\
  validateCurrency (VString "1000000000.00000001") (Some "Price") =
    Normal (CurrencyResult.mk true (of_Z 1000000000) None).
Proof.
  repeat split; vm_compute; reflexivity.
Qed.

End CurrencyByWrittenValue.

Section IntegerByWrittenValue.

Local Open Scope string_scope.
Local Open Scope Z_scope.

Lemma validatePositiveInteger_blank (tl : Number -> string) (v : JsValue)
  (f : option string) (o : option ValidationOptions.t) :
  is_blank v = true ->
  validatePositiveInteger tl v f o =
  Normal
    (if or_default true
          (ValidationOptions.allowEmpty (or_default ValidationOptions.empty o))
     then IntegerResult.mk true None None
     else IntegerResult.mk false None
            (Some (or_default "Value" f ++ " is required"))).
Proof.
  intro H. unfold validatePositiveInteger. rewrite H.
  destruct (or_default true _); reflexivity.
Qed.

(** C4.  [validatePositiveInteger] is the Positive-Integer Validator of
    section 4.2, with the defaults min 0, max +Infinity and allowEmpty
    true for absent properties and for an absent options object, and what
    it returns is fixed by what the input writes.  (1) The empty string,
    null and undefined are valid with value null when allowEmpty is true
    or absent, and get the is-required error otherwise.  (2) Every other
    string is, after its leading white space and optional sign, either
    without a digit, and gets the must-be-a-valid-number error, or a run
    of digits followed by text that does not start with a digit.
    (3)-(5) For digits and whole bounds (absent, or from 0 to below 2^53)
    the written integer is compared with the bounds: below min it gets
    "<field> must be at least" and the decimal digits of min, above max
    "<field> must be at most" and the host's rendering of max, and
    otherwise it is valid with the integer (rounded to a Number) as
    value.  In the en-US locale the rendering of a whole max below 2^53
    is its decimal digits grouped in threes by commas.  A whole Number of
    magnitude below 10^21 is judged by its own value. *)
Theorem validatePositiveInteger_by_written_integer :
  (forall (toLocaleString : Number -> string) (i : NumericInput) (f : string)
          (o : ValidationOptions.t),
      validatePositiveInteger toLocaleString (to_js i) (Some f) (Some o) =
        Normal (PositiveIntegerValidator toLocaleString i f
                  (or_default (of_Z 0) (ValidationOptions.min o))
                  (or_default Infinity (ValidationOptions.max o))
                  (or_default true (ValidationOptions.allowEmpty o))) /\
      validatePositiveInteger toLocaleString (to_js i) (Some f) None =
        Normal (PositiveIntegerValidator toLocaleString i f
                  (of_Z 0) Infinity true) /\
      validatePositiveInteger toLocaleString (to_js i) None (Some o) =
        validatePositiveInteger toLocaleString (to_js i) (Some "Value")
          (Some o)) /\
  (forall s : string,
      s = EmptyString \/
      (exists ws sg t, s = ws ++ sign_text sg ++ t /\ s <> EmptyString /\
                       all_space ws = true /\ bare sg t = true /\
                       non_digit t = true) \/
      (exists ws sg ds t, s = ws ++ sign_text sg ++ string_of_digits ds ++ t /\
                          all_space ws = true /\ all_digits ds = true /\
                          nonempty ds = true /\ non_digit t = true)) /\
  (forall (toLocaleString : Number -> string) (v : JsValue)
          (f : option string) (o : option ValidationOptions.t),
      is_blank v = true ->
      validatePositiveInteger toLocaleString v f o =
      Normal
        (if or_default true
              (ValidationOptions.allowEmpty
                 (or_default ValidationOptions.empty o))
         then IntegerResult.mk true None None
         else IntegerResult.mk false None
                (Some (or_default "Value" f ++ " is required")))) /\
  (forall (toLocaleString : Number -> string) (ws : string) (sg : Sign)
          (t : string) (f : option string) (o : option ValidationOptions.t),
      ws ++ sign_text sg ++ t <> EmptyString ->
      all_space ws = true -> bare sg t = true -> non_digit t = true ->
      validatePositiveInteger toLocaleString
        (VString (ws ++ sign_text sg ++ t)) f o =
      Normal (IntegerResult.mk false None
                (Some (or_default "Value" f ++ " must be a valid number")))) /\
  (forall (toLocaleString : Number -> string) (ws : string) (sg : Sign)
          (ds : list Z) (t : string) (f : option string) (a b : option Z)
          (allow : option bool),
      all_space ws = true ->
      all_digits ds = true -> nonempty ds = true -> non_digit t = true ->
      whole_bound a = true -> whole_bound b = true ->
      validatePositiveInteger toLocaleString
        (VString (ws ++ sign_text sg ++ string_of_digits ds ++ t)) f
        (Some (ValidationOptions.mk (option_map of_Z a) (option_map of_Z b)
                 allow)) =
      Normal
        (if signed_value sg ds <? or_default 0 a then
           IntegerResult.mk false None
             (Some (or_default "Value" f ++ " must be at least " ++
                    string_of_digits (digits_of (or_default 0 a))))
         else
           match b with
           | Some x =>
               if x <? signed_value sg ds then
                 IntegerResult.mk false None
                   (Some (or_default "Value" f ++ " must be at most " ++
                          toLocaleString (of_Z x)))
               else
                 IntegerResult.mk true
                   (Some (roundQ (is_minus sg) (inject_Z (digits_value ds))))
                   None
           | None =>
               IntegerResult.mk true
                 (Some (roundQ (is_minus sg) (inject_Z (digits_value ds))))
                 None
           end)) /\
  (forall x : Z,
      0 <= x < 2 ^ 53 -> toLocaleString_enUS (of_Z x) = thousands x) /\
  (forall (toLocaleString : Number -> string) (x : Number)
          (f : option string) (o : option ValidationOptions.t),
      valid x = true -> whole x -> below x (10 ^ 21) = true ->
      let min := or_default zero
                   (ValidationOptions.min
                      (or_default ValidationOptions.empty o)) in
      let max := or_default Infinity
                   (ValidationOptions.max
                      (or_default ValidationOptions.empty o)) in
      validatePositiveInteger toLocaleString (VNumber x) f o =
      Normal
        (if lt x min then
           IntegerResult.mk false None
             (Some (or_default "Value" f ++ " must be at least " ++
                    NumberToString min))
         else if gt x max then
           IntegerResult.mk false None
             (Some (or_default "Value" f ++ " must be at most " ++
                    toLocaleString max))
         else IntegerResult.mk true (Some (unsigned_zero x)) None)).
Proof.
  split; [|split; [exact every_string_as_integer|]].
  { intros tl i f o. split; [|split].
    - apply validatePositiveInteger_raw.
    - apply (validatePositiveInteger_raw tl i f ValidationOptions.empty).
    - reflexivity. }
  split; [exact validatePositiveInteger_blank|].
  split; [|split; [exact validatePositiveInteger_written|]].
  { intros tl ws sg t f o Hne Hws Hb Hd.
    rewrite (validatePositiveInteger_text tl _ f o Hne).
    now rewrite (parseInt_str_no_digit ws sg t Hws Hb Hd). }
  split; [exact toLocaleString_enUS_of_Z|].
  intros tl x f o Hv Hw Hb min max.
  assert (Hn : isNaN x = false)
    by (destruct x; [reflexivity.. | discriminate | reflexivity]).
  unfold validatePositiveInteger, parseInt. cbn [is_blank ToString].
  rewrite (parseInt_NumberToString x Hv Hw Hb).
  rewrite isNaN_unsigned_zero, lt_unsigned_zero, gt_unsigned_zero, Hn.
  fold min. fold max.
  destruct (lt x min); [reflexivity|].
  destruct (gt x max); reflexivity.
Qed.

Lemma validatePositiveInteger_by_written_integer_witness :
  validatePositiveInteger toLocaleString_enUS (VString " 12000001 km")
    (Some "Mileage")
    (Some (ValidationOptions.mk (Some (of_Z 1000)) (Some (of_Z 12000000))
             None)) =
    Normal (IntegerResult.mk false None
              (Some "Mileage must be at most 12,000,000")) /\
  validatePositiveInteger toLocaleString_enUS (VString "999")
    (Some "Mileage")
    (Some (ValidationOptions.mk (Some (of_Z 1000)) (Some (of_Z 12000000))
             None)) =
    Normal (IntegerResult.mk false None
              (Some "Mileage must be at least 1000")) /\
  validatePositiveInteger toLocaleString_enUS (VString "2024.9") None None =
    Normal (IntegerResult.mk true (Some (of_Z 2024)) None) /\
  validatePositiveInteger toLocaleString_enUS (VString "+x") (Some "Qty") None =
    Normal (IntegerResult.mk false None (Some "Qty must be a valid number")) /\
  toLocaleString_enUS (of_Z 12000000) = "12,000,000".
Proof.
  destruct validatePositiveInteger_by_written_integer
    as [_ [_ [_ [Hnone [Hdigits [Hus _]]]]]].
  split; [|split; [|split; [|split]]].
  - apply (Hdigits toLocaleString_enUS " " NoSign [1; 2; 0; 0; 0; 0; 0; 1]
             " km" (Some "Mileage") (Some 1000) (Some 12000000) None
             eq_refl eq_refl eq_refl eq_refl eq_refl eq_refl).
  - apply (Hdigits toLocaleString_enUS EmptyString NoSign [9; 9; 9]
             EmptyString (Some "Mileage") (Some 1000) (Some 12000000) None
             eq_refl eq_refl eq_refl eq_refl eq_refl eq_refl).
  - apply (Hdigits toLocaleString_enUS EmptyString NoSign [2; 0; 2; 4]
             ".9" None None None None
             eq_refl eq_refl eq_refl eq_refl eq_refl eq_refl).
  - apply (Hnone toLocaleString_enUS EmptyString Plus "x" (Some "Qty") None);
      try reflexivity. discriminate.
  - apply (Hus 12000000). lia.
Defined.

End IntegerByWrittenValue.

Section YearAndOdometer.

Local Open Scope string_scope.
Local Open Scope Z_scope.

(** C9.  [validateYear] and [validateOdometer] are
    [validatePositiveInteger] with fixed bounds, for every input and
    label.  With the clock at the whole year [cy], [validateYear] is
    [validatePositiveInteger] with min 1900, max the Number [cy + 2] (the
    sum [currentYear + 2] is exact) and allowEmpty true, under the label
    "Year" when none is given; [validateOdometer] is it with min 0, max
    10000000 and allowEmpty true, under the label "Odometer".  So both
    accept the empty values with value null, and on white space, an
    optional sign and digits, followed by anything that is not a digit,
    [validateYear] is valid exactly from 1900 to [cy + 2] and
    [validateOdometer] exactly from 0 to 10000000. *)
Theorem year_and_odometer_bounds :
  (forall (toLocaleString : Number -> string) (cy : Z) (v : JsValue)
          (f : option string),
      0 <= cy < 2 ^ 53 - 2 ->
      validateYear toLocaleString (of_Z cy) v f =
      validatePositiveInteger toLocaleString v (Some (or_default "Year" f))
        (Some (ValidationOptions.mk (Some (of_Z 1900)) (Some (of_Z (cy + 2)))
                 (Some true)))) /\
  (forall (toLocaleString : Number -> string) (v : JsValue)
          (f : option string),
      validateOdometer toLocaleString v f =
      validatePositiveInteger toLocaleString v (Some (or_default "Odometer" f))
        (Some (ValidationOptions.mk (Some (of_Z 0)) (Some (of_Z 10000000))
                 (Some true)))) /\
  (forall (toLocaleString : Number -> string) (currentYear : Number)
          (v : JsValue) (f : option string),
      is_blank v = true ->
      validateYear toLocaleString currentYear v f =
        Normal (IntegerResult.mk true None None) /\
      validateOdometer toLocaleString v f =
        Normal (IntegerResult.mk true None None)) /\
  (forall (toLocaleString : Number -> string) (cy : Z) (ws : string)
          (sg : Sign) (ds : list Z) (t : string) (f : option string),
      0 <= cy < 2 ^ 53 - 2 ->
      all_space ws = true ->
      all_digits ds = true -> nonempty ds = true -> non_digit t = true ->
      validateYear toLocaleString (of_Z cy)
        (VString (ws ++ sign_text sg ++ string_of_digits ds ++ t)) f =
      Normal
        (if signed_value sg ds <? 1900 then
           IntegerResult.mk false None
             (Some (or_default "Year" f ++ " must be at least 1900"))
         else if cy + 2 <? signed_value sg ds then
           IntegerResult.mk false None
             (Some (or_default "Year" f ++ " must be at most " ++
                    toLocaleString (of_Z (cy + 2))))
         else
           IntegerResult.mk true
             (Some (roundQ (is_minus sg) (inject_Z (digits_value ds)))) None)) /\
  (forall (toLocaleString : Number -> string) (ws : string) (sg : Sign)
          (ds : list Z) (t : string) (f : option string),
      all_space ws = true ->
      all_digits ds = true -> nonempty ds = true -> non_digit t = true ->
      validateOdometer toLocaleString
        (VString (ws ++ sign_text sg ++ string_of_digits ds ++ t)) f =
      Normal
        (if signed_value sg ds <? 0 then
           IntegerResult.mk false None
             (Some (or_default "Odometer" f ++ " must be at least 0"))
         else if 10000000 <? signed_value sg ds then
           IntegerResult.mk false None
             (Some (or_default "Odometer" f ++ " must be at most " ++
                    toLocaleString (of_Z 10000000)))
         else
           IntegerResult.mk true
             (Some (roundQ (is_minus sg) (inject_Z (digits_value ds)))) None)).
Proof.
  split; [|split; [|split; [|split]]].
  - intros tl cy v f Hcy. unfold validateYear.
    now rewrite (add_of_Z cy 2) by lia.
  - reflexivity.
  - intros tl cy v f Hv. unfold validateYear, validateOdometer.
    split; now rewrite validatePositiveInteger_blank.
  - intros tl cy ws sg ds t f Hcy Hws Hall Hne Ht. unfold validateYear.
    rewrite (add_of_Z cy 2) by lia.
    assert (Hb : whole_bound (Some (cy + 2)) = true).
    { cbn [whole_bound]. apply andb_true_intro.
      split; [apply Z.leb_le | apply Z.ltb_lt]; lia. }
    rewrite (validatePositiveInteger_written tl ws sg ds t _ (Some 1900)
               (Some (cy + 2)) (Some true) Hws Hall Hne Ht eq_refl Hb).
    reflexivity.
  - intros tl ws sg ds t f Hws Hall Hne Ht. unfold validateOdometer.
    rewrite (validatePositiveInteger_written tl ws sg ds t _ (Some 0)
               (Some 10000000) (Some true) Hws Hall Hne Ht eq_refl eq_refl).
    reflexivity.
Qed.

Lemma year_and_odometer_bounds_witness :
  validateYear toLocaleString_enUS (of_Z 2026) (VString "2028") None =
    Normal (IntegerResult.mk true (Some (of_Z 2028)) None) /\
  validateYear toLocaleString_enUS (of_Z 2026) (VString "2029") None =
    Normal (IntegerResult.mk false None (Some "Year must be at most 2,028")) /\
  validateYear toLocaleString_enUS (of_Z 2026) (VString "1899") None =
    Normal (IntegerResult.mk false None (Some "Year must be at least 1900")) /\
  validateOdometer toLocaleString_enUS (VString "10000001") None =
    Normal (IntegerResult.mk false None
              (Some "Odometer must be at most 10,000,000")).
Proof.
  destruct year_and_odometer_bounds as [_ [_ [_ [Hy Ho]]]].
  split; [|split; [|split]].
  - apply (Hy toLocaleString_enUS 2026 EmptyString NoSign [2; 0; 2; 8]
             EmptyString None); try reflexivity. lia.
  - apply (Hy toLocaleString_enUS 2026 EmptyString NoSign [2; 0; 2; 9]
             EmptyString None); try reflexivity. lia.
  - apply (Hy toLocaleString_enUS 2026 EmptyString NoSign [1; 8; 9; 9]
             EmptyString None); try reflexivity. lia.
  - apply (Ho toLocaleString_enUS EmptyString NoSign [1; 0; 0; 0; 0; 0; 0; 1]
             EmptyString None); reflexivity.
Defined.

End YearAndOdometer.

Section PrefixParsing.

Local Open Scope string_scope.
Local Open Scope Z_scope.

Lemma stops_empty (nm : Numeral) : stops nm EmptyString = true.
Proof. unfold stops. destruct (exp_part nm), (frac_part nm); reflexivity. Qed.

Lemma validateCurrency_numeral_stops (nm : Numeral) (t : string) (f : string) :
  well_formed nm = true -> stops nm t = true ->
  validateCurrency (VString (numeral_text nm ++ t)) (Some f) =
  Normal (currency_outcome f (numeral_value nm)).
Proof.
  intros Hwf Hst.
  destruct (numeral_text_head nm t Hwf) as [c [s Hhead]].
  rewrite validateCurrency_text by (rewrite Hhead; discriminate).
  pose proof (parseFloat_str_stops EmptyString nm t eq_refl Hwf Hst) as Hp.
  change (EmptyString ++ numeral_text nm ++ t) with (numeral_text nm ++ t) in Hp.
  rewrite Hp.
  unfold currency_outcome, invalid_currency, valid_currency.
  unfold numeral_value, decimal_value. rewrite roundQ_not_NaN.
  rewrite billion_literal, zero_literal. reflexivity.
Qed.

(** C10, as amended.  For every string made of a well-formed decimal
    numeral and text at which the numeral ends (text that does not go on
    with a digit, nor with an exponent part when the numeral has none,
    nor with a dot when the numeral has neither fraction nor exponent:
    [abc], [EUR], [em], [e] alone, a second [.2]), [validateCurrency]
    returns what it returns for the numeral alone: never the
    must-be-a-valid-number error, the cannot-be-negative or
    exceeds-maximum error when the numeral's value is negative or above
    1,000,000,000, and otherwise a valid result whose value is the
    numeral's.  For every string made of an optional sign and at least
    one digit followed by text that does not start with a digit (a
    decimal point and fraction, for one), [validatePositiveInteger]
    returns what it returns for the signed digits alone: never the
    must-be-a-valid-number error, the at-least or at-most error when that
    integer is below min or above max, and otherwise a valid result whose
    value is that integer. *)
Theorem lenient_prefix_parsing :
  (forall (nm : Numeral) (t : string) (f : string),
      well_formed nm = true -> stops nm t = true ->
      let v := numeral_value nm in
      validateCurrency (VString (numeral_text nm ++ t)) (Some f) =
        validateCurrency (VString (numeral_text nm)) (Some f) /\
      validateCurrency (VString (numeral_text nm ++ t)) (Some f) =
        Normal (currency_outcome f v) /\
      CurrencyResult.error (currency_outcome f v) <>
        Some (f ++ " must be a valid number") /\
      (lt v (of_Z 0) = false -> gt v ceiling = false ->
       currency_outcome f v = CurrencyResult.mk true v None)) /\
  (forall (toLocaleString : Number -> string) (sg : Sign) (ip : list Z)
          (t : string) (f : string) (o : ValidationOptions.t),
      all_digits ip = true -> nonempty ip = true -> non_digit t = true ->
      let v := roundQ (is_minus sg) (inject_Z (digits_value ip)) in
      let min := or_default (of_Z 0) (ValidationOptions.min o) in
      let max := or_default Infinity (ValidationOptions.max o) in
      validatePositiveInteger toLocaleString
        (VString (sign_text sg ++ string_of_digits ip ++ t)) (Some f) (Some o) =
        validatePositiveInteger toLocaleString
          (VString (sign_text sg ++ string_of_digits ip)) (Some f) (Some o) /\
      validatePositiveInteger toLocaleString
        (VString (sign_text sg ++ string_of_digits ip ++ t)) (Some f) (Some o) =
        Normal (integer_outcome toLocaleString f min max v) /\
      IntegerResult.error (integer_outcome toLocaleString f min max v) <>
        Some (f ++ " must be a valid number") /\
      (lt v min = false -> gt v max = false ->
       integer_outcome toLocaleString f min max v =
       IntegerResult.mk true (Some v) None)).
Proof.
  split.
  - intros nm t f Hwf Ht v. split; [|split; [|split]].
    + rewrite (validateCurrency_numeral_stops nm t f Hwf Ht).
      rewrite <- (string_app_empty (numeral_text nm)).
      now rewrite (validateCurrency_numeral_stops nm EmptyString f Hwf
                     (stops_empty nm)).
    + now apply validateCurrency_numeral_stops.
    + apply currency_outcome_error.
    + unfold currency_outcome. now intros -> ->.
  - intros tl sg ip t f o Hall Hne Ht v min max. split; [|split; [|split]].
    + rewrite (validatePositiveInteger_digits tl sg ip t f o Hall Hne Ht).
      rewrite <- (string_app_empty (string_of_digits ip)).
      now rewrite (validatePositiveInteger_digits tl sg ip EmptyString f o Hall Hne eq_refl).
    + now apply validatePositiveInteger_digits.
    + apply integer_outcome_error.
    + unfold integer_outcome. now intros -> ->.
Qed.

Lemma lenient_prefix_parsing_witness :
  validateCurrency (VString "12abc") (Some "Price") =
    Normal (CurrencyResult.mk true (of_Z 12) None) /\
  validateCurrency (VString "100EUR") (Some "Price") =
    Normal (CurrencyResult.mk true (of_Z 100) None) /\
  validateCurrency (VString "1.5.2") (Some "Price") =
    validateCurrency (VString "1.5") (Some "Price") /\
  validatePositiveInteger toLocaleString_enUS (VString "3.7") (Some "Quantity")
    (Some ValidationOptions.empty) =
    Normal (IntegerResult.mk true (Some (of_Z 3)) None).
Proof.
  split; [|split; [|split]].
  - apply (proj1 (proj2 (proj1 lenient_prefix_parsing
                    (Build_Numeral NoSign [1; 2] None None) "abc" "Price"
                    eq_refl eq_refl))).
  - apply (proj1 (proj2 (proj1 lenient_prefix_parsing
                    (Build_Numeral NoSign [1; 0; 0] None None) "EUR" "Price"
                    eq_refl eq_refl))).
  - apply (proj1 (proj1 lenient_prefix_parsing
                    (Build_Numeral NoSign [1] (Some [5]) None) ".2" "Price"
                    eq_refl eq_refl)).
  - apply (proj1 (proj2 (proj2 lenient_prefix_parsing toLocaleString_enUS
                    NoSign [3] ".7" "Quantity" ValidationOptions.empty
                    eq_refl eq_refl eq_refl))).
Defined.

End PrefixParsing.
